(** * SMIV back end of the nnet_lib forward pass: tiling, DMA flags, buffers

    A shallow embedding of [nnet_lib/src/arch/smiv.c]: the work divider
    ([convolution_divide_work]), the convolution driver
    ([convolution_runner], [convolution_layer]), the inner-product path
    ([inner_product_layer_hw], [inner_product_layer]), [pooling_layer],
    the DMA flag pass ([set_dma_requirements]) and the forward pass
    ([nnet_fwd]); and of the tile loop [SmvPoolingOp::runNHC] of
    [operators/smv/smv_pooling_op.cpp].

    Conventions.
    - C [int] and [unsigned] values are integers of [Z]; every operation
      that can leave the 32-bit range is followed by [to_int] or
      [to_unsigned].  Signed overflow is undefined in C; the model follows
      the two's-complement wrap of the target.
    - [float] is IEEE-754 binary32 with round-to-nearest-even, modelled on
      exact dyadic rationals (module [F32]).
    - [assert(false)] aborts the run: the model returns a [failure].
    - Calls into the numeric kernels and the DMA helpers are recorded as
      [event]s; the simulator macros [MAP_ARRAY], [MAP_ARRAY_TO_ACCEL] only
      register host arrays with the tracer and move no data, and
      [INVOKE_KERNEL] is the call of its function argument.  The debug
      macros [PRINT_MSG], [PRINT_DEBUG], [PRINT_DEBUG4D] expand to nothing
      in a build without [DEBUG] and are left out.
    - [malloc] succeeds; the block it returns is an argument of the model. *)

From Stdlib Require Import ZArith Lia String.
From Stdlib Require Floats.SpecFloat.
From stdpp Require Import base list.

Local Open Scope Z_scope.

(** ** Machine integers *)

Definition to_unsigned (x : Z) : Z := x mod 2 ^ 32.
Definition to_int (x : Z) : Z := (x + 2 ^ 31) mod 2 ^ 32 - 2 ^ 31.
Definition to_size_t (x : Z) : Z := x mod 2 ^ 64.

(** [sizeof(float)], a [size_t]. *)
Definition sizeof_float : Z := 4.

(** [min] of nnet_fwd.h / utility.h, the usual macro
    [(((a) < (b)) ? (a) : (b))]. *)
Definition min (a b : Z) : Z := if a <? b then a else b.

(** ** IEEE-754 binary32

    The file converts [unsigned] values to [float], divides two of them and
    rounds the quotient up.  All these values are zero or lie between
    [2 ^ -32] and [2 ^ 32], in the normal range, so a value is modelled as
    the exact fraction [num / den], [den] a positive power of two, and
    rounding keeps 24 significant bits, ties to even.  The divisors in the
    file ([max_channels_per_iter >= 2], [SPAD_SIZE]) are never zero. *)
Module F32.

Definition f32 : Type := Z * Z.

Definition prec : Z := 24.

(** Nearest integer to [n / d], ties to even. *)
Definition rne (n d : Z) : Z :=
  let q := n / d in
  let r := n mod d in
  if 2 * r <? d then q
  else if d <? 2 * r then q + 1
  else if Z.even q then q else q + 1.

(** The fraction [n / d / 2 ^ e]. *)
Definition scaled (n d e : Z) : Z * Z :=
  if 0 <=? e then (n, d * 2 ^ e) else (n * 2 ^ (- e), d).

(** The exponent [e] of the unit in the last place of [n / d]:
    [2 ^ 23 <= n / d / 2 ^ e < 2 ^ 24]. *)
Definition exponent (n d : Z) : Z :=
  let e0 := Z.log2 n - Z.log2 d - prec in
  let '(n0, d0) := scaled n d e0 in
  if 2 ^ prec <=? n0 / d0 then e0 + 1 else e0.

(** Rounding of the positive fraction [n / d] to 24 significant bits. *)
Definition round (n d : Z) : f32 :=
  if n =? 0 then (0, 1)
  else
    let e := exponent n d in
    let '(n1, d1) := scaled n d e in
    let m := rne n1 d1 in
    if 0 <=? e then (m * 2 ^ e, 1) else (m, 2 ^ (- e)).

(** [(float)x] for an [unsigned] [x]. *)
Definition of_unsigned (x : Z) : f32 := round x 1.

(** [x / y] in binary32. *)
Definition div (x y : f32) : f32 := round (x.1 * y.2) (x.2 * y.1).

(** [ceil], exact; the result is an integer-valued double. *)
Definition ceil (x : f32) : Z := - ((- x.1) / x.2).

(** The same three operations through the Standard Library's
    specification of IEEE-754 arithmetic, used to cross-check [round]. *)
Definition spec_ceil_div (a b : Z) : option Z :=
  let fa := SpecFloat.binary_normalize 24 128 a 0 false in
  let fb := SpecFloat.binary_normalize 24 128 b 0 false in
  match SpecFloat.SFdiv 24 128 fa fb with
  | SpecFloat.S754_zero _ => Some 0
  | SpecFloat.S754_finite false m e =>
      Some (if 0 <=? e then Z.pos m * 2 ^ e
            else - ((- Z.pos m) / 2 ^ (- e)))
  | _ => None
  end.

Definition ceil_div (a b : Z) : Z := ceil (div (of_unsigned a) (of_unsigned b)).

(** Agreement of the two on a pair of operands, on all pairs up to [n],
    and on the pairs [(k * a + 1, b)] for [a], [b] up to [n]. *)
Definition agrees (a b : Z) : bool :=
  match spec_ceil_div a b with
  | Some c => c =? ceil_div a b
  | None => false
  end.

Definition agrees_upto (n : nat) : bool :=
  forallb (fun a => forallb (fun b => agrees (Z.of_nat a) (Z.of_nat b)) (seq 1 n))
    (seq 0 (S n)).

Definition agrees_scaled (k : Z) (n : nat) : bool :=
  forallb (fun a =>
             forallb (fun b => agrees (k * Z.of_nat a + 1) (Z.of_nat b)) (seq 1 n))
    (seq 0 (S n)).

(** [n / d >= 2 ^ 23 * 2 ^ e]: at exponent [e] the significand of
    [n / d] has its leading bit set. *)
Definition normal_at (n d e : Z) : Prop :=
  let '(n1, d1) := scaled n d e in 0 < d1 /\ 2 ^ 23 * d1 <= n1.

End F32.

(** The integer ceiling of [a / b]. *)
Definition ceil_quotient (a b : Z) : Z := - ((- a) / b).

(** ** Data model *)

(** Modelled from the spec: the enumerations of [nnet_fwd.h], which is not
    among the sources at hand.  The constructors are the enumerators that
    smiv.c names, the fully-connected (inner-product) layer type of the
    spec, and one constructor for every other enumerator. *)
Inductive layer_type : Type :=
  | CONV | POOLING | FC | SOFTMAX | LAYER_OTHER (code : Z).

Inductive activation_type : Type :=
  | NONE | SIGMOID | ACTIVATION_OTHER (code : Z).

Inductive pool_type : Type :=
  | MAX | POOL_OTHER (code : Z).

Inductive input_pp : Type :=
  | FLATTEN | PP_OTHER (code : Z).

#[global] Instance layer_type_eq_dec : EqDecision layer_type.
Proof. solve_decision. Defined.
#[global] Instance activation_type_eq_dec : EqDecision activation_type.
Proof. solve_decision. Defined.
#[global] Instance pool_type_eq_dec : EqDecision pool_type.
Proof. solve_decision. Defined.
#[global] Instance input_pp_eq_dec : EqDecision input_pp.
Proof. solve_decision. Defined.

(** [dims_t]: all four fields are [int]. *)
Record dims_t : Type := mk_dims {
  rows : Z;
  cols : Z;
  height : Z;
  align_pad : Z
}.

(** [layer_t], the fields smiv.c reads or writes. *)
Record layer_t : Type := mk_layer {
  type : layer_type;
  activation : activation_type;
  inputs : dims_t;
  weights : dims_t;
  outputs : dims_t;
  c_padding : Z;
  pool : pool_type;
  input_preprocessing : input_pp;
  needs_input_dma_load : bool;
  needs_output_dma_store : bool;
  result_in_temp : bool
}.

#[global] Instance dims_t_eq_dec : EqDecision dims_t.
Proof. solve_decision. Defined.
#[global] Instance layer_t_eq_dec : EqDecision layer_t.
Proof. solve_decision. Defined.

Definition set_height (d : dims_t) (h : Z) : dims_t :=
  {| rows := rows d; cols := cols d; height := h; align_pad := align_pad d |}.

Definition set_inputs (l : layer_t) (d : dims_t) : layer_t :=
  {| type := type l; activation := activation l; inputs := d;
     weights := weights l; outputs := outputs l; c_padding := c_padding l;
     pool := pool l; input_preprocessing := input_preprocessing l;
     needs_input_dma_load := needs_input_dma_load l;
     needs_output_dma_store := needs_output_dma_store l;
     result_in_temp := result_in_temp l |}.

Definition set_weights (l : layer_t) (d : dims_t) : layer_t :=
  {| type := type l; activation := activation l; inputs := inputs l;
     weights := d; outputs := outputs l; c_padding := c_padding l;
     pool := pool l; input_preprocessing := input_preprocessing l;
     needs_input_dma_load := needs_input_dma_load l;
     needs_output_dma_store := needs_output_dma_store l;
     result_in_temp := result_in_temp l |}.

Definition set_outputs (l : layer_t) (d : dims_t) : layer_t :=
  {| type := type l; activation := activation l; inputs := inputs l;
     weights := weights l; outputs := d; c_padding := c_padding l;
     pool := pool l; input_preprocessing := input_preprocessing l;
     needs_input_dma_load := needs_input_dma_load l;
     needs_output_dma_store := needs_output_dma_store l;
     result_in_temp := result_in_temp l |}.

Definition set_activation (l : layer_t) (a : activation_type) : layer_t :=
  {| type := type l; activation := a; inputs := inputs l;
     weights := weights l; outputs := outputs l; c_padding := c_padding l;
     pool := pool l; input_preprocessing := input_preprocessing l;
     needs_input_dma_load := needs_input_dma_load l;
     needs_output_dma_store := needs_output_dma_store l;
     result_in_temp := result_in_temp l |}.

Definition set_needs_input_dma_load (l : layer_t) (b : bool) : layer_t :=
  {| type := type l; activation := activation l; inputs := inputs l;
     weights := weights l; outputs := outputs l; c_padding := c_padding l;
     pool := pool l; input_preprocessing := input_preprocessing l;
     needs_input_dma_load := b;
     needs_output_dma_store := needs_output_dma_store l;
     result_in_temp := result_in_temp l |}.

Definition set_needs_output_dma_store (l : layer_t) (b : bool) : layer_t :=
  {| type := type l; activation := activation l; inputs := inputs l;
     weights := weights l; outputs := outputs l; c_padding := c_padding l;
     pool := pool l; input_preprocessing := input_preprocessing l;
     needs_input_dma_load := needs_input_dma_load l;
     needs_output_dma_store := b;
     result_in_temp := result_in_temp l |}.

(** [network_t]: the layer array and its [depth]. *)
Record network_t : Type := mk_network {
  layers : list layer_t;
  depth : Z
}.

(** [layers[i]] for an [int] index; [None] outside the array. *)
Definition layer_at (ls : list layer_t) (i : Z) : option layer_t :=
  if i <? 0 then None else ls !! Z.to_nat i.

(** [conv_cfg_t]. *)
Record conv_cfg_t : Type := mk_conv_cfg {
  iteration : list dims_t;
  num_iterations : Z
}.

(** A [float*]: an allocated block and an offset in elements. *)
Record ptr : Type := mk_ptr { blk : Z; ofs : Z }.

#[global] Instance ptr_eq_dec : EqDecision ptr.
Proof. solve_decision. Defined.

Definition NULL : ptr := {| blk := 0; ofs := 0 |}.

Definition ptr_add (p : ptr) (n : Z) : ptr := {| blk := blk p; ofs := ofs p + n |}.

(** The file-level statics [umem], [spad0], [spad1]. *)
Record globals : Type := mk_globals { umem : ptr; spad0 : ptr; spad1 : ptr }.

Definition SPAD_SIZE : Z := 131072.
Definition UMEM_SIZE : Z := 3 * 1048576.

(** ** Effects *)

(** What stops a run: the two [assert(false)] of the work divider, the
    assertion on the final reduction, the one of [pooling_layer], and the
    two undefined operations the model keeps apart. *)
Inductive failure : Type :=
  | UnsupportedInputSize
  | TiledInputUnsupported
  | MultiRoundReduction
  | UnsupportedPooling
  | DivisionByZero
  | OutOfBounds.

#[global] Instance failure_eq_dec : EqDecision failure.
Proof. solve_decision. Defined.

(** The character written [\n] in C. *)
Definition newline : string := String (Ascii.ascii_of_nat 10) EmptyString.

(** Calls that leave smiv.c, in program order. *)
Inductive event : Type :=
  | EvPrintf (format : string) (args : list Z)
  | EvDmaLoad (dst src : ptr) (bytes : Z)
  | EvDmaStore (dst src : ptr) (bytes : Z)
  | EvGrabInput (host local : ptr) (l : layer_t)
  | EvStoreOutput (host local : ptr) (l : layer_t)
  | EvMatMul (a b : ptr) (a_height b_height b_width a_pad : Z)
             (run_activation : bool) (result : ptr)
  | EvConv3d (a kernels : ptr) (curr_layer : layer_t) (result : ptr)
  | EvReduction (a : ptr) (curr_layer : layer_t) (result : ptr)
  | EvZeropad (a : ptr) (lnum : Z) (result : ptr)
  | EvMemcpy (dst src : ptr) (bytes : Z)
  | EvMaxPooling (a result : ptr) (l : layer_t).

(** A computation: the events it produced, then a value or the failure
    that ended the run. *)
Definition M (A : Type) : Type := list event * (failure + A).

Definition ret {A} (a : A) : M A := ([], inr a).
Definition fail {A} (e : failure) : M A := ([], inl e).
Definition emit (ev : event) : M unit := ([ev], inr tt).

Definition bind {A B} (m : M A) (f : A -> M B) : M B :=
  match m with
  | (t, inl e) => (t, inl e)
  | (t, inr a) => let '(t', r) := f a in (t ++ t', r)
  end.

Notation "'do' x <- m ; k" := (bind m (fun x => k))
  (at level 10, x name, m at level 100, k at level 200,
   format "'[v' 'do'  x  <-  m ; '/' k ']'").
Notation "'run' m ; k" := (bind m (fun _ => k))
  (at level 10, m at level 100, k at level 200,
   format "'[v' 'run'  m ; '/' k ']'").

Definition of_option {A} (e : failure) (o : option A) : M A :=
  match o with Some a => ret a | None => fail e end.

Definition trace {A} (m : M A) : list event := m.1.
Definition outcome {A} (m : M A) : failure + A := m.2.

(** The buffer an event writes.  The numeric kernels and DMA helpers write
    their result argument only (spec, external interfaces). *)
Definition written (ev : event) : option ptr :=
  match ev with
  | EvPrintf _ _ => None
  | EvDmaLoad dst _ _ => Some dst
  | EvDmaStore dst _ _ => Some dst
  | EvGrabInput _ local _ => Some local
  | EvStoreOutput host _ _ => Some host
  | EvMatMul _ _ _ _ _ _ _ result => Some result
  | EvConv3d _ _ _ result => Some result
  | EvReduction _ _ result => Some result
  | EvZeropad _ _ result => Some result
  | EvMemcpy dst _ _ => Some dst
  | EvMaxPooling _ result _ => Some result
  end.

(** ** The work divider *)

Section WorkDivider.

(** Declared outside smiv.c: the batch size, the byte size of a layer's
    input activations for the whole batch, and the alignment helper. *)
Variable NUM_TEST_CASES : Z.
Variable INPUT_BYTES : list layer_t -> Z -> Z.
Variable DATA_ALIGNMENT : Z.
Variable calc_padding : Z -> Z -> Z.

(** [INPUT_BYTES(layers, lnum) / NUM_TEST_CASES], a [size_t] quotient
    stored in an [unsigned]. *)
Definition total_input_bytes (ls : list layer_t) (lnum : Z) : option Z :=
  let n := to_size_t NUM_TEST_CASES in
  if n =? 0 then None
  else Some (to_unsigned (to_size_t (INPUT_BYTES ls lnum) / n)).

(** [outputs.rows * (outputs.cols + outputs.align_pad)], in [int]. *)
Definition output_2d_size (l : layer_t) : Z :=
  to_int (rows (outputs l) * to_int (cols (outputs l) + align_pad (outputs l))).

(** The unreduced output for a single output channel, in bytes. *)
Definition total_output_bytes (l : layer_t) : Z :=
  to_unsigned
    (to_size_t (to_int (output_2d_size l * height (inputs l))) * sizeof_float).

Definition output_channel_size (l : layer_t) : Z :=
  to_unsigned (to_size_t (output_2d_size l) * sizeof_float).

Definition input_channels (l : layer_t) : Z := to_unsigned (height (inputs l)).

Definition max_channels_per_iter (l : layer_t) : Z :=
  SPAD_SIZE / output_channel_size l.

(** The body of the [for] loop that fills [conv_cfgs.iteration], run [n]
    more times with [total_channels] channels still to place. *)
Fixpoint divide_loop (l : layer_t) (n : nat) (total_channels : Z) : list dims_t :=
  match n with
  | O => []
  | S n' =>
      {| rows := rows (inputs l);
         cols := cols (inputs l);
         height := to_int (min total_channels (max_channels_per_iter l));
         align_pad := calc_padding (cols (inputs l)) DATA_ALIGNMENT |}
      :: divide_loop l n'
           (to_unsigned (total_channels - max_channels_per_iter l))
  end.

(** [ceil((float)input_channels / max_channels_per_iter)] stored in an
    [unsigned]. *)
Definition tiled_num_iterations (l : layer_t) : Z :=
  to_unsigned
    (F32.ceil (F32.div (F32.of_unsigned (input_channels l))
                       (F32.of_unsigned (max_channels_per_iter l)))).

Definition umem_message : string :=
  "A single input image exceeds the capacity of the UMEM, which is not supported!"
  ++ newline.

Definition convolution_divide_work (ls : list layer_t) (lnum : Z) : M conv_cfg_t :=
  do l <- of_option OutOfBounds (layer_at ls lnum);
  do total_input <- of_option DivisionByZero (total_input_bytes ls lnum);
  run (if UMEM_SIZE <? total_input
       then (run emit (EvPrintf umem_message []); fail UnsupportedInputSize)
       else ret tt);
  if total_output_bytes l <=? SPAD_SIZE then
    ret {| iteration :=
             [ {| rows := rows (inputs l);
                  cols := cols (inputs l);
                  height := height (inputs l);
                  align_pad := calc_padding (cols (inputs l)) DATA_ALIGNMENT |} ];
           num_iterations := 1 |}
  else if output_channel_size l =? 0 then fail DivisionByZero
  else if 2 <=? max_channels_per_iter l then
    ret {| iteration :=
             divide_loop l (Z.to_nat (tiled_num_iterations l)) (input_channels l);
           num_iterations := tiled_num_iterations l |}
  else fail TiledInputUnsupported.

End WorkDivider.

(** [conv_cfgs.iteration[i]] for an [int] index. *)
Definition iteration_at (conv_cfgs : conv_cfg_t) (i : Z) : option dims_t :=
  if i <? 0 then None else iteration conv_cfgs !! Z.to_nat i.

(** ** Layer drivers *)

(** [for (int i = 0; i < n; i++) s = body(i, s)], entered with
    [fuel = n] turns left; a failing turn ends the run. *)
Fixpoint for_loop {S : Type} (fuel : nat) (i : Z) (s : S) (body : Z -> S -> M S)
  : M S :=
  match fuel with
  | O => ret s
  | S fuel' => do s' <- body i s; for_loop fuel' (i + 1) s' body
  end.

(** [&array[i][j][0][0]] for a view declared by
    [ARRAY_4D(float, array, base, d1, d2, d3)]. *)
Definition array_4d (base : ptr) (d1 d2 d3 : Z) (i j : Z) : ptr :=
  ptr_add base ((i * d1 + j) * d2 * d3).

(** The value of the function-local static [current_result_loc] before the
    first call of [inner_product_layer]. *)
Definition initial_result_loc : ptr := NULL.

(** The [if] chain that opens [inner_product_layer]. *)
Definition next_result_loc (g : globals) (current_result_loc : ptr) : ptr :=
  if decide (current_result_loc = NULL) then spad1 g
  else if decide (current_result_loc = spad0 g) then spad1 g
  else if decide (current_result_loc = spad1 g) then spad0 g
  else current_result_loc.

(** The partial layer of one iteration of [convolution_runner]. *)
Definition iteration_layer (curr_layer : layer_t) (conv_cfgs : conv_cfg_t)
    (iter_cfg : dims_t) : layer_t :=
  let p0 := curr_layer in
  let p1 := set_inputs p0 (set_height (inputs p0) (height iter_cfg)) in
  let p2 := set_outputs p1 (set_height (outputs p1) (height iter_cfg)) in
  let p3 := set_weights p2 (set_height (weights p2) (height iter_cfg)) in
  set_activation p3
    (if num_iterations conv_cfgs =? 1 then activation curr_layer else NONE).

(** The partial layer of the final reduction. *)
Definition final_layer (curr_layer : layer_t) (num_result_chans : Z) : layer_t :=
  let p1 := set_inputs curr_layer (set_height (inputs curr_layer) num_result_chans) in
  set_outputs p1 (set_height (outputs p1) 1).

(** [ceil(result_2d_size * num_iterations / (float)SPAD_SIZE)], an [int]. *)
Definition final_rounds (result_2d_size num_iterations : Z) : Z :=
  to_int (F32.ceil (F32.div (F32.of_unsigned (to_unsigned (result_2d_size * num_iterations)))
                            (F32.of_unsigned SPAD_SIZE))).

Section Layers.

Variable NUM_TEST_CASES : Z.
Variable INPUT_BYTES : list layer_t -> Z -> Z.
Variable DATA_ALIGNMENT : Z.
Variable calc_padding : Z -> Z -> Z.
(** Declared in utility.h: the number of weights of a layer and the
    offset of its weights in the weight array. *)
Variable get_num_weights_layer : list layer_t -> Z -> Z.
Variable get_weights_loc_for_layer : list layer_t -> Z -> Z.

Variable g : globals.

Definition inner_product_layer_hw
    (host_activations host_weights local_activations local_weights : ptr)
    (ls : list layer_t) (lnum : Z) (host_result local_result : ptr) : M unit :=
  do l <- of_option OutOfBounds (layer_at ls lnum);
  let run_activation := negb (bool_decide (activation l = NONE)) in
  let weights_size :=
    to_int (to_size_t (get_num_weights_layer ls lnum) * sizeof_float) in
  run emit (EvDmaLoad local_weights host_weights weights_size);
  run (if needs_input_dma_load l
       then emit (EvGrabInput host_activations local_activations l)
       else ret tt);
  run emit (EvMatMul local_activations local_weights NUM_TEST_CASES
              (rows (weights l))
              (to_int (cols (weights l) + align_pad (weights l)))
              (align_pad (inputs l)) run_activation local_result);
  if needs_output_dma_store l
  then emit (EvStoreOutput host_result local_result l)
  else ret tt.

(** [inner_product_layer]: the new value of the static
    [current_result_loc], and the call. *)
Definition inner_product_layer (current_result_loc : ptr)
    (host_activations host_weights : ptr) (ls : list layer_t) (lnum : Z)
    (host_result : ptr) : ptr * M ptr :=
  let current_result_loc := next_result_loc g current_result_loc in
  let host_weights_layer :=
    ptr_add host_weights (get_weights_loc_for_layer ls lnum) in
  (current_result_loc,
   run (if decide (current_result_loc = spad0 g)
        then inner_product_layer_hw host_activations host_weights_layer
               (spad1 g) (umem g) ls lnum host_result (spad0 g)
        else inner_product_layer_hw host_activations host_weights_layer
               (spad0 g) (umem g) ls lnum host_result (spad1 g));
   ret host_result).

Definition reduction_hw (unreduced_activations : ptr) (partial_layer : layer_t)
    (local_result : ptr) (result_size : Z) (host_result : ptr) : M unit :=
  run emit (EvReduction unreduced_activations partial_layer local_result);
  emit (EvDmaStore host_result local_result
          (to_size_t (result_size * sizeof_float))).

Definition convolution_layer_hw
    (host_activations host_weights local_activations local_weights : ptr)
    (all_layers : list layer_t) (partial_layer : layer_t)
    (layer_num img kern start_chan : Z) (result : ptr) : M unit :=
  do curr_layer <- of_option OutOfBounds (layer_at all_layers layer_num);
  let input_height := height (inputs curr_layer) in
  let input_rows := rows (inputs curr_layer) in
  let input_cols := cols (inputs curr_layer) in
  let input_pad := align_pad (inputs curr_layer) in
  let k_width := cols (weights curr_layer) in
  let k_pad := align_pad (weights curr_layer) in
  let num_weights :=
    to_size_t
      (to_int (to_int (rows (weights partial_layer) * height (weights partial_layer))
               * to_int (cols (weights partial_layer)
                         + align_pad (weights partial_layer)))) in
  run emit (EvDmaLoad local_weights
              (array_4d host_weights input_height k_width
                 (to_int (k_width + k_pad)) kern start_chan)
              (to_size_t (num_weights * sizeof_float)));
  run (if needs_input_dma_load partial_layer then
         let num_input_pixels :=
           to_size_t
             (to_int (to_int (rows (inputs partial_layer)
                              * height (inputs partial_layer))
                      * to_int (cols (inputs partial_layer)
                                + align_pad (inputs partial_layer)))) in
         emit (EvDmaLoad local_activations
                 (array_4d host_activations input_height input_rows
                    (to_int (input_cols + input_pad)) img start_chan)
                 (to_size_t (num_input_pixels * sizeof_float)))
       else ret tt);
  emit (EvConv3d local_activations local_weights partial_layer result).

(** One turn of the loop over the plan; the state is
    [(start_chan, result_loc)]. *)
Definition iteration_body (host_activations host_weights : ptr)
    (ls : list layer_t) (lnum : Z) (curr_layer : layer_t)
    (conv_cfgs : conv_cfg_t) (result_2d_size img kern : Z)
    (iter : Z) (st : Z * ptr) : M (Z * ptr) :=
  let '(start_chan, result_loc) := st in
  do iter_cfg <- of_option OutOfBounds (iteration_at conv_cfgs iter);
  let partial_layer := iteration_layer curr_layer conv_cfgs iter_cfg in
  run convolution_layer_hw host_activations host_weights (umem g) (spad0 g)
        ls partial_layer lnum img kern (to_int start_chan) (spad1 g);
  run reduction_hw (spad1 g) partial_layer (umem g)
        (to_size_t result_2d_size) result_loc;
  ret (to_unsigned (start_chan + height iter_cfg),
       ptr_add result_loc result_2d_size).

(** "Finish off the reduction here." *)
Definition final_reduction (curr_layer : layer_t) (conv_cfgs : conv_cfg_t)
    (result_2d_size : Z) (temp_result : ptr) : M unit :=
  if 1 <? num_iterations conv_cfgs then
    let result_iter := final_rounds result_2d_size (num_iterations conv_cfgs) in
    run (if result_iter =? 1 then ret tt else fail MultiRoundReduction);
    run (if result_2d_size =? 0 then fail DivisionByZero else ret tt);
    let num_result_chans :=
      to_int (min (num_iterations conv_cfgs)
                  (to_unsigned (Z.quot SPAD_SIZE result_2d_size))) in
    let partial_layer := final_layer curr_layer num_result_chans in
    run for_loop (Z.to_nat result_iter) 0 temp_result
          (fun _ result_loc =>
             run reduction_hw (spad1 g) partial_layer (umem g)
                   (to_size_t result_2d_size) result_loc;
             ret (ptr_add result_loc result_2d_size));
    ret tt
  else ret tt.

(** The body of the loop over kernels. *)
Definition kernel_body (host_activations host_weights : ptr)
    (ls : list layer_t) (lnum : Z) (curr_layer : layer_t)
    (conv_cfgs : conv_cfg_t) (temp_result host_result : ptr)
    (img kern : Z) : M unit :=
  let result_2d_size := output_2d_size curr_layer in
  run for_loop (Z.to_nat (num_iterations conv_cfgs)) 0 (0, temp_result)
        (iteration_body host_activations host_weights ls lnum curr_layer
           conv_cfgs result_2d_size img kern);
  run final_reduction curr_layer conv_cfgs result_2d_size temp_result;
  emit (EvMemcpy
          (array_4d host_result (height (outputs curr_layer))
             (rows (outputs curr_layer))
             (to_int (cols (outputs curr_layer) + align_pad (outputs curr_layer)))
             img kern)
          temp_result
          (to_size_t (to_size_t result_2d_size * sizeof_float))).

(** [convolution_runner]; [temp_result] is the block its [malloc]
    returns. *)
Definition convolution_runner (temp_result : ptr)
    (host_activations host_weights : ptr) (ls : list layer_t) (lnum : Z)
    (host_result : ptr) : M unit :=
  do curr_layer <- of_option OutOfBounds (layer_at ls lnum);
  let num_kerns := height (outputs curr_layer) in
  do conv_cfgs <- convolution_divide_work NUM_TEST_CASES INPUT_BYTES
                    DATA_ALIGNMENT calc_padding ls lnum;
  run for_loop (Z.to_nat NUM_TEST_CASES) 0 tt
        (fun img _ =>
           for_loop (Z.to_nat num_kerns) 0 tt
             (fun kern _ =>
                kernel_body host_activations host_weights ls lnum curr_layer
                  conv_cfgs temp_result host_result img kern));
  ret tt.

Definition convolution_layer (temp_result : ptr) (activations weights : ptr)
    (ls : list layer_t) (lnum : Z) (result : ptr) : M ptr :=
  let current_layer_weights :=
    ptr_add weights (get_weights_loc_for_layer ls lnum) in
  do curr_layer <- of_option OutOfBounds (layer_at ls lnum);
  if 0 <? c_padding curr_layer then
    run emit (EvZeropad activations lnum result);
    run convolution_runner temp_result result current_layer_weights ls lnum
          activations;
    ret activations
  else
    run convolution_runner temp_result activations current_layer_weights ls
          lnum result;
    ret result.

(** Software implementation; only max pooling is supported. *)
Definition pooling_layer (activations : ptr) (ls : list layer_t) (lnum : Z)
    (result : ptr) : M ptr :=
  do curr_layer <- of_option OutOfBounds (layer_at ls lnum);
  run (if bool_decide (pool curr_layer = MAX)
       then emit (EvMaxPooling activations result curr_layer)
       else fail UnsupportedPooling);
  ret result.

End Layers.

(** ** The DMA flag pass *)

(** [network->layers[i].field = ...]: one store into the layer array. *)
Definition assign_layer (ls : list layer_t) (i : Z) (f : layer_t -> layer_t)
  : M (list layer_t) :=
  do l <- of_option OutOfBounds (layer_at ls i);
  ret (<[Z.to_nat i := f l]> ls).

(** The condition of the [if] that decides the output store, with the
    left-to-right short circuit of [||]: the next layer is read last. *)
Definition needs_store (depth : Z) (ls : list layer_t) (layer_num : Z) : M bool :=
  do cur <- of_option OutOfBounds (layer_at ls layer_num);
  if layer_num =? depth - 1 then ret true
  else if bool_decide (activation cur = SIGMOID) then ret true
  else if bool_decide (type cur = POOLING) then ret true
  else if bool_decide (type cur = CONV) then ret true
  else if bool_decide (input_preprocessing cur = FLATTEN) then ret true
  else
    do next <- of_option OutOfBounds (layer_at ls (layer_num + 1));
    ret (bool_decide (type next = POOLING) || bool_decide (type next = SOFTMAX)).

(** One turn of the first loop of [set_dma_requirements]. *)
Definition dma_body (depth : Z) (ls : list layer_t) (layer_num : Z)
  : M (list layer_t) :=
  if layer_num =? 0 then
    do ls1 <- assign_layer ls layer_num (fun l => set_needs_input_dma_load l false);
    assign_layer ls1 layer_num (fun l => set_needs_output_dma_store l true)
  else
    do store <- needs_store depth ls layer_num;
    do ls1 <- assign_layer ls layer_num (fun l => set_needs_output_dma_store l store);
    do prev <- of_option OutOfBounds (layer_at ls1 (layer_num - 1));
    assign_layer ls1 layer_num
      (fun l => set_needs_input_dma_load l (needs_output_dma_store prev)).

Fixpoint dma_loop (fuel : nat) (depth : Z) (layer_num : Z) (ls : list layer_t)
  : M (list layer_t) :=
  match fuel with
  | O => ret ls
  | S fuel' =>
      if layer_num <? depth then
        do ls' <- dma_body depth ls layer_num;
        dma_loop fuel' depth (layer_num + 1) ls'
      else ret ls
  end.

Definition dma_format : string :=
  "Layer %d: dmaLoad = %d, dmaStore = %d" ++ newline.

Fixpoint dma_print_loop (fuel : nat) (depth : Z) (layer_num : Z) (ls : list layer_t)
  : M unit :=
  match fuel with
  | O => ret tt
  | S fuel' =>
      if layer_num <? depth then
        do l <- of_option OutOfBounds (layer_at ls layer_num);
        run emit (EvPrintf dma_format
                    [layer_num; Z.b2z (needs_input_dma_load l);
                     Z.b2z (needs_output_dma_store l)]);
        dma_print_loop fuel' depth (layer_num + 1) ls
      else ret tt
  end.

(** [set_dma_requirements]: the network is updated in place; the model
    returns it.  Both loops run at most [depth] times. *)
Definition set_dma_requirements (network : network_t) : M network_t :=
  do ls <- dma_loop (Z.to_nat (depth network)) (depth network) 0 (layers network);
  run dma_print_loop (Z.to_nat (depth network)) (depth network) 0 ls;
  ret {| layers := ls; depth := depth network |}.

(** The store flag the pass computes for layer [i] of [ls]. *)
Definition store_flag (depth : Z) (ls : list layer_t) (i : nat) : bool :=
  match i with
  | O => true
  | S _ =>
      match ls !! i with
      | None => false
      | Some cur =>
          (Z.of_nat i =? depth - 1)
          || bool_decide (activation cur = SIGMOID)
          || bool_decide (type cur = POOLING)
          || bool_decide (type cur = CONV)
          || bool_decide (input_preprocessing cur = FLATTEN)
          || match ls !! S i with
             | Some next =>
                 bool_decide (type next = POOLING)
                 || bool_decide (type next = SOFTMAX)
             | None => false
             end
      end
  end.

Definition load_flag (depth : Z) (ls : list layer_t) (i : nat) : bool :=
  match i with
  | O => false
  | S j => store_flag depth ls j
  end.

(** Layer [l] with its two DMA flags replaced. *)
Definition with_flags (l : layer_t) (load store : bool) : layer_t :=
  set_needs_input_dma_load (set_needs_output_dma_store l store) load.

(** The layer array after [k] turns of the first loop. *)
Definition flagged_upto (depth : Z) (orig : list layer_t) (k : nat) : list layer_t :=
  imap (fun i l =>
          if (i <? k)%nat
          then with_flags l (load_flag depth orig i) (store_flag depth orig i)
          else l) orig.

(** The partial layer of an iteration of [h] channels, field by field:
    the layer's shape with the three channel counts replaced, and the
    activation kept only by a plan of one iteration. *)
Definition iteration_descriptor (curr_layer : layer_t) (conv_cfgs : conv_cfg_t)
    (h : Z) : layer_t :=
  {| type := type curr_layer;
     activation :=
       if num_iterations conv_cfgs =? 1 then activation curr_layer else NONE;
     inputs := {| rows := rows (inputs curr_layer);
                  cols := cols (inputs curr_layer);
                  height := h;
                  align_pad := align_pad (inputs curr_layer) |};
     weights := {| rows := rows (weights curr_layer);
                   cols := cols (weights curr_layer);
                   height := h;
                   align_pad := align_pad (weights curr_layer) |};
     outputs := {| rows := rows (outputs curr_layer);
                   cols := cols (outputs curr_layer);
                   height := h;
                   align_pad := align_pad (outputs curr_layer) |};
     c_padding := c_padding curr_layer;
     pool := pool curr_layer;
     input_preprocessing := input_preprocessing curr_layer;
     needs_input_dma_load := needs_input_dma_load curr_layer;
     needs_output_dma_store := needs_output_dma_store curr_layer;
     result_in_temp := result_in_temp curr_layer |}.

(** The events of a run of [convolution_runner] on layer [curr_layer]
    with plan [conv_cfgs], by kind. *)
Inductive runner_event (g : globals) (temp_result host_activations host_weights
    host_result : ptr) (curr_layer : layer_t) (conv_cfgs : conv_cfg_t)
  : event -> Prop :=
  | runner_load_weights src bytes :
      blk src = blk host_weights ->
      runner_event g temp_result host_activations host_weights host_result
        curr_layer conv_cfgs (EvDmaLoad (spad0 g) src bytes)
  | runner_load_activations src bytes :
      blk src = blk host_activations ->
      runner_event g temp_result host_activations host_weights host_result
        curr_layer conv_cfgs (EvDmaLoad (umem g) src bytes)
  | runner_compute iter iter_cfg :
      iteration_at conv_cfgs iter = Some iter_cfg ->
      runner_event g temp_result host_activations host_weights host_result
        curr_layer conv_cfgs
        (EvConv3d (umem g) (spad0 g)
           (iteration_descriptor curr_layer conv_cfgs (height iter_cfg)) (spad1 g))
  | runner_reduce partial_layer :
      runner_event g temp_result host_activations host_weights host_result
        curr_layer conv_cfgs (EvReduction (spad1 g) partial_layer (umem g))
  | runner_store_partial dst bytes :
      runner_event g temp_result host_activations host_weights host_result
        curr_layer conv_cfgs (EvDmaStore dst (umem g) bytes)
  | runner_assemble dst bytes :
      blk dst = blk host_result ->
      runner_event g temp_result host_activations host_weights host_result
        curr_layer conv_cfgs (EvMemcpy dst temp_result bytes).

(** The channels a plan covers. *)
Definition total_channels (plan : list dims_t) : Z :=
  foldr (fun d acc => height d + acc) 0 plan.

(** The failures the work divider raises by design. *)
Definition config_error (e : failure) : Prop :=
  e = UnsupportedInputSize \/ e = TiledInputUnsupported.

(** ** Instances for the examples *)

(** Modelled from the spec: [INPUT_BYTES] of nnet_fwd.h, the byte size of a
    layer's input activations for the whole batch, that is the footprint
    of one input image, rows x (cols + pad) x channels x element size,
    times the batch size. *)
Definition spec_INPUT_BYTES (num_test_cases : Z) (ls : list layer_t) (lnum : Z) : Z :=
  match layer_at ls lnum with
  | Some l =>
      rows (inputs l) * (cols (inputs l) + align_pad (inputs l))
      * height (inputs l) * num_test_cases * sizeof_float
  | None => 0
  end.

(** Modelled from the spec: [calc_padding] of utility.h, the alignment
    padding of a row: the number of elements that fills [value] up to a
    multiple of [alignment]. *)
Definition spec_calc_padding (value alignment : Z) : Z :=
  if (alignment =? 0) || (value mod alignment =? 0) then 0
  else alignment - value mod alignment.

(** A batch of one image, rows aligned to 8 elements. *)
Definition example_divide_work : list layer_t -> Z -> M conv_cfg_t :=
  convolution_divide_work 1 (spec_INPUT_BYTES 1) 8 spec_calc_padding.

(** Three allocated accelerator buffers and four host blocks. *)
Definition example_globals : globals :=
  {| umem := mk_ptr 1 0; spad0 := mk_ptr 2 0; spad1 := mk_ptr 3 0 |}.
Definition example_temp_result : ptr := mk_ptr 4 0.
Definition example_activations : ptr := mk_ptr 5 0.
Definition example_weights : ptr := mk_ptr 6 0.
Definition example_result : ptr := mk_ptr 7 0.

Definition example_runner : ptr -> ptr -> list layer_t -> Z -> ptr -> M unit :=
  convolution_runner 1 (spec_INPUT_BYTES 1) 8 spec_calc_padding example_globals
    example_temp_result.

(** A convolution layer with 3 x 3 kernels and no activation. *)
Definition example_conv (in_rows in_cols in_pad channels : Z)
    (out_rows out_cols out_pad kernels : Z) (padding : Z) : layer_t :=
  {| type := CONV;
     activation := NONE;
     inputs := {| rows := in_rows; cols := in_cols; height := channels;
                  align_pad := in_pad |};
     weights := {| rows := 3; cols := 3; height := channels; align_pad := 5 |};
     outputs := {| rows := out_rows; cols := out_cols; height := kernels;
                   align_pad := out_pad |};
     c_padding := padding;
     pool := POOL_OTHER 0;
     input_preprocessing := PP_OTHER 0;
     needs_input_dma_load := false;
     needs_output_dma_store := true;
     result_in_temp := false |}.

(** 8 x 8 x 4 input, 2 kernels: the unreduced output of a kernel takes
    6 * 8 * 4 * 4 = 768 bytes. *)
Definition small_layer : layer_t := example_conv 8 8 0 4 6 6 2 2 0.

(** The same layer behind one ring of zero padding. *)
Definition padded_layer : layer_t := example_conv 8 8 0 4 8 8 0 2 1.

(** 130 x 130 x 8 input, 128 x 128 output: one unreduced output channel
    takes 65536 bytes, so two channels fit a scratchpad and the 8 channels
    need 4 iterations. *)
Definition tiled_layer : layer_t := example_conv 130 130 6 8 128 128 0 2 0.

(** The same shape with 64 channels: one input image takes
    130 * 136 * 64 * 4 = 4526080 bytes, more than the UMEM. *)
Definition wide_layer : layer_t := example_conv 130 130 6 64 128 128 0 2 0.

(** One row of 4 outputs, [2 ^ 25 + 1] input channels. *)
Definition deep_layer : layer_t := example_conv 0 0 0 33554433 1 4 0 1 0.

Definition example_pooling : layer_t :=
  {| type := POOLING; activation := NONE;
     inputs := mk_dims 6 6 2 2; weights := mk_dims 0 0 0 0;
     outputs := mk_dims 3 3 2 5; c_padding := 0; pool := MAX;
     input_preprocessing := PP_OTHER 0;
     needs_input_dma_load := false; needs_output_dma_store := false;
     result_in_temp := false |}.

Definition example_fc : layer_t :=
  {| type := FC; activation := ACTIVATION_OTHER 1;
     inputs := mk_dims 1 18 1 6; weights := mk_dims 18 10 1 6;
     outputs := mk_dims 1 10 1 6; c_padding := 0; pool := POOL_OTHER 0;
     input_preprocessing := FLATTEN;
     needs_input_dma_load := true; needs_output_dma_store := false;
     result_in_temp := false |}.

(** A three-layer network: convolution, pooling, inner product. *)
Definition example_network : network_t :=
  {| layers := [small_layer; example_pooling; example_fc]; depth := 3 |}.

(** ** Measures on plans and traces *)

(** The value of [start_chan] when iteration [j] of the plan begins. *)
Definition start_chan_at (conv_cfgs : conv_cfg_t) (j : nat) : Z :=
  foldl (fun acc d => to_unsigned (acc + height d)) 0
    (take j (iteration conv_cfgs)).

(** Recognizers of events, and the number of events a trace holds. *)
Definition is_conv3d (ev : event) : bool :=
  match ev with EvConv3d _ _ _ _ => true | _ => false end.
Definition is_reduction (ev : event) : bool :=
  match ev with EvReduction _ _ _ => true | _ => false end.
Definition is_memcpy (ev : event) : bool :=
  match ev with EvMemcpy _ _ _ => true | _ => false end.
Definition is_activation_load (g : globals) (ev : event) : bool :=
  match ev with
  | EvDmaLoad dst _ _ => bool_decide (dst = umem g)
  | _ => false
  end.

Fixpoint count_events (p : event -> bool) (t : list event) : nat :=
  match t with
  | [] => 0
  | ev :: t' => (if p ev then 1 else 0) + count_events p t'
  end.

(** The DMA loads of iteration [j], of [h] channels, of a kernel's turn:
    the weights of kernel [kern] and the activations of image [img], both
    from channel [start_chan] on. *)
Definition weight_load (g : globals) (host_weights : ptr) (curr_layer : layer_t)
    (kern start_chan h : Z) : event :=
  EvDmaLoad (spad0 g)
    (array_4d host_weights (height (inputs curr_layer)) (cols (weights curr_layer))
       (to_int (cols (weights curr_layer) + align_pad (weights curr_layer)))
       kern start_chan)
    (to_size_t
       (to_size_t
          (to_int (to_int (rows (weights curr_layer) * h)
                   * to_int (cols (weights curr_layer)
                             + align_pad (weights curr_layer))))
        * sizeof_float)).

Definition activation_load (g : globals) (host_activations : ptr)
    (curr_layer : layer_t) (img start_chan h : Z) : event :=
  EvDmaLoad (umem g)
    (array_4d host_activations (height (inputs curr_layer))
       (rows (inputs curr_layer))
       (to_int (cols (inputs curr_layer) + align_pad (inputs curr_layer)))
       img start_chan)
    (to_size_t
       (to_size_t
          (to_int (to_int (rows (inputs curr_layer) * h)
                   * to_int (cols (inputs curr_layer)
                             + align_pad (inputs curr_layer))))
        * sizeof_float)).

(** The copy of the finished slice of kernel [kern] of image [img]. *)
Definition output_copy (temp_result host_result : ptr) (curr_layer : layer_t)
    (img kern : Z) : event :=
  EvMemcpy
    (array_4d host_result (height (outputs curr_layer)) (rows (outputs curr_layer))
       (to_int (cols (outputs curr_layer) + align_pad (outputs curr_layer)))
       img kern)
    temp_result
    (to_size_t (to_size_t (output_2d_size curr_layer) * sizeof_float)).

(** ** The forward pass *)

(** [farray_t]: a buffer and its size in bytes. *)
Module Farray.
Record farray_t : Type := mk_farray { d : ptr; size : Z }.
End Farray.

Definition set_result_in_temp (l : layer_t) (b : bool) : layer_t :=
  {| type := type l; activation := activation l; inputs := inputs l;
     weights := weights l; outputs := outputs l; c_padding := c_padding l;
     pool := pool l; input_preprocessing := input_preprocessing l;
     needs_input_dma_load := needs_input_dma_load l;
     needs_output_dma_store := needs_output_dma_store l;
     result_in_temp := b |}.

Section ForwardPass.

(** Declared outside smiv.c: the batch size and the number of classes
    ([int]), the size of a layer descriptor, the switch and the routine of
    the debugging print, and the dispatcher of arch/common.h, which runs
    the layer function of the layer's type and returns the buffer that
    holds its output. *)
Variable NUM_TEST_CASES : Z.
Variable NUM_CLASSES : Z.
Variable sizeof_layer_t : Z.
Variable PRINT_DATA_AND_WEIGHTS : bool.
Variable print_data_and_weights : ptr -> ptr -> layer_t -> M unit.
Variable run_layer_skip_activation_func :
  ptr -> ptr -> list layer_t -> Z -> ptr -> ptr -> M ptr.

Definition run_layer (activations weights : ptr) (ls : list layer_t)
    (layer_num : Z) (result sigmoid_table : ptr) : M ptr :=
  do result_loc <- run_layer_skip_activation_func activations weights ls
                     layer_num result sigmoid_table;
  ret result_loc.

(** One turn of the loop labelled [nnet_fwd_outer]; the state is
    [result_loc]. *)
Definition nnet_fwd_outer (activations weights result : Farray.farray_t)
    (ls : list layer_t) (sigmoid_table : ptr) (l : Z) (result_loc : ptr)
  : M ptr :=
  do curr_layer <- of_option OutOfBounds (layer_at ls l);
  if decide (result_loc = Farray.d result)
  then run_layer (Farray.d result) (Farray.d weights) ls l
         (Farray.d activations) sigmoid_table
  else run_layer (Farray.d activations) (Farray.d weights) ls l
         (Farray.d result) sigmoid_table.

(** [nnet_fwd].  The layer array, which lives at [layers_loc], is updated
    in place; the model returns the network.  The three accelerator
    buffers allocated on entry and released on exit are the [globals] of
    the layer functions. *)
Definition nnet_fwd (layers_loc : ptr)
    (activations weights result : Farray.farray_t) (network : network_t)
    (sigmoid_table : ptr) : M network_t :=
  let result_loc := Farray.d activations in
  run (if PRINT_DATA_AND_WEIGHTS
       then do first <- of_option OutOfBounds (layer_at (layers network) 0);
            print_data_and_weights (Farray.d activations) (Farray.d weights) first
       else ret tt);
  do network <- set_dma_requirements network;
  do result_loc <- for_loop (Z.to_nat (depth network)) 0 result_loc
                     (nnet_fwd_outer activations weights result (layers network)
                        sigmoid_table);
  do ls <- assign_layer (layers network) (depth network - 1)
             (fun l => set_result_in_temp l
                         (bool_decide (result_loc = Farray.d result)));
  let bytes :=
    to_size_t (to_size_t (to_int (NUM_TEST_CASES * NUM_CLASSES)) * sizeof_float) in
  run (if decide (result_loc = Farray.d result)
       then emit (EvDmaStore (Farray.d result) (Farray.d result) bytes)
       else emit (EvDmaStore (Farray.d activations) (Farray.d activations) bytes));
  run emit (EvDmaStore layers_loc layers_loc
              (to_size_t (to_size_t (depth network) * sizeof_layer_t)));
  ret {| layers := ls; depth := depth network |}.

End ForwardPass.

(** ** The tile loop of the SMV pooling operator *)

Module SmvPoolingOp.

(** [invokeKernel(smv::kPoolingHw, ...)] on one pair of tiles: the kernel
    chosen by [opType], the two tiles and [ofmapStart].  The other
    arguments are the data, shape and padding of the two tiles and the
    pooling size and stride of the operator. *)
Inductive invocation : Type :=
  | InvokeKernel (max_pooling : bool) (inputTileIdx outputTileIdx ofmapStart : Z).

(** How a run of the loops ends: normally, on the [assert(false)] of the
    channel loop, or with the turns of the model used up. *)
Inductive ending : Type :=
  | Completed
  | TilingAssertion
  | OutOfFuel.

#[global] Instance invocation_eq_dec : EqDecision invocation.
Proof. solve_decision. Defined.
#[global] Instance ending_eq_dec : EqDecision ending.
Proof. solve_decision. Defined.

(** A [for] loop of [fuel] turns from [i]; a turn that does not complete
    ends the run. *)
Fixpoint tile_loop (body : Z -> list invocation * ending) (fuel : nat) (i : Z)
  : list invocation * ending :=
  match fuel with
  | O => ([], Completed)
  | S fuel' =>
      match body i with
      | (t, Completed) =>
          let '(t', e) := tile_loop body fuel' (i + 1) in (t ++ t', e)
      | (t, e) => (t, e)
      end
  end.

Section RunNHC.

(** The tile counts [inputs.getShape()[0]], [[1]], [[3]] and
    [outputs.getShape()[3]], the index functions [inputs.startIndex()] and
    [outputs.startIndex()], the channel count [getShape()[3]] of an input
    tile, and [opType == MaxPooling]. *)
Variable inputIfmapTiles inputRowTiles inputChanTiles outputChanTiles : Z.
Variable inputIdx outputIdx : Z -> Z -> Z -> Z -> Z.
Variable inputTileChannels : Z -> Z.
Variable maxPooling : bool.

(** The [while] loop over channel tiles, entered with [fuel] turns left.
    [iC < inputChanTiles], so [iC++] does not overflow. *)
Fixpoint channel_loop (fuel : nat) (N H iC oC ofmapOffset : Z)
  : list invocation * ending :=
  match fuel with
  | O => ([], OutOfFuel)
  | S fuel' =>
      if (iC <? inputChanTiles) && (oC <? outputChanTiles) then
        let inputTileIdx := inputIdx N H 0 iC in
        let outputTileIdx := outputIdx N H 0 oC in
        let ofmapStart := if iC =? oC then 0 else ofmapOffset in
        let call :=
          InvokeKernel maxPooling inputTileIdx outputTileIdx ofmapStart in
        let ofmapOffset := to_int (ofmapOffset + inputTileChannels inputTileIdx) in
        if inputChanTiles =? outputChanTiles then
          let '(t, e) := channel_loop fuel' N H (iC + 1) (oC + 1) ofmapOffset in
          (call :: t, e)
        else if outputChanTiles =? 1 then
          let '(t, e) := channel_loop fuel' N H (iC + 1) oC ofmapOffset in
          (call :: t, e)
        else ([call], TilingAssertion)
      else ([], Completed)
  end.

(** [runNHC]: the channel loop takes at most [inputChanTiles] turns and
    one more test. *)
Definition runNHC : list invocation * ending :=
  tile_loop
    (fun N =>
       tile_loop
         (fun H => channel_loop (S (Z.to_nat inputChanTiles)) N H 0 0 0)
         (Z.to_nat inputRowTiles) 0)
    (Z.to_nat inputIfmapTiles) 0.

(** [ofmapOffset] when input tile [c] of row tile [(N, H)] is reached: the
    channels of the input tiles before it. *)
Definition ofmap_offset (N H : Z) (c : nat) : Z :=
  foldl (fun acc i => to_int (acc + inputTileChannels (inputIdx N H 0 i))) 0
    (seqZ 0 (Z.of_nat c)).

(** The calls of row tile [(N, H)] when the loop runs through: one per
    input channel tile. *)
Definition channel_calls (N H : Z) : list invocation :=
  (fun c =>
     if inputChanTiles =? outputChanTiles
     then InvokeKernel maxPooling (inputIdx N H 0 c) (outputIdx N H 0 c) 0
     else InvokeKernel maxPooling (inputIdx N H 0 c) (outputIdx N H 0 0)
            (ofmap_offset N H (Z.to_nat c)))
  <$> seqZ 0 inputChanTiles.

End RunNHC.

End SmvPoolingOp.

(** ** More instances *)

(** The shape of [tiled_layer] with 18 channels: 9 iterations, whose
    partial results, 9 * 16384 elements, exceed [SPAD_SIZE]. *)
Definition long_layer : layer_t := example_conv 130 130 6 18 128 128 0 2 0.

(** A dispatcher whose layers leave their output in the buffer they are
    given for the result. *)
Definition example_dispatch (activations weights : ptr) (ls : list layer_t)
    (layer_num : Z) (result sigmoid_table : ptr) : M ptr :=
  ret result.

(** A forward pass over three host buffers, without the debugging print. *)
Definition example_nnet_fwd (network : network_t) : M network_t :=
  nnet_fwd 1 10 64 false (fun _ _ _ => ret tt) example_dispatch (mk_ptr 8 0)
    (Farray.mk_farray example_activations 4096)
    (Farray.mk_farray example_weights 4096)
    (Farray.mk_farray example_result 4096)
    network (mk_ptr 9 0).

(** ** Footprints as plain numbers

    The sizes the spec speaks of, in bytes: the values of the expressions
    of [convolution_divide_work] before they are stored in its 32-bit
    variables. *)

(** One channel of the unreduced output: [rows x (cols + pad)] floats. *)
Definition channel_footprint (l : layer_t) : Z :=
  rows (outputs l) * (cols (outputs l) + align_pad (outputs l)) * sizeof_float.

(** The unreduced output of one kernel: one such channel per input
    channel. *)
Definition output_footprint (l : layer_t) : Z :=
  rows (outputs l) * (cols (outputs l) + align_pad (outputs l))
  * height (inputs l) * sizeof_float.

(** The input of one image: [INPUT_BYTES(layers, lnum) / NUM_TEST_CASES]. *)
Definition input_footprint (NUM_TEST_CASES : Z)
    (INPUT_BYTES : list layer_t -> Z -> Z) (ls : list layer_t) (lnum : Z) : Z :=
  INPUT_BYTES ls lnum / NUM_TEST_CASES.

(** ** Instances beyond 32 bits, and a second forward pass *)

(** 1024 input channels and a 1024 x 1024 output: the unreduced output of
    one kernel takes [2 ^ 32] bytes, one of its channels [2 ^ 22]. *)
Definition wrapped_layer : layer_t := example_conv 1 1 0 1024 1024 1024 0 1 0.

(** One channel of 32768 x 32768 inputs, [2 ^ 32] bytes, and a single
    output. *)
Definition oversized_image : layer_t := example_conv 32768 32768 0 1 1 1 0 1 0.

(** 65536 input channels and a 128 x 128 output: the unreduced output of
    one kernel takes [2 ^ 32] bytes, one of its channels 65536. *)
Definition folded_layer : layer_t := example_conv 1 1 0 65536 128 128 0 1 0.

(** The accelerator buffers of a second forward pass, allocated anew. *)
Definition second_pass_globals : globals :=
  {| umem := mk_ptr 11 0; spad0 := mk_ptr 12 0; spad1 := mk_ptr 13 0 |}.

(** A call of [inner_product_layer] on the last layer of
    [example_network], with the scratchpads [g] and the static at
    [current_result_loc]. *)
Definition example_layer_call (g : globals) (current_result_loc : ptr)
  : ptr * M ptr :=
  inner_product_layer 1 (fun _ _ => 180) (fun _ _ => 0) g current_result_loc
    example_activations example_weights (layers example_network) 2
    example_result.

(** * Properties *)

(** ** The monad of events *)

Lemma bind_ret {A B} (a : A) (f : A -> M B) : bind (ret a) f = f a.
Proof. unfold bind, ret. destruct (f a) as [t r]. reflexivity. Qed.

Lemma trace_bind {A B} (m : M A) (f : A -> M B) :
  trace (bind m f) =
  trace m ++ match outcome m with inr a => trace (f a) | inl _ => [] end.
Proof.
  destruct m as [t [e|a]]; cbn; [rewrite app_nil_r; reflexivity|].
  destruct (f a) as [t' r]. reflexivity.
Qed.

Lemma outcome_bind {A B} (m : M A) (f : A -> M B) :
  outcome (bind m f) =
  match outcome m with inr a => outcome (f a) | inl e => inl e end.
Proof.
  destruct m as [t [e|a]]; cbn; [reflexivity|].
  destruct (f a) as [t' r]. reflexivity.
Qed.

Ltac in_list :=
  solve [repeat first [apply list_elem_of_here | apply list_elem_of_further]].

Ltac not_in_list H :=
  solve [repeat (apply elem_of_cons in H as [H | H]; [discriminate H|]);
         inversion H].

Lemma trace_then_ret {A B} (m : M A) (b : B) :
  trace (bind m (fun _ => ret b)) = trace m.
Proof. rewrite trace_bind. destruct (outcome m); apply app_nil_r. Qed.


(** ** Arithmetic of the machine integers *)

Lemma ceil_quotient_spec (a b : Z) :
  0 < b -> (ceil_quotient a b - 1) * b < a <= ceil_quotient a b * b.
Proof.
  intros Hb. unfold ceil_quotient.
  pose proof (Z.div_mod (- a) b ltac:(lia)) as Hdm.
  pose proof (Z.mod_pos_bound (- a) b Hb) as Hr.
  nia.
Qed.

Lemma ceil_quotient_unique (a b k : Z) :
  0 < b -> (k - 1) * b < a <= k * b -> ceil_quotient a b = k.
Proof.
  intros Hb Hk. pose proof (ceil_quotient_spec a b Hb). nia.
Qed.

Lemma to_unsigned_small (x : Z) : 0 <= x < 2 ^ 32 -> to_unsigned x = x.
Proof. intros H. unfold to_unsigned. apply Z.mod_small. exact H. Qed.

Lemma to_int_small (x : Z) : - 2 ^ 31 <= x < 2 ^ 31 -> to_int x = x.
Proof. intros H. unfold to_int. rewrite Z.mod_small; lia. Qed.

Lemma to_unsigned_to_int (x : Z) : to_unsigned (to_int x) = to_unsigned x.
Proof.
  unfold to_unsigned, to_int.
  rewrite Zminus_mod_idemp_l. f_equal. lia.
Qed.

Lemma to_unsigned_to_size_t (x : Z) : to_unsigned (to_size_t x) = to_unsigned x.
Proof.
  unfold to_unsigned, to_size_t.
  apply Z.mod_mod_divide. exists (2 ^ 32). reflexivity.
Qed.

Lemma to_unsigned_mul_l (x y : Z) :
  to_unsigned (to_unsigned x * y) = to_unsigned (x * y).
Proof. unfold to_unsigned. apply Z.mul_mod_idemp_l. lia. Qed.

Lemma to_unsigned_mul_r (x y : Z) :
  to_unsigned (x * to_unsigned y) = to_unsigned (x * y).
Proof. unfold to_unsigned. apply Z.mul_mod_idemp_r. lia. Qed.

Lemma to_unsigned_range (x : Z) : 0 <= to_unsigned x < 2 ^ 32.
Proof. unfold to_unsigned. apply Z.mod_pos_bound. lia. Qed.

(** ** Rounding in binary32 *)

Section F32Facts.
Import F32.

Lemma rne_le (n d z : Z) : 0 < d -> n <= z * d -> rne n d <= z.
Proof.
  intros Hd Hn. unfold rne.
  pose proof (Z.div_mod n d ltac:(lia)) as Hdm.
  pose proof (Z.mod_pos_bound n d Hd) as Hr.
  repeat case_match; try apply Z.ltb_lt in H; try apply Z.ltb_ge in H;
    try apply Z.ltb_lt in H0; try apply Z.ltb_ge in H0; nia.
Qed.

Lemma rne_ge (n d z : Z) : 0 < d -> (2 * z + 1) * d < 2 * n -> z + 1 <= rne n d.
Proof.
  intros Hd Hn. unfold rne.
  pose proof (Z.div_mod n d ltac:(lia)) as Hdm.
  pose proof (Z.mod_pos_bound n d Hd) as Hr.
  repeat case_match; try apply Z.ltb_lt in H; try apply Z.ltb_ge in H;
    try apply Z.ltb_lt in H0; try apply Z.ltb_ge in H0; nia.
Qed.

Lemma rne_exact (z d : Z) : 0 < d -> rne (z * d) d = z.
Proof.
  intros Hd. unfold rne.
  rewrite Z.div_mul, Z.mod_mul by lia.
  replace (2 * 0 <? d) with true; [reflexivity|]. symmetry. apply Z.ltb_lt. lia.
Qed.

Lemma exponent_normal (n d : Z) : 0 < n -> 0 < d -> normal_at n d (exponent n d).
Proof.
  intros Hn Hd. unfold exponent, prec.
  pose proof (Z.log2_spec n Hn) as [Hn1 Hn2].
  pose proof (Z.log2_spec d Hd) as [Hd1 Hd2].
  pose proof (Z.log2_nonneg n) as Hln. pose proof (Z.log2_nonneg d) as Hld.
  set (ln := Z.log2 n) in *. set (ld := Z.log2 d) in *.
  assert (H0 : normal_at n d (ln - ld - 24)).
  { unfold normal_at, scaled. destruct (0 <=? ln - ld - 24) eqn:He.
    - apply Z.leb_le in He. split; [apply Z.mul_pos_pos; lia|].
      replace (Z.succ ld) with (ld + 1) in Hd2 by lia.
      assert (2 ^ ln = 2 ^ 23 * 2 ^ (ld + 1) * 2 ^ (ln - ld - 24)) as Hpow.
      { rewrite <- !Z.pow_add_r by lia. f_equal. lia. }
      assert (0 < 2 ^ (ln - ld - 24)) by (apply Z.pow_pos_nonneg; lia).
      nia.
    - apply Z.leb_gt in He. split; [lia|].
      replace (Z.succ ld) with (ld + 1) in Hd2 by lia.
      assert (2 ^ ln * 2 ^ (- (ln - ld - 24)) = 2 ^ 23 * 2 ^ (ld + 1)) as Hpow.
      { rewrite <- !Z.pow_add_r by lia. f_equal. lia. }
      assert (0 < 2 ^ (- (ln - ld - 24))) by (apply Z.pow_pos_nonneg; lia).
      nia. }
  set (e0 := ln - ld - 24) in *.
  destruct (scaled n d e0) as [n0 d0] eqn:Hs.
  destruct (2 ^ 24 <=? n0 / d0) eqn:Hbig; [|exact H0].
  apply Z.leb_le in Hbig.
  unfold normal_at in H0. rewrite Hs in H0. destruct H0 as [Hd0 _].
  assert (Hn0 : 2 ^ 24 * d0 <= n0).
  { pose proof (Z.mul_div_le n0 d0 Hd0). nia. }
  unfold normal_at, scaled in *.
  destruct (0 <=? e0) eqn:He; [apply Z.leb_le in He | apply Z.leb_gt in He].
  - injection Hs as <- <-. replace (0 <=? e0 + 1) with true by (symmetry; apply Z.leb_le; lia).
    rewrite Z.pow_add_r by lia. change (2 ^ 1) with 2. split; nia.
  - injection Hs as <- <-.
    destruct (0 <=? e0 + 1) eqn:He1; [apply Z.leb_le in He1 | apply Z.leb_gt in He1].
    + assert (e0 = -1) by lia. subst e0. replace (ln - ld - 24) with (-1) in * by lia.
      change (2 ^ (0)) with 1. change (2 ^ (- -1)) with 2 in Hn0. 
      replace (-1 + 1) with 0 by lia. change (2 ^ 0) with 1. lia.
    + replace (- e0) with (- (e0 + 1) + 1) in Hn0 by lia.
      rewrite Z.pow_add_r in Hn0 by lia. change (2 ^ 1) with 2 in Hn0. split; nia.
Qed.

Lemma ceil_as_quotient (x : f32) : ceil x = ceil_quotient x.1 x.2.
Proof. reflexivity. Qed.

Lemma round_ceil (N D a b : Z) :
  0 < N -> 0 < D -> 0 < a < 2 ^ 24 -> 0 < b -> N * b = a * D ->
  ceil (round N D) = ceil_quotient a b.
Proof.
  intros HN HD Ha Hb Heq. unfold round.
  replace (N =? 0) with false by (symmetry; apply Z.eqb_neq; lia).
  pose proof (exponent_normal N D HN HD) as Hnorm.
  set (e := exponent N D) in *.
  unfold normal_at in Hnorm.
  destruct (scaled N D e) as [n1 d1] eqn:Hs.
  destruct Hnorm as [Hd1 Hn1].
  unfold scaled in Hs.
  pose proof (ceil_quotient_spec a b Hb) as Hk.
  set (k := ceil_quotient a b) in *. clearbody k e.
  destruct (0 <=? e) eqn:He; [apply Z.leb_le in He | apply Z.leb_gt in He];
    injection Hs as <- <-; rewrite ceil_as_quotient; cbn [fst snd].
  - assert (0 < 2 ^ e) as Hpe by (apply Z.pow_pos_nonneg; lia).
    change (2 ^ 23) with 8388608 in *. change (2 ^ 24) with 16777216 in *.
    set (p := 2 ^ e) in *. clearbody p.
    assert (p * b < 2) as Hsmall.
    { assert (8388608 * (D * p) * b <= N * b)
        by (apply Z.mul_le_mono_nonneg_r; lia).
      assert (a * D < 16777216 * D) by (apply Z.mul_lt_mono_pos_r; lia).
      assert (8388608 * (p * b) * D < 16777216 * D) as H1 by lia.
      apply Z.mul_lt_mono_pos_r in H1; lia. }
    assert (p = 1 /\ b = 1) as [He1 Hb1] by nia.
    subst p b.
    replace N with (a * (D * 1)) by lia.
    rewrite rne_exact by lia.
    apply ceil_quotient_unique; lia.
  - assert (0 < 2 ^ (- e)) as HpE by (apply Z.pow_pos_nonneg; lia).
    change (2 ^ 23) with 8388608 in *. change (2 ^ 24) with 16777216 in *.
    set (E := 2 ^ (- e)) in *. clearbody E.
    assert (b < 2 * E) as Hdense.
    { assert (8388608 * D * b <= N * E * b)
        by (apply Z.mul_le_mono_nonneg_r; lia).
      assert (a * (D * E) < 16777216 * (D * E))
        by (apply Z.mul_lt_mono_pos_r; [apply Z.mul_pos_pos|]; lia).
      assert (N * E * b = a * (D * E)) as H2
        by (rewrite Z.mul_assoc, <- Heq; ring).
      assert (8388608 * b * D < 16777216 * E * D) as H1 by lia.
      apply Z.mul_lt_mono_pos_r in H1; lia. }
    apply ceil_quotient_unique; [lia|].
    split.
    + assert ((k - 1) * E + 1 <= rne (N * E) D); [|lia].
      assert (N * E * b = a * (D * E)) as H2
        by (rewrite Z.mul_assoc, <- Heq; ring).
      apply rne_ge; [lia|].
      apply (Z.mul_lt_mono_pos_r b); [lia|].
      replace (2 * (N * E) * b) with (2 * E * a * D) by lia.
      assert ((2 * ((k - 1) * E) + 1) * b < 2 * E * a) as H3.
      { assert (2 * E * ((k - 1) * b + 1) <= 2 * E * a)
          by (apply Z.mul_le_mono_nonneg_l; lia).
        lia. }
      apply (Z.mul_lt_mono_pos_r D) in H3; lia.
    + assert (N * E * b = a * (D * E)) as H2
        by (rewrite Z.mul_assoc, <- Heq; ring).
      apply rne_le; [lia|].
      apply (Z.mul_le_mono_pos_r _ _ b); [lia|].
      assert (a * (D * E) <= k * b * (D * E))
        by (apply Z.mul_le_mono_nonneg_r; [apply Z.mul_nonneg_nonneg|]; lia).
      lia.
Qed.

Lemma of_unsigned_exact (a : Z) :
  0 < a < 2 ^ 24 ->
  let x := of_unsigned a in 0 < x.2 /\ x.1 = a * x.2.
Proof.
  intros Ha. unfold of_unsigned, round.
  replace (a =? 0) with false by (symmetry; apply Z.eqb_neq; lia).
  pose proof (exponent_normal a 1 ltac:(lia) ltac:(lia)) as Hnorm.
  set (e := exponent a 1) in *. clearbody e.
  unfold normal_at in Hnorm.
  destruct (scaled a 1 e) as [n1 d1] eqn:Hs.
  destruct Hnorm as [Hd1 Hn1]. unfold scaled in Hs.
  destruct (0 <=? e) eqn:He; [apply Z.leb_le in He | apply Z.leb_gt in He];
    injection Hs as <- <-; cbn [fst snd].
  - assert (0 < 2 ^ e) as Hpe by (apply Z.pow_pos_nonneg; lia).
    assert (2 ^ e = 1) as He1 by nia.
    rewrite He1. replace a with (a * (1 * 1)) at 1 by lia.
    rewrite rne_exact by lia. lia.
  - assert (0 < 2 ^ (- e)) as HpE by (apply Z.pow_pos_nonneg; lia).
    split; [lia|].
    replace (a * 2 ^ (- e)) with (a * 2 ^ (- e) * 1) at 1 by lia.
    rewrite rne_exact; lia.
Qed.

(** On operands below [2 ^ 24] the binary32 quotient, rounded up, is the
    exact integer ceiling. *)
Lemma ceil_div_exact (a b : Z) :
  0 < a < 2 ^ 24 -> 0 < b < 2 ^ 24 ->
  ceil (div (of_unsigned a) (of_unsigned b)) = ceil_quotient a b.
Proof.
  intros Ha Hb.
  destruct (of_unsigned_exact a Ha) as [Ha2 Ha1].
  destruct (of_unsigned_exact b Hb) as [Hb2 Hb1].
  unfold div. apply round_ceil; [| | lia | lia |].
  - rewrite Ha1. apply Z.mul_pos_pos; [apply Z.mul_pos_pos|]; lia.
  - rewrite Hb1. apply Z.mul_pos_pos; [|apply Z.mul_pos_pos]; lia.
  - rewrite Ha1, Hb1. ring.
Qed.
End F32Facts.


(** ** Plans of the work divider *)

Section WorkDividerFacts.

Variable NUM_TEST_CASES : Z.
Variable INPUT_BYTES : list layer_t -> Z -> Z.
Variable DATA_ALIGNMENT : Z.
Variable calc_padding : Z -> Z -> Z.

Local Abbreviation divide_work :=
  (convolution_divide_work NUM_TEST_CASES INPUT_BYTES DATA_ALIGNMENT calc_padding).
Local Abbreviation total_input := (total_input_bytes NUM_TEST_CASES INPUT_BYTES).
Local Abbreviation loop := (divide_loop DATA_ALIGNMENT calc_padding).

Lemma output_2d_size_mod (l : layer_t) :
  to_unsigned (output_2d_size l) =
  to_unsigned (rows (outputs l) * (cols (outputs l) + align_pad (outputs l))).
Proof.
  unfold output_2d_size.
  rewrite to_unsigned_to_int, <- to_unsigned_mul_r, to_unsigned_to_int.
  apply to_unsigned_mul_r.
Qed.

Lemma output_channel_size_mod (l : layer_t) :
  output_channel_size l =
  to_unsigned (rows (outputs l) * (cols (outputs l) + align_pad (outputs l))
               * sizeof_float).
Proof.
  unfold output_channel_size.
  rewrite <- to_unsigned_mul_l, to_unsigned_to_size_t, output_2d_size_mod.
  apply to_unsigned_mul_l.
Qed.

Lemma total_output_bytes_mod (l : layer_t) :
  total_output_bytes l =
  to_unsigned (rows (outputs l) * (cols (outputs l) + align_pad (outputs l))
               * height (inputs l) * sizeof_float).
Proof.
  unfold total_output_bytes.
  rewrite <- to_unsigned_mul_l, to_unsigned_to_size_t, to_unsigned_to_int.
  rewrite <- (to_unsigned_mul_l (output_2d_size l)), output_2d_size_mod.
  rewrite (to_unsigned_mul_l _ (height (inputs l))).
  apply to_unsigned_mul_l.
Qed.

(** Without wrap-around the two footprints are the plain products. *)
Lemma total_output_bytes_exact (l : layer_t) :
  0 <= rows (outputs l) * (cols (outputs l) + align_pad (outputs l))
       * height (inputs l) * sizeof_float < 2 ^ 32 ->
  total_output_bytes l =
  rows (outputs l) * (cols (outputs l) + align_pad (outputs l))
  * height (inputs l) * sizeof_float.
Proof. intros H. rewrite total_output_bytes_mod. apply to_unsigned_small, H. Qed.

Lemma total_output_bytes_channels (l : layer_t) :
  total_output_bytes l = to_unsigned (output_channel_size l * input_channels l).
Proof.
  rewrite total_output_bytes_mod, output_channel_size_mod. unfold input_channels.
  rewrite to_unsigned_mul_l, to_unsigned_mul_r. f_equal. ring.
Qed.

(** Past the single-iteration test the divisor of [max_channels_per_iter]
    is not zero and there is at least one channel. *)
Lemma tiling_operands (l : layer_t) :
  SPAD_SIZE < total_output_bytes l ->
  0 < output_channel_size l /\ 0 < input_channels l.
Proof.
  intros H. rewrite total_output_bytes_channels in H.
  pose proof (to_unsigned_range (rows (outputs l) * (cols (outputs l) + align_pad (outputs l)) * sizeof_float)) as Ho.
  rewrite <- output_channel_size_mod in Ho.
  pose proof (to_unsigned_range (height (inputs l))) as Hc.
  fold (input_channels l) in Hc.
  unfold SPAD_SIZE in H.
  destruct (Z.eq_dec (output_channel_size l) 0) as [E|E].
  { rewrite E, Z.mul_0_l in H. change (to_unsigned 0) with 0 in H. lia. }
  destruct (Z.eq_dec (input_channels l) 0) as [E'|E'].
  { rewrite E', Z.mul_0_r in H. change (to_unsigned 0) with 0 in H. lia. }
  lia.
Qed.

Lemma max_channels_bound (l : layer_t) :
  0 < output_channel_size l -> 0 <= max_channels_per_iter l <= SPAD_SIZE.
Proof.
  intros H. unfold max_channels_per_iter. split.
  - apply Z.div_pos; [unfold SPAD_SIZE|]; lia.
  - apply Z.div_le_upper_bound; [lia|]. unfold SPAD_SIZE. nia.
Qed.

Lemma divide_loop_length (l : layer_t) (n : nat) (t : Z) :
  length (loop l n t) = n.
Proof. revert t. induction n as [|n IH]; intros t; simpl; [|rewrite IH]; reflexivity. Qed.

Lemma divide_loop_shape (l : layer_t) (n : nat) (t : Z) (d : dims_t) :
  d ∈ loop l n t ->
  rows d = rows (inputs l) /\ cols d = cols (inputs l) /\
  align_pad d = calc_padding (cols (inputs l)) DATA_ALIGNMENT.
Proof.
  revert t. induction n as [|n IH]; intros t; simpl.
  - intros H. inversion H.
  - intros H. apply elem_of_cons in H as [-> | H]; [auto | eauto].
Qed.

(** Greedy fixed-size chunks: all but the last one are full. *)
Lemma divide_loop_heights (l : layer_t) (m : Z) (n : nat) (t : Z) :
  m = max_channels_per_iter l ->
  2 <= m < 2 ^ 31 ->
  Z.of_nat n * m < t <= (Z.of_nat n + 1) * m ->
  t < 2 ^ 32 ->
  height <$> loop l (S n) t = replicate n m ++ [t - Z.of_nat n * m].
Proof.
  intros Hdef Hm. revert t. induction n as [|n IH]; intros t Ht Ht32.
  - simpl. rewrite <- Hdef. unfold min.
    destruct (t <? m) eqn:E; [apply Z.ltb_lt in E | apply Z.ltb_ge in E].
    + rewrite to_int_small by lia. do 2 f_equal. lia.
    + rewrite to_int_small by lia. do 2 f_equal. lia.
  - change (loop l (S (S n)) t) with
      ({| rows := rows (inputs l); cols := cols (inputs l);
          height := to_int (min t (max_channels_per_iter l));
          align_pad := calc_padding (cols (inputs l)) DATA_ALIGNMENT |}
       :: loop l (S n) (to_unsigned (t - max_channels_per_iter l))).
    rewrite <- Hdef, fmap_cons. cbn [height].
    assert (m < t) by nia.
    unfold min. replace (t <? m) with false by (symmetry; apply Z.ltb_ge; lia).
    rewrite to_int_small by lia.
    rewrite to_unsigned_small by lia.
    rewrite IH by nia.
    cbn [replicate app]. do 3 f_equal. lia.
Qed.

Lemma total_channels_app (p q : list dims_t) :
  total_channels (p ++ q) = total_channels p + total_channels q.
Proof. induction p as [|d p IH]; simpl; [|rewrite IH]; lia. Qed.

Lemma total_channels_heights (p : list dims_t) :
  total_channels p = foldr Z.add 0 (height <$> p).
Proof. induction p as [|d p IH]; simpl; [|rewrite IH]; reflexivity. Qed.

Lemma sum_replicate (n : nat) (m a : Z) :
  foldr Z.add a (replicate n m) = Z.of_nat n * m + a.
Proof. induction n as [|n IH]; [cbn; lia|]. cbn [replicate foldr]. rewrite IH. lia. Qed.

Lemma divide_work_unfold (ls : list layer_t) (lnum : Z) (l : layer_t) (tib : Z) :
  layer_at ls lnum = Some l ->
  total_input ls lnum = Some tib ->
  divide_work ls lnum =
  if UMEM_SIZE <? tib then ([EvPrintf umem_message []], inl UnsupportedInputSize)
  else if total_output_bytes l <=? SPAD_SIZE then
    ([], inr {| iteration :=
                  [ {| rows := rows (inputs l);
                       cols := cols (inputs l);
                       height := height (inputs l);
                       align_pad := calc_padding (cols (inputs l)) DATA_ALIGNMENT |} ];
                num_iterations := 1 |})
  else if output_channel_size l =? 0 then ([], inl DivisionByZero)
  else if 2 <=? max_channels_per_iter l then
    ([], inr {| iteration :=
                  loop l (Z.to_nat (tiled_num_iterations l)) (input_channels l);
                num_iterations := tiled_num_iterations l |})
  else ([], inl TiledInputUnsupported).
Proof.
  intros Hl Hin. unfold convolution_divide_work. rewrite Hl, Hin.
  cbn [of_option ret bind app].
  destruct (UMEM_SIZE <? tib); [reflexivity|].
  cbn [ret bind app].
  destruct (total_output_bytes l <=? SPAD_SIZE); [reflexivity|].
  destruct (output_channel_size l =? 0); [reflexivity|].
  destruct (2 <=? max_channels_per_iter l); reflexivity.
Qed.

(** C6. A layer whose single-image input fits the UMEM and whose
    unreduced output for one kernel, [total_output_bytes], is at most
    [SPAD_SIZE] gets a plan of exactly one iteration; it covers all the
    input channels and has the rows and columns of the layer's input. *)
Theorem divide_work_single_iteration
    (ls : list layer_t) (lnum : Z) (l : layer_t) (tib : Z) :
  layer_at ls lnum = Some l ->
  total_input ls lnum = Some tib ->
  tib <= UMEM_SIZE ->
  total_output_bytes l <= SPAD_SIZE ->
  exists d,
    divide_work ls lnum = ([], inr {| iteration := [d]; num_iterations := 1 |}) /\
    height d = height (inputs l) /\
    rows d = rows (inputs l) /\
    cols d = cols (inputs l).
Proof.
  intros Hl Hin Hfit Hout.
  rewrite (divide_work_unfold ls lnum l tib Hl Hin).
  replace (UMEM_SIZE <? tib) with false by (symmetry; apply Z.ltb_ge; lia).
  replace (total_output_bytes l <=? SPAD_SIZE) with true
    by (symmetry; apply Z.leb_le; lia).
  eexists. split; [reflexivity|]. auto.
Qed.

(** On the 32-bit sizes the code computes: the work divider fails
    exactly when [total_input_bytes] exceeds the UMEM or
    [total_output_bytes] exceeds one scratchpad while fewer than two
    channels fit; the failure is then a configuration error, the input
    test comes first, and a run that returns a plan has produced no
    event. *)
Lemma divide_work_failure_cases
    (ls : list layer_t) (lnum : Z) (l : layer_t) (tib : Z) :
  layer_at ls lnum = Some l ->
  total_input ls lnum = Some tib ->
  ((exists e, outcome (divide_work ls lnum) = inl e /\ config_error e) <->
   (UMEM_SIZE < tib \/
    (SPAD_SIZE < total_output_bytes l /\ max_channels_per_iter l < 2))) /\
  (UMEM_SIZE < tib ->
   outcome (divide_work ls lnum) = inl UnsupportedInputSize) /\
  (~ (UMEM_SIZE < tib \/
      (SPAD_SIZE < total_output_bytes l /\ max_channels_per_iter l < 2)) ->
   exists cfg, divide_work ls lnum = ([], inr cfg)).
Proof.
  intros Hl Hin.
  rewrite (divide_work_unfold ls lnum l tib Hl Hin).
  destruct (UMEM_SIZE <? tib) eqn:Hu;
    [apply Z.ltb_lt in Hu | apply Z.ltb_ge in Hu].
  { split; [split|split].
    - intros _. left. exact Hu.
    - intros _. exists UnsupportedInputSize. split; [reflexivity | left; reflexivity].
    - reflexivity.
    - intros Hn. exfalso. apply Hn. left. exact Hu. }
  destruct (total_output_bytes l <=? SPAD_SIZE) eqn:Ho;
    [apply Z.leb_le in Ho | apply Z.leb_gt in Ho].
  { split; [split|split].
    - intros (e & He & _). discriminate He.
    - intros [? | [? _]]; lia.
    - lia.
    - intros _. eexists. reflexivity. }
  destruct (tiling_operands l Ho) as [Hocs _].
  replace (output_channel_size l =? 0) with false
    by (symmetry; apply Z.eqb_neq; lia).
  destruct (2 <=? max_channels_per_iter l) eqn:Hm;
    [apply Z.leb_le in Hm | apply Z.leb_gt in Hm].
  - split; [split|split].
    + intros (e & He & _). discriminate He.
    + intros [? | [_ ?]]; lia.
    + lia.
    + intros _. eexists. reflexivity.
  - split; [split|split].
    + intros _. right. split; lia.
    + intros _. exists TiledInputUnsupported. split; [reflexivity | right; reflexivity].
    + lia.
    + intros Hn. exfalso. apply Hn. right. split; lia.
Qed.

Lemma tiled_num_iterations_exact (l : layer_t) :
  SPAD_SIZE < total_output_bytes l ->
  2 <= max_channels_per_iter l ->
  0 <= height (inputs l) < 2 ^ 24 ->
  input_channels l = height (inputs l) /\
  0 < height (inputs l) /\
  tiled_num_iterations l =
  ceil_quotient (height (inputs l)) (max_channels_per_iter l).
Proof.
  intros Ho Hm Hc.
  destruct (tiling_operands l Ho) as [Hocs Hic].
  pose proof (max_channels_bound l Hocs) as Hmb. unfold SPAD_SIZE in Hmb.
  assert (input_channels l = height (inputs l)) as Hin
    by (apply to_unsigned_small; lia).
  rewrite Hin in Hic. split; [exact Hin|]. split; [exact Hic|].
  unfold tiled_num_iterations. rewrite Hin.
  rewrite ceil_div_exact by lia.
  pose proof (ceil_quotient_spec (height (inputs l)) (max_channels_per_iter l)
                ltac:(lia)) as Hk.
  apply to_unsigned_small. nia.
Qed.

(** On the 32-bit sizes the code computes: when [total_input_bytes] fits
    the UMEM, [total_output_bytes] exceeds one scratchpad, at least two
    channels fit and there are fewer than [2 ^ 24] input channels, the
    plan has [ceil (channels / max_channels_per_iter)] iterations; their
    channel counts sum to the layer's input channel count, each is at
    most [max_channels_per_iter], and each but the last equals it. *)
Lemma tiled_plan_of_sizes
    (ls : list layer_t) (lnum : Z) (l : layer_t) (tib : Z) :
  layer_at ls lnum = Some l ->
  total_input ls lnum = Some tib ->
  tib <= UMEM_SIZE ->
  SPAD_SIZE < total_output_bytes l ->
  2 <= max_channels_per_iter l ->
  0 <= height (inputs l) < 2 ^ 24 ->
  exists cfg,
    divide_work ls lnum = ([], inr cfg) /\
    num_iterations cfg =
      ceil_quotient (height (inputs l)) (max_channels_per_iter l) /\
    Z.of_nat (length (iteration cfg)) = num_iterations cfg /\
    total_channels (iteration cfg) = height (inputs l) /\
    (forall i d, iteration cfg !! i = Some d ->
                 0 < height d <= max_channels_per_iter l) /\
    (forall i d, iteration cfg !! i = Some d ->
                 (S i < length (iteration cfg))%nat ->
                 height d = max_channels_per_iter l).
Proof.
  intros Hl Hin Hfit Ho Hm Hc.
  rewrite (divide_work_unfold ls lnum l tib Hl Hin).
  destruct (tiling_operands l Ho) as [Hocs _].
  pose proof (max_channels_bound l Hocs) as Hmb. unfold SPAD_SIZE in Hmb.
  destruct (tiled_num_iterations_exact l Ho Hm Hc) as (Hic & Hpos & Hn).
  replace (UMEM_SIZE <? tib) with false by (symmetry; apply Z.ltb_ge; lia).
  replace (total_output_bytes l <=? SPAD_SIZE) with false
    by (symmetry; apply Z.leb_gt; lia).
  replace (output_channel_size l =? 0) with false
    by (symmetry; apply Z.eqb_neq; lia).
  replace (2 <=? max_channels_per_iter l) with true
    by (symmetry; apply Z.leb_le; lia).
  eexists. split; [reflexivity|]. cbn [iteration num_iterations].
  rewrite Hn, Hic.
  pose proof (ceil_quotient_spec (height (inputs l)) (max_channels_per_iter l)
                ltac:(lia)) as Hk.
  set (m := max_channels_per_iter l) in *.
  set (c := height (inputs l)) in *.
  set (k := ceil_quotient c m) in *.
  assert (1 <= k) as Hk1 by nia.
  destruct (Z.to_nat k) as [|n] eqn:Hnat; [lia|].
  assert (k = Z.of_nat n + 1) as Hkn by lia.
  pose proof (divide_loop_heights l m n c eq_refl ltac:(lia)
                ltac:(rewrite Hkn in Hk; lia) ltac:(lia)) as Hh.
  split; [reflexivity|].
  split; [rewrite divide_loop_length; lia|].
  split.
  { rewrite total_channels_heights, Hh, foldr_app. cbn [foldr].
    rewrite sum_replicate. lia. }
  split.
  - intros i d Hd.
    assert ((height <$> loop l (S n) c) !! i = Some (height d)) as Hi
      by (rewrite list_lookup_fmap, Hd; reflexivity).
    rewrite Hh in Hi. apply lookup_app_Some in Hi as [Hi | [_ Hi]].
    + apply lookup_replicate in Hi as [-> _]. lia.
    + apply list_lookup_singleton_Some in Hi as [_ <-]. nia.
  - intros i d Hd Hlast. rewrite divide_loop_length in Hlast.
    assert ((height <$> loop l (S n) c) !! i = Some (height d)) as Hi
      by (rewrite list_lookup_fmap, Hd; reflexivity).
    rewrite Hh, lookup_app_l in Hi by (rewrite length_replicate; lia).
    apply lookup_replicate in Hi as [-> _]. reflexivity.
Qed.

(** The failures of the work divider on a layer of the array. *)
Lemma divide_work_failure_kinds (ls : list layer_t) (lnum : Z) (l : layer_t)
    (e : failure) :
  layer_at ls lnum = Some l ->
  outcome (divide_work ls lnum) = inl e ->
  config_error e \/ (e = DivisionByZero /\ to_size_t NUM_TEST_CASES = 0).
Proof.
  intros Hl He.
  destruct (total_input ls lnum) as [tib|] eqn:Hin.
  - rewrite (divide_work_unfold ls lnum l tib Hl Hin) in He.
    destruct (UMEM_SIZE <? tib);
      [injection He as <-; left; left; reflexivity|].
    destruct (total_output_bytes l <=? SPAD_SIZE) eqn:Ho;
      [discriminate He | apply Z.leb_gt in Ho].
    destruct (tiling_operands l Ho) as [Hocs _].
    replace (output_channel_size l =? 0) with false in He
      by (symmetry; apply Z.eqb_neq; lia).
    destruct (2 <=? max_channels_per_iter l);
      [discriminate He | injection He as <-; left; right; reflexivity].
  - unfold convolution_divide_work in He. rewrite Hl, Hin in He.
    cbn in He. injection He as <-. right. split; [reflexivity|].
    unfold total_input_bytes in Hin.
    destruct (to_size_t NUM_TEST_CASES =? 0) eqn:E; [|discriminate Hin].
    apply Z.eqb_eq, E.
Qed.

(** *** From footprints to the 32-bit sizes *)

Local Abbreviation footprint_in := (input_footprint NUM_TEST_CASES INPUT_BYTES).

(** Without wrap-around the 32-bit input size is the footprint. *)
Lemma total_input_bytes_exact (ls : list layer_t) (lnum : Z) :
  0 < NUM_TEST_CASES < 2 ^ 31 ->
  0 <= INPUT_BYTES ls lnum < 2 ^ 64 ->
  footprint_in ls lnum < 2 ^ 32 ->
  total_input ls lnum = Some (footprint_in ls lnum).
Proof.
  intros Hn Hb Hf. unfold total_input_bytes, input_footprint in *.
  unfold to_size_t. rewrite (Z.mod_small NUM_TEST_CASES) by lia.
  rewrite (Z.mod_small (INPUT_BYTES ls lnum)) by lia.
  replace (NUM_TEST_CASES =? 0) with false by (symmetry; apply Z.eqb_neq; lia).
  f_equal. apply to_unsigned_small. split; [|exact Hf].
  apply Z.div_pos; lia.
Qed.

Lemma total_output_bytes_footprint (l : layer_t) :
  0 <= output_footprint l < 2 ^ 32 ->
  total_output_bytes l = output_footprint l.
Proof. apply total_output_bytes_exact. Qed.

Lemma output_footprint_channels (l : layer_t) :
  output_footprint l = channel_footprint l * height (inputs l).
Proof. unfold output_footprint, channel_footprint. ring. Qed.

(** A channel that is part of a positive output without wrap-around does
    not wrap either. *)
Lemma output_channel_size_footprint (l : layer_t) :
  0 <= height (inputs l) ->
  0 < output_footprint l < 2 ^ 32 ->
  0 < channel_footprint l /\ 0 < height (inputs l) /\
  output_channel_size l = channel_footprint l.
Proof.
  intros Hh Ho. rewrite output_footprint_channels in Ho.
  assert (0 < height (inputs l)) as Hh'
    by (destruct (Z.eq_dec (height (inputs l)) 0) as [E|];
        [rewrite E, Z.mul_0_r in Ho; lia | lia]).
  assert (0 < channel_footprint l) as Hc by nia.
  split; [exact Hc|]. split; [exact Hh'|].
  rewrite output_channel_size_mod. fold (channel_footprint l).
  apply to_unsigned_small. nia.
Qed.

(** C3, amended. For a positive batch size and a layer with a channel
    count that is not negative, whose single-image input footprint and
    unreduced-output footprint are below [2 ^ 32] bytes: the work divider
    fails exactly when (a) the input footprint exceeds the UMEM, or (b)
    the unreduced output of one kernel exceeds one scratchpad and
    [floor (SPAD_SIZE / channel footprint)] is below 2.  Every failure is
    then a configuration error, the input test comes first, and in every
    other case a plan is returned and no event has been produced. *)
Theorem divide_work_failure_iff
    (ls : list layer_t) (lnum : Z) (l : layer_t) :
  layer_at ls lnum = Some l ->
  0 < NUM_TEST_CASES < 2 ^ 31 ->
  0 <= INPUT_BYTES ls lnum < 2 ^ 64 ->
  footprint_in ls lnum < 2 ^ 32 ->
  0 <= height (inputs l) ->
  0 <= output_footprint l < 2 ^ 32 ->
  ((exists e, outcome (divide_work ls lnum) = inl e) <->
   (UMEM_SIZE < footprint_in ls lnum \/
    (SPAD_SIZE < output_footprint l /\ SPAD_SIZE / channel_footprint l < 2))) /\
  (forall e, outcome (divide_work ls lnum) = inl e -> config_error e) /\
  (UMEM_SIZE < footprint_in ls lnum ->
   outcome (divide_work ls lnum) = inl UnsupportedInputSize) /\
  (~ (UMEM_SIZE < footprint_in ls lnum \/
      (SPAD_SIZE < output_footprint l /\ SPAD_SIZE / channel_footprint l < 2)) ->
   exists cfg, divide_work ls lnum = ([], inr cfg)).
Proof.
  intros Hl Hn Hb Hin Hh Hout.
  pose proof (total_input_bytes_exact ls lnum Hn Hb Hin) as Htib.
  pose proof (total_output_bytes_footprint l Hout) as Htob.
  assert (Hmax : SPAD_SIZE < output_footprint l ->
                 max_channels_per_iter l = SPAD_SIZE / channel_footprint l).
  { intros Hbig. unfold SPAD_SIZE in Hbig.
    destruct (output_channel_size_footprint l Hh ltac:(lia)) as (_ & _ & Hocs).
    unfold max_channels_per_iter. rewrite Hocs. reflexivity. }
  destruct (divide_work_failure_cases ls lnum l (footprint_in ls lnum) Hl Htib)
    as (Hiff & Hfirst & Hplan).
  rewrite Htob in Hiff, Hplan.
  assert (Hcond :
    (UMEM_SIZE < footprint_in ls lnum \/
     (SPAD_SIZE < output_footprint l /\ max_channels_per_iter l < 2)) <->
    (UMEM_SIZE < footprint_in ls lnum \/
     (SPAD_SIZE < output_footprint l /\ SPAD_SIZE / channel_footprint l < 2))).
  { split; (intros [Ha | [Hb1 Hb2]]; [left; exact Ha | right]);
      (split; [exact Hb1|]); rewrite (Hmax Hb1) in *; exact Hb2. }
  assert (Hany : forall e, outcome (divide_work ls lnum) = inl e -> config_error e).
  { intros e He.
    destruct (divide_work_failure_kinds ls lnum l e Hl He) as [Hce | [_ Hzero]];
      [exact Hce|].
    unfold to_size_t in Hzero. rewrite Z.mod_small in Hzero by lia. lia. }
  split; [|split; [exact Hany|split; [exact Hfirst|]]].
  - rewrite <- Hcond, <- Hiff. split.
    + intros (e & He). exists e. split; [exact He | apply Hany, He].
    + intros (e & He & _). exists e. exact He.
  - intros Hno. apply Hplan. rewrite Hcond. exact Hno.
Qed.

Lemma quotient_at_least_two (s : Z) : 2 <= SPAD_SIZE / s -> 0 < s <= 65536.
Proof.
  intros H. unfold SPAD_SIZE in H.
  destruct (Z_lt_le_dec 0 s) as [Hpos | Hneg].
  - split; [exact Hpos|].
    destruct (Z_le_gt_dec s 65536) as [|Hbig]; [assumption|].
    assert (131072 / s < 2) by (apply Z.div_lt_upper_bound; lia). lia.
  - destruct (Z.eq_dec s 0) as [-> | Hne]; [rewrite Z.div_0_r in H; lia|].
    assert (131072 / s < 0)
      by (rewrite <- Z.div_opp_opp by lia; apply Z.div_lt_upper_bound; lia).
    lia.
Qed.

(** C1, amended. For a positive batch size and a layer whose single-image
    input footprint is within the UMEM, whose unreduced output for one
    kernel exceeds one scratchpad and is below [2 ^ 32] bytes, for which
    [floor (SPAD_SIZE / channel footprint)] is at least 2, and which has
    fewer than [2 ^ 24] input channels: [max_channels_per_iter] is that
    quotient, and the plan has [ceil (channels / max_channels_per_iter)]
    iterations; their channel counts sum to the layer's input channel
    count, each is at most [max_channels_per_iter], and each but the last
    equals it. *)
Theorem divide_work_tiled_plan
    (ls : list layer_t) (lnum : Z) (l : layer_t) :
  layer_at ls lnum = Some l ->
  0 < NUM_TEST_CASES < 2 ^ 31 ->
  0 <= INPUT_BYTES ls lnum < 2 ^ 64 ->
  footprint_in ls lnum <= UMEM_SIZE ->
  SPAD_SIZE < output_footprint l < 2 ^ 32 ->
  2 <= SPAD_SIZE / channel_footprint l ->
  0 <= height (inputs l) < 2 ^ 24 ->
  max_channels_per_iter l = SPAD_SIZE / channel_footprint l /\
  exists cfg,
    divide_work ls lnum = ([], inr cfg) /\
    num_iterations cfg =
      ceil_quotient (height (inputs l)) (SPAD_SIZE / channel_footprint l) /\
    Z.of_nat (length (iteration cfg)) = num_iterations cfg /\
    total_channels (iteration cfg) = height (inputs l) /\
    (forall i d, iteration cfg !! i = Some d ->
                 0 < height d <= SPAD_SIZE / channel_footprint l) /\
    (forall i d, iteration cfg !! i = Some d ->
                 (S i < length (iteration cfg))%nat ->
                 height d = SPAD_SIZE / channel_footprint l).
Proof.
  intros Hl Hn Hb Hin Hout Hm Hc.
  assert (UMEM_SIZE < 2 ^ 32) as Hu by (unfold UMEM_SIZE; lia).
  pose proof (total_input_bytes_exact ls lnum Hn Hb ltac:(lia)) as Htib.
  assert (SPAD_SIZE = 131072) as Hs by reflexivity.
  pose proof (total_output_bytes_footprint l ltac:(lia)) as Htob.
  destruct (output_channel_size_footprint l ltac:(lia) ltac:(lia))
    as (_ & _ & Hocs).
  assert (max_channels_per_iter l = SPAD_SIZE / channel_footprint l) as Hmax
    by (unfold max_channels_per_iter; rewrite Hocs; reflexivity).
  split; [exact Hmax|]. rewrite <- Hmax.
  apply (tiled_plan_of_sizes ls lnum l (footprint_in ls lnum)); try assumption.
  - rewrite Htob. lia.
  - rewrite Hmax. exact Hm.
Qed.

End WorkDividerFacts.


(** ** Flags set by the DMA pass *)

Lemma layer_at_of_nat (ls : list layer_t) (i : nat) :
  layer_at ls (Z.of_nat i) = ls !! i.
Proof.
  unfold layer_at.
  replace (Z.of_nat i <? 0) with false by (symmetry; apply Z.ltb_ge; lia).
  rewrite Nat2Z.id. reflexivity.
Qed.

Lemma flagged_upto_lookup (depth : Z) (orig : list layer_t) (k i : nat) :
  flagged_upto depth orig k !! i =
  (fun l => if (i <? k)%nat
            then with_flags l (load_flag depth orig i) (store_flag depth orig i)
            else l) <$> orig !! i.
Proof. unfold flagged_upto. apply list_lookup_imap. Qed.

Lemma flagged_upto_length (depth : Z) (orig : list layer_t) (k : nat) :
  length (flagged_upto depth orig k) = length orig.
Proof. unfold flagged_upto. apply length_imap. Qed.

Lemma flagged_upto_0 (depth : Z) (orig : list layer_t) :
  flagged_upto depth orig 0 = orig.
Proof.
  apply list_eq. intros i. rewrite flagged_upto_lookup.
  destruct (orig !! i); reflexivity.
Qed.

Lemma flagged_upto_step (depth : Z) (orig : list layer_t) (k : nat) (l : layer_t) :
  orig !! k = Some l ->
  <[k := with_flags l (load_flag depth orig k) (store_flag depth orig k)]>
    (flagged_upto depth orig k)
  = flagged_upto depth orig (S k).
Proof.
  intros Hl. apply list_eq. intros i.
  destruct (decide (i = k)) as [-> | Hne].
  - rewrite list_lookup_insert_eq
      by (rewrite flagged_upto_length; eapply lookup_lt_Some; eassumption).
    rewrite flagged_upto_lookup, Hl.
    replace (k <? S k)%nat with true by (symmetry; apply Nat.ltb_lt; lia).
    reflexivity.
  - rewrite list_lookup_insert_ne by congruence.
    rewrite !flagged_upto_lookup.
    destruct (orig !! i) as [li|]; [|reflexivity].
    cbn [fmap option_fmap option_map].
    destruct (i <? k)%nat eqn:E1; destruct (i <? S k)%nat eqn:E2; try reflexivity;
      [apply Nat.ltb_lt in E1; apply Nat.ltb_ge in E2
      |apply Nat.ltb_ge in E1; apply Nat.ltb_lt in E2]; lia.
Qed.

Lemma needs_store_spec (depth : Z) (orig : list layer_t) (k : nat) :
  depth = Z.of_nat (length orig) ->
  (0 < S k < length orig)%nat ->
  needs_store depth (flagged_upto depth orig (S k)) (Z.of_nat (S k))
  = ret (store_flag depth orig (S k)).
Proof.
  intros Hd Hk. unfold needs_store.
  rewrite layer_at_of_nat, flagged_upto_lookup.
  destruct (orig !! S k) as [cur|] eqn:Hcur;
    [|apply lookup_ge_None in Hcur; lia].
  replace (S k <? S k)%nat with false by (symmetry; apply Nat.ltb_ge; lia).
  cbn [fmap option_fmap option_map of_option]. rewrite bind_ret.
  unfold store_flag. rewrite Hcur.
  destruct (Z.of_nat (S k) =? depth - 1) eqn:Hlast; [reflexivity|].
  destruct (bool_decide (activation cur = SIGMOID)); [reflexivity|].
  destruct (bool_decide (type cur = POOLING)); [reflexivity|].
  destruct (bool_decide (type cur = CONV)); [reflexivity|].
  destruct (bool_decide (input_preprocessing cur = FLATTEN)); [reflexivity|].
  apply Z.eqb_neq in Hlast.
  replace (Z.of_nat (S k) + 1) with (Z.of_nat (S (S k))) by lia.
  rewrite layer_at_of_nat, flagged_upto_lookup.
  destruct (orig !! S (S k)) as [next|] eqn:Hnext;
    [|apply lookup_ge_None in Hnext; lia].
  replace (S (S k) <? S k)%nat with false by (symmetry; apply Nat.ltb_ge; lia).
  cbn [fmap option_fmap option_map of_option]. rewrite bind_ret. reflexivity.
Qed.

Lemma dma_body_spec (depth : Z) (orig : list layer_t) (k : nat) :
  depth = Z.of_nat (length orig) ->
  (k < length orig)%nat ->
  dma_body depth (flagged_upto depth orig k) (Z.of_nat k)
  = ret (flagged_upto depth orig (S k)).
Proof.
  intros Hd Hk. unfold dma_body.
  destruct (orig !! k) as [l|] eqn:Hl; [|apply lookup_ge_None in Hl; lia].
  assert (Hcur : flagged_upto depth orig k !! k = Some l).
  { rewrite flagged_upto_lookup, Hl.
    replace (k <? k)%nat with false by (symmetry; apply Nat.ltb_ge; lia).
    reflexivity. }
  assert (Hlen : (k < length (flagged_upto depth orig k))%nat)
    by (rewrite flagged_upto_length; exact Hk).
  destruct k as [|j].
  - change (Z.of_nat 0 =? 0) with true. cbv iota.
    unfold assign_layer. change (Z.of_nat 0) with 0. change (Z.to_nat 0) with 0%nat.
    change (layer_at ?ls 0) with (ls !! 0%nat).
    rewrite Hcur. cbn [of_option]. rewrite !bind_ret.
    rewrite list_lookup_insert_eq by exact Hlen.
    cbn [of_option]. rewrite bind_ret, list_insert_insert_eq.
    rewrite <- (flagged_upto_step depth orig 0 l Hl). reflexivity.
  - replace (Z.of_nat (S j) =? 0) with false by (symmetry; apply Z.eqb_neq; lia).
    rewrite needs_store_spec by (auto; lia). rewrite bind_ret.
    unfold assign_layer.
    rewrite layer_at_of_nat, Hcur. cbn [of_option]. rewrite !bind_ret.
    rewrite Nat2Z.id.
    replace (Z.of_nat (S j) - 1) with (Z.of_nat j) by lia.
    rewrite !layer_at_of_nat.
    rewrite list_lookup_insert_ne by lia.
    rewrite flagged_upto_lookup.
    destruct (orig !! j) as [p|] eqn:Hp; [|apply lookup_ge_None in Hp; lia].
    replace (j <? S j)%nat with true by (symmetry; apply Nat.ltb_lt; lia).
    cbn [fmap option_fmap option_map of_option]. rewrite bind_ret.
    rewrite list_lookup_insert_eq by exact Hlen.
    cbn [of_option]. rewrite bind_ret, list_insert_insert_eq.
    rewrite <- (flagged_upto_step depth orig (S j) l Hl). reflexivity.
Qed.

Lemma dma_loop_spec (depth : Z) (orig : list layer_t) (fuel k : nat) :
  depth = Z.of_nat (length orig) ->
  (k + fuel = length orig)%nat ->
  dma_loop fuel depth (Z.of_nat k) (flagged_upto depth orig k)
  = ret (flagged_upto depth orig (length orig)).
Proof.
  intros Hd. revert k. induction fuel as [|fuel IH]; intros k Hk.
  - simpl. replace (length orig) with k by lia. reflexivity.
  - cbn [dma_loop].
    replace (Z.of_nat k <? depth) with true by (symmetry; apply Z.ltb_lt; lia).
    rewrite dma_body_spec by (auto; lia). rewrite bind_ret.
    replace (Z.of_nat k + 1) with (Z.of_nat (S k)) by lia.
    apply IH. lia.
Qed.

Lemma dma_print_loop_ok (depth : Z) (ls : list layer_t) (fuel k : nat) :
  depth = Z.of_nat (length ls) ->
  outcome (dma_print_loop fuel depth (Z.of_nat k) ls) = inr tt.
Proof.
  intros Hd. revert k. induction fuel as [|fuel IH]; intros k; [reflexivity|].
  cbn [dma_print_loop].
  destruct (Z.of_nat k <? depth) eqn:E; [apply Z.ltb_lt in E|reflexivity].
  rewrite layer_at_of_nat.
  destruct (ls !! k) as [l|] eqn:Hl; [|apply lookup_ge_None in Hl; lia].
  cbn [of_option]. rewrite bind_ret.
  replace (Z.of_nat k + 1) with (Z.of_nat (S k)) by lia.
  specialize (IH (S k)).
  destruct (dma_print_loop fuel depth (Z.of_nat (S k)) ls) as [t r].
  cbn in *. exact IH.
Qed.

(** The pass never leaves the array and ends with every layer flagged. *)
Lemma set_dma_requirements_spec (network : network_t) :
  depth network = Z.of_nat (length (layers network)) ->
  outcome (set_dma_requirements network) =
  inr {| layers := flagged_upto (depth network) (layers network)
                     (length (layers network));
         depth := depth network |}.
Proof.
  intros Hd. unfold set_dma_requirements.
  rewrite Hd at 1. rewrite Nat2Z.id.
  pose proof (dma_loop_spec (depth network) (layers network)
                (length (layers network)) 0 Hd ltac:(lia)) as Hloop.
  rewrite flagged_upto_0 in Hloop. change (Z.of_nat 0) with 0 in Hloop.
  rewrite Hloop, bind_ret.
  pose proof (dma_print_loop_ok (depth network)
                (flagged_upto (depth network) (layers network)
                   (length (layers network)))
                (Z.to_nat (depth network)) 0
                ltac:(rewrite flagged_upto_length; exact Hd)) as Hp.
  change (Z.of_nat 0) with 0 in Hp.
  destruct (dma_print_loop _ _ 0 _) as [t [e|[]]]; [discriminate Hp|].
  reflexivity.
Qed.

Lemma flagged_final_lookup (depth : Z) (orig : list layer_t) (i : nat) (l : layer_t) :
  orig !! i = Some l ->
  flagged_upto depth orig (length orig) !! i =
  Some (with_flags l (load_flag depth orig i) (store_flag depth orig i)).
Proof.
  intros Hl. rewrite flagged_upto_lookup, Hl.
  replace (i <? length orig)%nat with true;
    [reflexivity | symmetry; apply Nat.ltb_lt; eapply lookup_lt_Some; eassumption].
Qed.

Lemma store_flag_last (depth : Z) (orig : list layer_t) (i : nat) :
  (i < length orig)%nat -> Z.of_nat i = depth - 1 -> store_flag depth orig i = true.
Proof.
  intros Hi Hlast. destruct i as [|j]; [reflexivity|].
  unfold store_flag.
  destruct (orig !! S j) as [cur|] eqn:Hcur; [|apply lookup_ge_None in Hcur; lia].
  replace (Z.of_nat (S j) =? depth - 1) with true by (symmetry; apply Z.eqb_eq; lia).
  reflexivity.
Qed.

(** C2. On a network of depth at least one the pass ends with layer 0
    flagged (no input load, output store), with every later layer's input
    load equal to the output store of the layer before it, and with the
    output store of the last layer set. *)
Theorem dma_flags_chain (network : network_t) :
  depth network = Z.of_nat (length (layers network)) ->
  1 <= depth network ->
  exists net',
    outcome (set_dma_requirements network) = inr net' /\
    (exists first,
       layer_at (layers net') 0 = Some first /\
       needs_input_dma_load first = false /\
       needs_output_dma_store first = true) /\
    (forall i, 0 < i < depth network ->
       exists l prev,
         layer_at (layers net') i = Some l /\
         layer_at (layers net') (i - 1) = Some prev /\
         needs_input_dma_load l = needs_output_dma_store prev) /\
    (exists last,
       layer_at (layers net') (depth network - 1) = Some last /\
       needs_output_dma_store last = true).
Proof.
  intros Hd Hpos. eexists. split; [apply set_dma_requirements_spec, Hd|].
  cbn [layers]. set (orig := layers network) in *.
  set (d := depth network) in *.
  split; [|split].
  - destruct (orig !! 0%nat) as [l0|] eqn:H0; [|apply lookup_ge_None in H0; lia].
    eexists. split; [|split].
    + change 0 with (Z.of_nat 0). rewrite layer_at_of_nat.
      apply flagged_final_lookup, H0.
    + reflexivity.
    + reflexivity.
  - intros i Hi.
    destruct (Z.to_nat i) as [|j] eqn:Hj; [lia|].
    assert (i = Z.of_nat (S j)) as -> by lia.
    replace (Z.of_nat (S j) - 1) with (Z.of_nat j) by lia.
    rewrite !layer_at_of_nat.
    destruct (orig !! S j) as [l|] eqn:Hl; [|apply lookup_ge_None in Hl; lia].
    destruct (orig !! j) as [p|] eqn:Hp; [|apply lookup_ge_None in Hp; lia].
    eexists _, _. split; [apply flagged_final_lookup, Hl|].
    split; [apply flagged_final_lookup, Hp|]. reflexivity.
  - assert (d - 1 = Z.of_nat (Z.to_nat (d - 1))) as Hz by lia.
    rewrite Hz, layer_at_of_nat.
    destruct (orig !! Z.to_nat (d - 1)) as [l|] eqn:Hl;
      [|apply lookup_ge_None in Hl; lia].
    eexists. split; [apply flagged_final_lookup, Hl|].
    cbn. apply store_flag_last; [eapply lookup_lt_Some; eassumption | lia].
Qed.

(** C5. A layer strictly between the first and the last gets its output
    store set exactly when its activation is [SIGMOID], or it is a pooling
    or a convolution layer, or its input is flattened, or the next layer is
    a pooling or a softmax layer.  The network convolution, pooling,
    inner product ends with stores [true; true; true] and loads
    [false; true; true]. *)
Theorem dma_store_rule (network : network_t) :
  depth network = Z.of_nat (length (layers network)) ->
  (exists net',
     outcome (set_dma_requirements network) = inr net' /\
     forall i, 0 < i < depth network - 1 ->
       exists cur next l',
         layer_at (layers network) i = Some cur /\
         layer_at (layers network) (i + 1) = Some next /\
         layer_at (layers net') i = Some l' /\
         (needs_output_dma_store l' = true <->
          activation cur = SIGMOID \/ type cur = POOLING \/ type cur = CONV \/
          input_preprocessing cur = FLATTEN \/
          type next = POOLING \/ type next = SOFTMAX)) /\
  (forall conv pooling fc,
     type conv = CONV -> type pooling = POOLING -> type fc = FC ->
     exists net',
       outcome (set_dma_requirements
                  {| layers := [conv; pooling; fc]; depth := 3 |}) = inr net' /\
       needs_output_dma_store <$> layers net' = [true; true; true] /\
       needs_input_dma_load <$> layers net' = [false; true; true]).
Proof.
  intros Hd. split.
  - eexists. split; [apply set_dma_requirements_spec, Hd|].
    cbn [layers]. set (orig := layers network) in *.
    set (d := depth network) in *.
    intros i Hi.
    destruct (Z.to_nat i) as [|j] eqn:Hj; [lia|].
    assert (i = Z.of_nat (S j)) as -> by lia.
    replace (Z.of_nat (S j) + 1) with (Z.of_nat (S (S j))) by lia.
    rewrite !layer_at_of_nat.
    destruct (orig !! S j) as [cur|] eqn:Hcur; [|apply lookup_ge_None in Hcur; lia].
    destruct (orig !! S (S j)) as [next|] eqn:Hnext;
      [|apply lookup_ge_None in Hnext; lia].
    eexists _, _, _. split; [reflexivity|]. split; [reflexivity|].
    split; [apply flagged_final_lookup, Hcur|].
    cbn. unfold store_flag. rewrite Hcur, Hnext.
    replace (Z.of_nat (S j) =? d - 1) with false by (symmetry; apply Z.eqb_neq; lia).
    rewrite !orb_true_iff, !bool_decide_eq_true. intuition discriminate.
  - intros conv pooling fc Hc Hp Hf.
    eexists. split; [apply set_dma_requirements_spec; reflexivity|].
    cbn [layers length flagged_upto imap fmap list_fmap Nat.ltb Nat.leb
         with_flags set_needs_input_dma_load set_needs_output_dma_store
         needs_input_dma_load needs_output_dma_store load_flag compose].
    unfold store_flag. cbn [lookup list_lookup].
    rewrite Hp.
    change (Z.of_nat 1 =? 3 - 1) with false.
    change (Z.of_nat 2 =? 3 - 1) with true.
    rewrite (bool_decide_eq_true_2 (POOLING = POOLING) eq_refl).
    cbn [orb]. rewrite !orb_true_r. cbn [orb]. split; reflexivity.
Qed.

(** ** The inner-product path *)

Section InnerProductFacts.

Variable NUM_TEST_CASES : Z.
Variable get_num_weights_layer : list layer_t -> Z -> Z.
Variable get_weights_loc_for_layer : list layer_t -> Z -> Z.
Variable g : globals.

Local Abbreviation kernel :=
  (inner_product_layer_hw NUM_TEST_CASES get_num_weights_layer).
Local Abbreviation layer_call :=
  (inner_product_layer NUM_TEST_CASES get_num_weights_layer
     get_weights_loc_for_layer g).

Lemma inner_product_layer_hw_trace
    (ha hw la lw : ptr) (ls : list layer_t) (lnum : Z) (hr lr : ptr) (l : layer_t) :
  layer_at ls lnum = Some l ->
  kernel ha hw la lw ls lnum hr lr =
  ([EvDmaLoad lw hw (to_int (to_size_t (get_num_weights_layer ls lnum) * sizeof_float))]
   ++ (if needs_input_dma_load l then [EvGrabInput ha la l] else [])
   ++ [EvMatMul la lw NUM_TEST_CASES (rows (weights l))
         (to_int (cols (weights l) + align_pad (weights l)))
         (align_pad (inputs l)) (negb (bool_decide (activation l = NONE))) lr]
   ++ (if needs_output_dma_store l then [EvStoreOutput hr lr l] else []),
   inr tt).
Proof.
  intros Hl. unfold inner_product_layer_hw. rewrite Hl.
  cbn [of_option]. rewrite bind_ret.
  destruct (needs_input_dma_load l), (needs_output_dma_store l); reflexivity.
Qed.


(** The static after [n] calls. *)
Lemma result_loc_after (n : nat) :
  spad0 g <> spad1 g -> spad0 g <> NULL -> spad1 g <> NULL ->
  Nat.iter (S n) (next_result_loc g) initial_result_loc =
  if Nat.even n then spad1 g else spad0 g.
Proof.
  intros Hne H0 H1. induction n as [|n IH].
  - cbn. unfold next_result_loc, initial_result_loc.
    rewrite decide_True by reflexivity. reflexivity.
  - change (Nat.iter (S (S n)) (next_result_loc g) initial_result_loc)
      with (next_result_loc g (Nat.iter (S n) (next_result_loc g) initial_result_loc)).
    rewrite IH. rewrite Nat.even_succ, <- Nat.negb_even.
    unfold next_result_loc.
    destruct (Nat.even n); cbn [negb].
    + rewrite decide_False by exact H1. rewrite decide_False by congruence.
      rewrite decide_True by reflexivity. reflexivity.
    + rewrite decide_False by exact H0.
      rewrite decide_True by reflexivity. reflexivity.
Qed.

(** C8, amended. As long as the two scratchpads are the same
    allocations [g] for every call (distinct, not [NULL]), the static
    starts at [NULL] and every call flips it: call number [n] (from 0)
    leaves it at [spad1] for even [n] and at [spad0] for odd [n],
    whatever the layer; that scratchpad receives the result of the matrix
    product, the other one holds the activations, [umem] the weights. *)
Theorem inner_product_ping_pong
    (n : nat) (ha hw : ptr) (ls : list layer_t) (lnum : Z) (hr : ptr) (l : layer_t) :
  spad0 g <> spad1 g -> spad0 g <> NULL -> spad1 g <> NULL ->
  layer_at ls lnum = Some l ->
  let before := Nat.iter n (next_result_loc g) initial_result_loc in
  let call := layer_call before ha hw ls lnum hr in
  let result_spad := if Nat.even n then spad1 g else spad0 g in
  let activation_spad := if Nat.even n then spad0 g else spad1 g in
  Nat.iter 0 (next_result_loc g) initial_result_loc = NULL /\
  call.1 = Nat.iter (S n) (next_result_loc g) initial_result_loc /\
  call.1 = result_spad /\
  (forall ha' hw' ls' lnum' hr',
     (layer_call before ha' hw' ls' lnum' hr').1 = call.1) /\
  activation_spad <> result_spad /\
  outcome call.2 = inr hr /\
  (forall a b h1 h2 w p act r,
     EvMatMul a b h1 h2 w p act r ∈ trace call.2 ->
     a = activation_spad /\ b = umem g /\ r = result_spad) /\
  (exists h1 h2 w p act,
     EvMatMul activation_spad (umem g) h1 h2 w p act result_spad ∈ trace call.2).
Proof.
  intros Hne H0 H1 Hl before call result_spad activation_spad.
  pose proof (result_loc_after n Hne H0 H1) as Hafter.
  assert (call.1 = result_spad) as Hres by exact Hafter.
  split; [reflexivity|]. split; [reflexivity|]. split; [exact Hres|].
  split; [reflexivity|].
  split; [subst result_spad activation_spad; destruct (Nat.even n); congruence|].
  subst call. unfold inner_product_layer in *. cbn [fst snd] in *.
  fold before. rewrite Hres.
  assert (Hk : (if decide (result_spad = spad0 g)
                then kernel ha (ptr_add hw (get_weights_loc_for_layer ls lnum))
                       (spad1 g) (umem g) ls lnum hr (spad0 g)
                else kernel ha (ptr_add hw (get_weights_loc_for_layer ls lnum))
                       (spad0 g) (umem g) ls lnum hr (spad1 g))
               = kernel ha (ptr_add hw (get_weights_loc_for_layer ls lnum))
                   activation_spad (umem g) ls lnum hr result_spad).
  { subst result_spad activation_spad. destruct (Nat.even n).
    - rewrite decide_False by congruence. reflexivity.
    - rewrite decide_True by reflexivity. reflexivity. }
  rewrite Hk. clear Hk.
  rewrite (inner_product_layer_hw_trace _ _ _ _ _ _ _ _ l Hl).
  rewrite outcome_bind, trace_bind. cbn [outcome trace fst snd ret].
  rewrite app_nil_r.
  split; [reflexivity|]. split.
  - intros a b h1 h2 w p act r Hin.
    destruct (needs_input_dma_load l), (needs_output_dma_store l); cbn [app] in Hin;
      repeat (apply elem_of_cons in Hin as [Heq | Hin]; try discriminate Heq);
      try (inversion Hin; fail);
      injection Heq as -> -> _ _ _ _ _ ->; auto.
  - do 5 eexists.
    destruct (needs_input_dma_load l), (needs_output_dma_store l); cbn [app];
      in_list.
Qed.

End InnerProductFacts.

(** ** Loops *)

Lemma for_loop_trace_origin {S : Type} (body : Z -> S -> M S)
    (fuel : nat) (i : Z) (s : S) (ev : event) :
  ev ∈ trace (for_loop fuel i s body) ->
  exists j sj, i <= j < i + Z.of_nat fuel /\ ev ∈ trace (body j sj).
Proof.
  revert i s. induction fuel as [|fuel IH]; intros i s Hev.
  - inversion Hev.
  - cbn [for_loop] in Hev. rewrite trace_bind in Hev.
    apply elem_of_app in Hev as [Hev | Hev].
    + exists i, s. split; [lia | exact Hev].
    + destruct (outcome (body i s)) as [e|s']; [inversion Hev|].
      apply IH in Hev as (j & sj & Hj & Hev).
      exists j, sj. split; [lia | exact Hev].
Qed.

Lemma for_loop_complete {S : Type} (body : Z -> S -> M S)
    (fuel : nat) (i : Z) (s s' : S) (j : Z) :
  outcome (for_loop fuel i s body) = inr s' ->
  i <= j < i + Z.of_nat fuel ->
  exists sj sj',
    outcome (body j sj) = inr sj' /\
    forall ev, ev ∈ trace (body j sj) -> ev ∈ trace (for_loop fuel i s body).
Proof.
  revert i s. induction fuel as [|fuel IH]; intros i s Hout Hj; [lia|].
  cbn [for_loop] in *. rewrite outcome_bind in Hout.
  destruct (outcome (body i s)) as [e|s1] eqn:Hbody; [discriminate Hout|].
  destruct (Z.eq_dec j i) as [-> | Hne].
  - exists s, s1. split; [exact Hbody|].
    intros ev Hev. rewrite trace_bind. apply elem_of_app. left. exact Hev.
  - destruct (IH (i + 1) s1 Hout ltac:(lia)) as (sj & sj' & Hok & Hsub).
    exists sj, sj'. split; [exact Hok|].
    intros ev Hev. rewrite trace_bind, Hbody. apply elem_of_app. right. auto.
Qed.

(** ** The convolution path *)

Section ConvolutionFacts.

Variable NUM_TEST_CASES : Z.
Variable INPUT_BYTES : list layer_t -> Z -> Z.
Variable DATA_ALIGNMENT : Z.
Variable calc_padding : Z -> Z -> Z.
Variable get_weights_loc_for_layer : list layer_t -> Z -> Z.
Variable g : globals.

Local Abbreviation divide_work :=
  (convolution_divide_work NUM_TEST_CASES INPUT_BYTES DATA_ALIGNMENT calc_padding).
Local Abbreviation runner :=
  (convolution_runner NUM_TEST_CASES INPUT_BYTES DATA_ALIGNMENT calc_padding g).
Local Abbreviation conv_layer :=
  (convolution_layer NUM_TEST_CASES INPUT_BYTES DATA_ALIGNMENT calc_padding
     get_weights_loc_for_layer g).

Lemma iteration_layer_fields (curr : layer_t) (cfg : conv_cfg_t) (d : dims_t) :
  iteration_layer curr cfg d = iteration_descriptor curr cfg (height d).
Proof. reflexivity. Qed.

(** What one turn over the plan emits. *)
Lemma iteration_body_events
    (ha hw : ptr) (ls : list layer_t) (lnum : Z) (curr : layer_t)
    (cfg : conv_cfg_t) (r2d img kern iter : Z) (st : Z * ptr) (d : dims_t) :
  layer_at ls lnum = Some curr ->
  iteration_at cfg iter = Some d ->
  exists loads,
    iteration_body g ha hw ls lnum curr cfg r2d img kern iter st =
    (loads ++
     [EvConv3d (umem g) (spad0 g) (iteration_layer curr cfg d) (spad1 g);
      EvReduction (spad1 g) (iteration_layer curr cfg d) (umem g);
      EvDmaStore st.2 (umem g) (to_size_t (to_size_t r2d * sizeof_float))],
     inr (to_unsigned (st.1 + height d), ptr_add st.2 r2d)) /\
    forall ev, ev ∈ loads ->
      exists src bytes,
        ev = EvDmaLoad (spad0 g) src bytes /\ blk src = blk hw \/
        ev = EvDmaLoad (umem g) src bytes /\ blk src = blk ha.
Proof.
  intros Hl Hd. destruct st as [start_chan result_loc].
  unfold iteration_body. rewrite Hd. cbn [of_option]. rewrite bind_ret.
  unfold convolution_layer_hw. rewrite Hl. cbn [of_option]. rewrite bind_ret.
  unfold reduction_hw.
  destruct (needs_input_dma_load (iteration_layer curr cfg d)).
  - eexists [_; _]. split; [reflexivity|].
    intros ev Hev. apply elem_of_cons in Hev as [-> | Hev].
    { eexists _, _. left. split; reflexivity. }
    apply elem_of_cons in Hev as [-> | Hev]; [|inversion Hev].
    eexists _, _. right. split; reflexivity.
  - eexists [_]. split; [reflexivity|].
    intros ev Hev. apply elem_of_cons in Hev as [-> | Hev]; [|inversion Hev].
    eexists _, _. left. split; reflexivity.
Qed.

Local Abbreviation is_runner_event := (runner_event g).

Lemma iteration_body_sound
    (temp ha hw hr : ptr) (ls : list layer_t) (lnum : Z) (curr : layer_t)
    (cfg : conv_cfg_t) (r2d img kern iter : Z) (st : Z * ptr) (ev : event) :
  layer_at ls lnum = Some curr ->
  ev ∈ trace (iteration_body g ha hw ls lnum curr cfg r2d img kern iter st) ->
  is_runner_event temp ha hw hr curr cfg ev.
Proof.
  intros Hl Hev.
  destruct (iteration_at cfg iter) as [d|] eqn:Hd.
  - destruct (iteration_body_events ha hw ls lnum curr cfg r2d img kern iter st d
                Hl Hd) as (loads & Heq & Hloads).
    rewrite Heq in Hev. cbn [trace fst] in Hev.
    apply elem_of_app in Hev as [Hev | Hev].
    + destruct (Hloads ev Hev) as (src & bytes & [[-> Hb] | [-> Hb]]);
        [apply runner_load_weights | apply runner_load_activations]; exact Hb.
    + apply elem_of_cons in Hev as [-> | Hev];
        [rewrite iteration_layer_fields; eapply runner_compute; exact Hd|].
      apply elem_of_cons in Hev as [-> | Hev]; [apply runner_reduce|].
      apply elem_of_cons in Hev as [-> | Hev]; [apply runner_store_partial|].
      inversion Hev.
  - destruct st as [start_chan result_loc].
    unfold iteration_body in Hev. rewrite Hd in Hev. inversion Hev.
Qed.

Lemma final_reduction_sound
    (temp ha hw hr : ptr) (curr : layer_t) (cfg : conv_cfg_t) (r2d : Z)
    (ev : event) :
  ev ∈ trace (final_reduction g curr cfg r2d temp) ->
  is_runner_event temp ha hw hr curr cfg ev.
Proof.
  unfold final_reduction.
  destruct (1 <? num_iterations cfg); [|intros Hev; inversion Hev].
  destruct (final_rounds r2d (num_iterations cfg) =? 1);
    [|intros Hev; inversion Hev].
  cbn [ret]. rewrite bind_ret.
  destruct (r2d =? 0); [intros Hev; inversion Hev|].
  rewrite bind_ret, trace_bind. intros Hev.
  apply elem_of_app in Hev as [Hev | Hev].
  - apply for_loop_trace_origin in Hev as (j & sj & _ & Hev).
    unfold reduction_hw in Hev. cbn in Hev.
    apply elem_of_cons in Hev as [-> | Hev]; [apply runner_reduce|].
    apply elem_of_cons in Hev as [-> | Hev]; [apply runner_store_partial|].
    inversion Hev.
  - destruct (outcome _); inversion Hev.
Qed.

Lemma kernel_body_sound
    (temp ha hw hr : ptr) (ls : list layer_t) (lnum : Z) (curr : layer_t)
    (cfg : conv_cfg_t) (img kern : Z) (ev : event) :
  layer_at ls lnum = Some curr ->
  ev ∈ trace (kernel_body g ha hw ls lnum curr cfg temp hr img kern) ->
  is_runner_event temp ha hw hr curr cfg ev.
Proof.
  intros Hl. unfold kernel_body. rewrite trace_bind. intros Hev.
  apply elem_of_app in Hev as [Hev | Hev].
  - apply for_loop_trace_origin in Hev as (j & sj & _ & Hev).
    eapply iteration_body_sound; eassumption.
  - destruct (outcome (for_loop _ _ _ _)); [inversion Hev|].
    rewrite trace_bind in Hev. apply elem_of_app in Hev as [Hev | Hev].
    + eapply final_reduction_sound; eassumption.
    + destruct (outcome (final_reduction _ _ _ _ _)); [inversion Hev|].
      apply elem_of_cons in Hev as [-> | Hev]; [|inversion Hev].
      apply runner_assemble. reflexivity.
Qed.

Lemma divide_work_plan_silent (ls : list layer_t) (lnum : Z) (cfg : conv_cfg_t) :
  outcome (divide_work ls lnum) = inr cfg -> trace (divide_work ls lnum) = [].
Proof.
  unfold convolution_divide_work.
  destruct (layer_at ls lnum) as [l|]; [|discriminate].
  cbn [of_option]. rewrite bind_ret.
  destruct (total_input_bytes _ _ ls lnum) as [tib|]; [|discriminate].
  cbn [of_option]. rewrite bind_ret.
  destruct (UMEM_SIZE <? tib); [discriminate|].
  rewrite bind_ret.
  destruct (total_output_bytes l <=? SPAD_SIZE); [reflexivity|].
  destruct (output_channel_size l =? 0); [discriminate|].
  destruct (2 <=? max_channels_per_iter l); [reflexivity | discriminate].
Qed.

Lemma divide_work_trace (ls : list layer_t) (lnum : Z) (ev : event) :
  ev ∈ trace (divide_work ls lnum) -> exists f args, ev = EvPrintf f args.
Proof.
  unfold convolution_divide_work.
  destruct (layer_at ls lnum) as [l|]; [|intros H; inversion H].
  cbn [of_option]. rewrite bind_ret.
  destruct (total_input_bytes _ _ ls lnum) as [tib|]; [|intros H; inversion H].
  cbn [of_option]. rewrite bind_ret.
  destruct (UMEM_SIZE <? tib).
  - intros H. cbn in H. apply elem_of_cons in H as [-> | H]; [eauto | inversion H].
  - rewrite bind_ret.
    destruct (total_output_bytes l <=? SPAD_SIZE); [intros H; inversion H|].
    destruct (output_channel_size l =? 0); [intros H; inversion H|].
    destruct (2 <=? max_channels_per_iter l); intros H; inversion H.
Qed.

(** The run after the plan: the two outer loops. *)
Lemma runner_unfold
    (temp ha hw hr : ptr) (ls : list layer_t) (lnum : Z) (curr : layer_t)
    (cfg : conv_cfg_t) :
  layer_at ls lnum = Some curr ->
  outcome (divide_work ls lnum) = inr cfg ->
  let loops :=
    for_loop (Z.to_nat NUM_TEST_CASES) 0 tt
      (fun img _ =>
         for_loop (Z.to_nat (height (outputs curr))) 0 tt
           (fun kern _ => kernel_body g ha hw ls lnum curr cfg temp hr img kern)) in
  trace (runner temp ha hw ls lnum hr) = trace loops /\
  outcome (runner temp ha hw ls lnum hr) = outcome loops.
Proof.
  intros Hl Hcfg loops. unfold convolution_runner.
  rewrite Hl. cbn [of_option]. rewrite bind_ret.
  rewrite trace_bind, outcome_bind, Hcfg, (divide_work_plan_silent _ _ _ Hcfg).
  fold loops. rewrite trace_bind, outcome_bind.
  destruct (outcome loops) as [e|[]]; cbn [app trace outcome ret fst snd];
    rewrite ?app_nil_r; split; reflexivity.
Qed.

Lemma runner_sound
    (temp ha hw hr : ptr) (ls : list layer_t) (lnum : Z) (curr : layer_t)
    (cfg : conv_cfg_t) (ev : event) :
  layer_at ls lnum = Some curr ->
  outcome (divide_work ls lnum) = inr cfg ->
  ev ∈ trace (runner temp ha hw ls lnum hr) ->
  is_runner_event temp ha hw hr curr cfg ev.
Proof.
  intros Hl Hcfg Hev.
  destruct (runner_unfold temp ha hw hr ls lnum curr cfg Hl Hcfg) as [Ht _].
  rewrite Ht in Hev.
  apply for_loop_trace_origin in Hev as (img & [] & _ & Hev).
  apply for_loop_trace_origin in Hev as (kern & [] & _ & Hev).
  eapply kernel_body_sound; eassumption.
Qed.

(** C7. In a run of [convolution_runner] with plan [cfg], every call of
    the convolution kernel gets the layer's descriptor with the input,
    output and weight channel counts replaced by the channel count of an
    iteration of the plan; its activation is the layer's when the plan has
    one iteration and [NONE] when it has more.  A run that completes makes
    this call for every image, kernel and iteration. *)
Theorem conv3d_partial_layer
    (temp ha hw hr : ptr) (ls : list layer_t) (lnum : Z) (curr : layer_t)
    (cfg : conv_cfg_t) :
  layer_at ls lnum = Some curr ->
  outcome (divide_work ls lnum) = inr cfg ->
  let r := runner temp ha hw ls lnum hr in
  (forall a k p res, EvConv3d a k p res ∈ trace r ->
     (exists iter iter_cfg,
        iteration_at cfg iter = Some iter_cfg /\
        p = iteration_descriptor curr cfg (height iter_cfg)) /\
     (num_iterations cfg = 1 -> activation p = activation curr) /\
     (1 < num_iterations cfg -> activation p = NONE)) /\
  (outcome r = inr tt ->
   forall img kern iter,
     0 <= img < NUM_TEST_CASES ->
     0 <= kern < height (outputs curr) ->
     0 <= iter < num_iterations cfg ->
     exists iter_cfg,
       iteration_at cfg iter = Some iter_cfg /\
       EvConv3d (umem g) (spad0 g)
         (iteration_descriptor curr cfg (height iter_cfg)) (spad1 g) ∈ trace r).
Proof.
  intros Hl Hcfg r. split.
  - intros a k p res Hev.
    pose proof (runner_sound temp ha hw hr ls lnum curr cfg _ Hl Hcfg Hev) as Hk.
    inversion Hk as [| |iter d Hd| | |]; subst.
    split; [eauto|]. cbn [activation iteration_descriptor]. split.
    + intros ->. reflexivity.
    + intros Hn. replace (num_iterations cfg =? 1) with false
        by (symmetry; apply Z.eqb_neq; lia). reflexivity.
  - intros Hok img kern iter Himg Hkern Hiter.
    destruct (runner_unfold temp ha hw hr ls lnum curr cfg Hl Hcfg) as [Ht Ho].
    subst r. rewrite Ht. rewrite Ho in Hok.
    destruct (for_loop_complete _ _ _ _ _ img Hok ltac:(lia))
      as ([] & [] & Hok1 & Hsub1).
    destruct (for_loop_complete _ _ _ _ _ kern Hok1 ltac:(lia))
      as ([] & [] & Hok2 & Hsub2).
    unfold kernel_body in Hok2, Hsub2.
    rewrite outcome_bind in Hok2.
    destruct (outcome (for_loop (Z.to_nat (num_iterations cfg)) _ _ _))
      as [e|st'] eqn:Hok3; [discriminate Hok2|].
    destruct (for_loop_complete _ _ _ _ _ iter Hok3 ltac:(lia))
      as (sj & sj' & Hok4 & Hsub4).
    destruct (iteration_at cfg iter) as [d|] eqn:Hd.
    + exists d. split; [reflexivity|].
      apply Hsub1, Hsub2. rewrite trace_bind. apply elem_of_app. left.
      apply Hsub4.
      destruct (iteration_body_events ha hw ls lnum curr cfg
                  (output_2d_size curr) img kern iter sj d Hl Hd)
        as (loads & Heq & _).
      rewrite Heq. cbn [trace fst]. apply elem_of_app. right.
      rewrite iteration_layer_fields. apply list_elem_of_here.
    + destruct sj as [start_chan result_loc].
      unfold iteration_body in Hok4. rewrite Hd in Hok4. discriminate Hok4.
Qed.

(** Below [2 ^ 24] elements the number of final rounds is the element
    count of the partial results divided by [SPAD_SIZE], rounded up. *)
Lemma final_rounds_small (r2d n : Z) :
  0 < to_unsigned (r2d * n) < 2 ^ 24 ->
  final_rounds r2d n = ceil_quotient (to_unsigned (r2d * n)) SPAD_SIZE.
Proof.
  intros Hx. unfold final_rounds.
  rewrite ceil_div_exact by (unfold SPAD_SIZE; lia).
  pose proof (ceil_quotient_spec (to_unsigned (r2d * n)) SPAD_SIZE
                ltac:(unfold SPAD_SIZE; lia)) as Hk.
  unfold SPAD_SIZE in *. apply to_int_small. lia.
Qed.

(** The three ways through "Finish off the reduction here". *)
Lemma final_reduction_cases
    (curr : layer_t) (cfg : conv_cfg_t) (r2d : Z) (temp : ptr) :
  (num_iterations cfg <= 1 -> final_reduction g curr cfg r2d temp = ret tt) /\
  (1 < num_iterations cfg ->
   final_rounds r2d (num_iterations cfg) <> 1 ->
   final_reduction g curr cfg r2d temp = fail MultiRoundReduction) /\
  (1 < num_iterations cfg ->
   final_rounds r2d (num_iterations cfg) = 1 ->
   r2d <> 0 ->
   final_reduction g curr cfg r2d temp =
   ([EvReduction (spad1 g)
       (final_layer curr
          (to_int (min (num_iterations cfg)
                       (to_unsigned (Z.quot SPAD_SIZE r2d)))))
       (umem g);
     EvDmaStore temp (umem g) (to_size_t (to_size_t r2d * sizeof_float))],
    inr tt)).
Proof.
  unfold final_reduction. split; [|split].
  - intros Hn. replace (1 <? num_iterations cfg) with false
      by (symmetry; apply Z.ltb_ge; lia). reflexivity.
  - intros Hn Hr. replace (1 <? num_iterations cfg) with true
      by (symmetry; apply Z.ltb_lt; lia).
    replace (final_rounds r2d (num_iterations cfg) =? 1) with false
      by (symmetry; apply Z.eqb_neq; lia). reflexivity.
  - intros Hn Hr Hz. replace (1 <? num_iterations cfg) with true
      by (symmetry; apply Z.ltb_lt; lia).
    rewrite Hr. replace (r2d =? 0) with false
      by (symmetry; apply Z.eqb_neq; lia). reflexivity.
Qed.

End ConvolutionFacts.

(** ** The examples *)

Ltac by_computation := vm_compute; first [reflexivity | discriminate].

(** The model of binary32 agrees with the Standard Library's
    specification of IEEE-754 division on the operands of the examples. *)
Example f32_agrees_with_spec :
  Forall (fun '(a, b) => F32.spec_ceil_div a b = Some (F32.ceil_div a b))
    [(5, 2); (8, 2); (64, 2); (1, 3); (786432, 3); (16777215, 32767);
     (33554433, 8192); (65536, 131072); (131073, 131072); (4294967295, 131072)].
Proof. repeat constructor. Qed.

Example f32_agrees_on_ranges :
  F32.agrees_upto 32 = true /\
  F32.agrees_scaled 33554431 20 = true /\
  F32.agrees_scaled 71582788 20 = true.
Proof. split; [|split]; vm_compute; reflexivity. Qed.

Example small_layer_plan :
  example_divide_work [small_layer] 0 =
  ([], inr {| iteration := [mk_dims 8 8 4 0]; num_iterations := 1 |}).
Proof. reflexivity. Qed.

Example tiled_layer_plan :
  example_divide_work [tiled_layer] 0 =
  ([], inr {| iteration := [mk_dims 130 130 2 6; mk_dims 130 130 2 6;
                            mk_dims 130 130 2 6; mk_dims 130 130 2 6];
              num_iterations := 4 |}).
Proof. by_computation. Qed.

(** Past [2 ^ 24] the conversion to [float] rounds the channel count:
    33554433 channels in chunks of 8192 need 4097 iterations, the code
    computes 4096. *)
Example deep_layer_iterations :
  max_channels_per_iter deep_layer = 8192 /\
  ceil_quotient (height (inputs deep_layer)) 8192 = 4097 /\
  tiled_num_iterations deep_layer = 4096.
Proof. repeat split; by_computation. Qed.

(** C1, as stated, fails: the unreduced output of [wide_layer] exceeds a
    scratchpad and two channels fit, yet the work divider returns no plan,
    because one input image exceeds the UMEM. *)
Lemma divide_work_tiled_plan_counterexample :
  layer_at [wide_layer] 0 = Some wide_layer /\
  SPAD_SIZE < total_output_bytes wide_layer /\
  2 <= max_channels_per_iter wide_layer /\
  example_divide_work [wide_layer] 0 =
  ([EvPrintf umem_message []], inl UnsupportedInputSize).
Proof. repeat split; by_computation. Qed.

Lemma divide_work_tiled_plan_witness :
  layer_at [tiled_layer] 0 = Some tiled_layer /\
  input_footprint 1 (spec_INPUT_BYTES 1) [tiled_layer] 0 <= UMEM_SIZE /\
  SPAD_SIZE < output_footprint tiled_layer < 2 ^ 32 /\
  2 <= SPAD_SIZE / channel_footprint tiled_layer /\
  0 <= height (inputs tiled_layer) < 2 ^ 24 /\
  exists cfg,
    example_divide_work [tiled_layer] 0 = ([], inr cfg) /\
    num_iterations cfg =
      ceil_quotient (height (inputs tiled_layer))
        (SPAD_SIZE / channel_footprint tiled_layer) /\
    total_channels (iteration cfg) = height (inputs tiled_layer).
Proof.
  assert (H1 : layer_at [tiled_layer] 0 = Some tiled_layer) by reflexivity.
  assert (H2 : input_footprint 1 (spec_INPUT_BYTES 1) [tiled_layer] 0 <= UMEM_SIZE)
    by by_computation.
  assert (H3 : SPAD_SIZE < output_footprint tiled_layer < 2 ^ 32)
    by (split; by_computation).
  assert (H4 : 2 <= SPAD_SIZE / channel_footprint tiled_layer) by by_computation.
  assert (H5 : 0 <= height (inputs tiled_layer) < 2 ^ 24) by (split; by_computation).
  do 5 (split; [assumption|]).
  destruct (divide_work_tiled_plan 1 (spec_INPUT_BYTES 1) 8 spec_calc_padding
              [tiled_layer] 0 tiled_layer H1 ltac:(lia)
              ltac:(split; by_computation) H2 H3 H4 H5)
    as (_ & cfg & Hplan & Hn & _ & Hsum & _).
  exists cfg. auto.
Defined.

(** What the amended C1 leaves out: at [2 ^ 32] bytes the unreduced
    output of [folded_layer] is stored as 0, and the work divider returns
    one iteration of all 65536 channels. *)
Example folded_layer_plan :
  output_footprint folded_layer = 2 ^ 32 /\
  SPAD_SIZE / channel_footprint folded_layer = 2 /\
  total_output_bytes folded_layer = 0 /\
  example_divide_work [folded_layer] 0 =
  ([], inr {| iteration := [mk_dims 1 1 65536 7]; num_iterations := 1 |}).
Proof. repeat split; by_computation. Qed.

(** C3, as stated, fails in three places.  The unreduced output of one
    kernel of [wrapped_layer] takes [2 ^ 32] bytes, far more than a
    scratchpad, and not even one of its channels fits, yet the work
    divider returns a plan: the byte count is stored in 32 bits, as 0.
    One image of [oversized_image] takes [2 ^ 32] bytes, more than the
    UMEM, and a plan is returned for the same reason.  With a batch size
    of 0 the first division fails: no plan, and no configuration error. *)
Lemma divide_work_failure_iff_counterexample :
  (layer_at [wrapped_layer] 0 = Some wrapped_layer /\
   input_footprint 1 (spec_INPUT_BYTES 1) [wrapped_layer] 0 <= UMEM_SIZE /\
   SPAD_SIZE < output_footprint wrapped_layer /\
   SPAD_SIZE / channel_footprint wrapped_layer < 2 /\
   total_output_bytes wrapped_layer = 0 /\
   example_divide_work [wrapped_layer] 0 =
   ([], inr {| iteration := [mk_dims 1 1 1024 7]; num_iterations := 1 |})) /\
  (layer_at [oversized_image] 0 = Some oversized_image /\
   UMEM_SIZE < input_footprint 1 (spec_INPUT_BYTES 1) [oversized_image] 0 /\
   total_input_bytes 1 (spec_INPUT_BYTES 1) [oversized_image] 0 = Some 0 /\
   example_divide_work [oversized_image] 0 =
   ([], inr {| iteration := [mk_dims 32768 32768 1 0]; num_iterations := 1 |})) /\
  (convolution_divide_work 0 (spec_INPUT_BYTES 0) 8 spec_calc_padding
     [small_layer] 0 = ([], inl DivisionByZero) /\
   ~ config_error DivisionByZero).
Proof.
  split; [repeat split; by_computation|].
  split; [repeat split; by_computation|].
  split; [by_computation|]. intros [H | H]; discriminate H.
Qed.

Lemma divide_work_failure_iff_witness :
  layer_at [wide_layer] 0 = Some wide_layer /\
  input_footprint 1 (spec_INPUT_BYTES 1) [wide_layer] 0 < 2 ^ 32 /\
  0 <= height (inputs wide_layer) /\
  0 <= output_footprint wide_layer < 2 ^ 32 /\
  UMEM_SIZE < input_footprint 1 (spec_INPUT_BYTES 1) [wide_layer] 0 /\
  outcome (example_divide_work [wide_layer] 0) = inl UnsupportedInputSize.
Proof.
  assert (H1 : layer_at [wide_layer] 0 = Some wide_layer) by reflexivity.
  assert (H2 : input_footprint 1 (spec_INPUT_BYTES 1) [wide_layer] 0 < 2 ^ 32)
    by by_computation.
  assert (H3 : 0 <= height (inputs wide_layer)) by by_computation.
  assert (H4 : 0 <= output_footprint wide_layer < 2 ^ 32)
    by (split; by_computation).
  assert (H5 : UMEM_SIZE < input_footprint 1 (spec_INPUT_BYTES 1) [wide_layer] 0)
    by by_computation.
  do 5 (split; [assumption|]).
  exact (proj1 (proj2 (proj2 (divide_work_failure_iff 1 (spec_INPUT_BYTES 1) 8
                                spec_calc_padding [wide_layer] 0 wide_layer H1
                                ltac:(lia) ltac:(split; by_computation)
                                H2 H3 H4))) H5).
Defined.

Lemma divide_work_single_iteration_witness :
  layer_at [small_layer] 0 = Some small_layer /\
  total_input_bytes 1 (spec_INPUT_BYTES 1) [small_layer] 0 = Some 1024 /\
  1024 <= UMEM_SIZE /\
  total_output_bytes small_layer <= SPAD_SIZE /\
  exists d,
    example_divide_work [small_layer] 0 =
    ([], inr {| iteration := [d]; num_iterations := 1 |}) /\
    height d = height (inputs small_layer) /\
    rows d = rows (inputs small_layer) /\
    cols d = cols (inputs small_layer).
Proof.
  assert (H1 : layer_at [small_layer] 0 = Some small_layer) by reflexivity.
  assert (H2 : total_input_bytes 1 (spec_INPUT_BYTES 1) [small_layer] 0 = Some 1024)
    by reflexivity.
  assert (H3 : 1024 <= UMEM_SIZE) by by_computation.
  assert (H4 : total_output_bytes small_layer <= SPAD_SIZE) by by_computation.
  do 4 (split; [assumption|]).
  exact (divide_work_single_iteration 1 (spec_INPUT_BYTES 1) 8 spec_calc_padding
           [small_layer] 0 small_layer 1024 H1 H2 H3 H4).
Defined.

Lemma dma_flags_chain_witness :
  depth example_network = Z.of_nat (length (layers example_network)) /\
  1 <= depth example_network /\
  exists net',
    outcome (set_dma_requirements example_network) = inr net' /\
    exists last,
      layer_at (layers net') (depth example_network - 1) = Some last /\
      needs_output_dma_store last = true.
Proof.
  assert (H1 : depth example_network = Z.of_nat (length (layers example_network)))
    by reflexivity.
  assert (H2 : 1 <= depth example_network) by by_computation.
  do 2 (split; [assumption|]).
  destruct (dma_flags_chain example_network H1 H2) as (net' & Hrun & _ & _ & Hlast).
  exists net'. auto.
Defined.

Lemma dma_store_rule_witness :
  depth example_network = Z.of_nat (length (layers example_network)) /\
  exists net',
    outcome (set_dma_requirements example_network) = inr net' /\
    forall i, 0 < i < depth example_network - 1 ->
      exists l', layer_at (layers net') i = Some l'.
Proof.
  assert (H1 : depth example_network = Z.of_nat (length (layers example_network)))
    by reflexivity.
  split; [assumption|].
  destruct (proj1 (dma_store_rule example_network H1)) as (net' & Hrun & Hrule).
  exists net'. split; [exact Hrun|].
  intros i Hi. destruct (Hrule i Hi) as (_ & _ & l' & _ & _ & Hl' & _).
  exists l'. exact Hl'.
Defined.

Example example_network_flags :
  exists net',
    outcome (set_dma_requirements example_network) = inr net' /\
    needs_output_dma_store <$> layers net' = [true; true; true] /\
    needs_input_dma_load <$> layers net' = [false; true; true].
Proof. eexists. repeat split; by_computation. Qed.

Example tiled_layer_run_completes :
  outcome (example_runner example_activations example_weights [tiled_layer] 0
             example_result) = inr tt.
Proof. by_computation. Qed.

(** C4, at [tiled_layer]: the plan has 4 iterations, so the 4 partial
    results of a kernel take 4 * 16384 * 4 = 262144 bytes, twice a
    scratchpad.  The code divides the element count by the byte capacity,
    counts one final round, passes its assertion and runs the final
    reduction over 4 channels to the end. *)
Theorem final_reduction_counts_elements_as_bytes :
  (exists cfg,
     outcome (example_divide_work [tiled_layer] 0) = inr cfg /\
     num_iterations cfg = 4) /\
  SPAD_SIZE < 4 * output_2d_size tiled_layer * sizeof_float /\
  final_rounds (output_2d_size tiled_layer) 4 = 1 /\
  outcome (example_runner example_activations example_weights [tiled_layer] 0
             example_result) = inr tt /\
  EvReduction (spad1 example_globals) (final_layer tiled_layer 4)
    (umem example_globals)
  ∈ trace (example_runner example_activations example_weights [tiled_layer] 0
             example_result).
Proof.
  split; [eexists; split; by_computation|].
  split; [by_computation|]. split; [by_computation|]. split; [by_computation|].
  vm_compute. in_list.
Qed.

Lemma conv3d_partial_layer_witness :
  layer_at [tiled_layer] 0 = Some tiled_layer /\
  (exists cfg,
     outcome (example_divide_work [tiled_layer] 0) = inr cfg /\
     forall a k p res,
       EvConv3d a k p res
       ∈ trace (example_runner example_activations example_weights [tiled_layer] 0
                  example_result) ->
       1 < num_iterations cfg -> activation p = NONE).
Proof.
  assert (H1 : layer_at [tiled_layer] 0 = Some tiled_layer) by reflexivity.
  split; [assumption|].
  destruct (outcome (example_divide_work [tiled_layer] 0)) as [e|cfg] eqn:H2;
    [vm_compute in H2; discriminate H2|].
  exists cfg. split; [reflexivity|].
  intros a k p res Hev.
  exact (proj2 (proj2 (proj1 (conv3d_partial_layer 1 (spec_INPUT_BYTES 1) 8
                                spec_calc_padding example_globals
                                example_temp_result example_activations
                                example_weights example_result [tiled_layer] 0
                                tiled_layer cfg H1 H2) a k p res Hev))).
Defined.


Lemma inner_product_ping_pong_witness :
  spad0 example_globals <> spad1 example_globals /\
  spad0 example_globals <> NULL /\
  spad1 example_globals <> NULL /\
  layer_at (layers example_network) 2 =
    Some example_fc /\
  (inner_product_layer 1 (fun _ _ => 180) (fun _ _ => 0) example_globals
     (Nat.iter 1 (next_result_loc example_globals) initial_result_loc)
     example_activations example_weights (layers example_network) 2
     example_result).1 = spad0 example_globals.
Proof.
  assert (H1 : spad0 example_globals <> spad1 example_globals) by discriminate.
  assert (H2 : spad0 example_globals <> NULL) by discriminate.
  assert (H3 : spad1 example_globals <> NULL) by discriminate.
  assert (H4 : layer_at (layers example_network) 2 =
               Some example_fc) by reflexivity.
  do 4 (split; [assumption|]).
  exact (proj1 (proj2 (proj2 (inner_product_ping_pong 1 (fun _ _ => 180)
                                (fun _ _ => 0) example_globals 1%nat
                                example_activations example_weights
                                (layers example_network) 2 example_result
                                _ H1 H2 H3 H4)))).
Defined.

(** C8, as stated, fails across forward passes of one process: the first
    call leaves the static at [spad1] of the first pass; once the
    scratchpads are allocated anew the static matches neither, the next
    two calls leave it where it is, and both write their result to
    [spad1]. *)
Lemma inner_product_ping_pong_counterexample :
  spad0 second_pass_globals <> spad1 second_pass_globals /\
  (example_layer_call example_globals initial_result_loc).1
  = spad1 example_globals /\
  (example_layer_call second_pass_globals (spad1 example_globals)).1
  = spad1 example_globals /\
  EvMatMul (spad0 second_pass_globals) (umem second_pass_globals) 1 18 16 6 true
    (spad1 second_pass_globals)
  ∈ trace (example_layer_call second_pass_globals (spad1 example_globals)).2 /\
  forall a b h1 h2 w p act r,
    EvMatMul a b h1 h2 w p act r
    ∈ trace (example_layer_call second_pass_globals (spad1 example_globals)).2 ->
    r <> spad0 second_pass_globals.
Proof.
  split; [discriminate|]. split; [reflexivity|]. split; [reflexivity|].
  split; [vm_compute; in_list|].
  intros a b h1 h2 w p act r Hin. vm_compute in Hin.
  repeat (apply elem_of_cons in Hin as [Heq | Hin]; try discriminate Heq);
    [injection Heq as -> -> _ _ _ _ _ ->; discriminate | inversion Hin].
Qed.

Example padded_layer_returns_activations :
  convolution_layer 1 (spec_INPUT_BYTES 1) 8 spec_calc_padding (fun _ _ => 0)
    example_globals example_temp_result example_activations example_weights
    [padded_layer] 0 example_result
  = (EvZeropad example_activations 0 example_result
     :: trace (example_runner example_result example_weights [padded_layer] 0
                 example_activations),
     inr example_activations).
Proof. by_computation. Qed.

Example small_layer_returns_result :
  outcome (convolution_layer 1 (spec_INPUT_BYTES 1) 8 spec_calc_padding
             (fun _ _ => 0) example_globals example_temp_result
             example_activations example_weights [small_layer] 0 example_result)
  = inr example_result.
Proof. by_computation. Qed.

(** * Further properties *)

(** ** Bounds on binary32 rounding *)

Section F32Bounds.
Import F32.

Lemma rne_floor (n d : Z) : 0 < d -> n / d <= rne n d.
Proof.
  intros Hd. unfold rne.
  destruct (2 * (n mod d) <? d); [lia|].
  destruct (d <? 2 * (n mod d)); [lia|].
  destruct (Z.even (n / d)); lia.
Qed.

Lemma round_zero (d : Z) : round 0 d = (0, 1).
Proof. reflexivity. Qed.

(** The rounded value of a positive fraction: positive, at least any
    integer up to [2 ^ 23] below the fraction, at most any power of two
    above it. *)
Lemma round_bounds (n d : Z) :
  0 < n -> 0 < d ->
  0 < (round n d).2 /\ 0 < (round n d).1 /\
  (forall z, 0 <= z <= 2 ^ 23 -> z * d <= n -> z * (round n d).2 <= (round n d).1) /\
  (forall k, 0 <= k -> n <= 2 ^ k * d -> (round n d).1 <= 2 ^ k * (round n d).2).
Proof.
  intros Hn Hd. unfold round.
  replace (n =? 0) with false by (symmetry; apply Z.eqb_neq; lia).
  pose proof (exponent_normal n d Hn Hd) as Hnorm.
  set (e := exponent n d) in *. clearbody e.
  unfold normal_at in Hnorm.
  destruct (scaled n d e) as [n1 d1] eqn:Hs.
  destruct Hnorm as [Hd1 Hn1]. unfold scaled in Hs.
  pose proof (rne_floor n1 d1 Hd1) as Hfl.
  assert (2 ^ 23 <= n1 / d1) as Hq
    by (apply Z.div_le_lower_bound; lia).
  change (2 ^ 23) with 8388608 in *.
  destruct (0 <=? e) eqn:He; [apply Z.leb_le in He | apply Z.leb_gt in He];
    injection Hs as <- <-; cbn [fst snd].
  - assert (0 < 2 ^ e) as Hpe by (apply Z.pow_pos_nonneg; lia).
    split; [lia|]. split; [nia|]. split.
    + intros z Hz Hzn. nia.
    + intros k Hk Hnk.
      assert (e + 23 <= k) as Hek.
      { destruct (Z.le_gt_cases (e + 23) k) as [?|Hlt]; [assumption|exfalso].
        assert (2 ^ k * 2 <= 2 ^ (e + 23)) as Hp.
        { replace (e + 23) with (k + (e + 23 - k)) by lia.
          rewrite Z.pow_add_r by lia.
          assert (2 ^ 1 <= 2 ^ (e + 23 - k)) by (apply Z.pow_le_mono_r; lia).
          assert (0 < 2 ^ k) by (apply Z.pow_pos_nonneg; lia).
          change (2 ^ 1) with 2 in *. nia. }
        rewrite Z.pow_add_r in Hp by lia. change (2 ^ 23) with 8388608 in Hp.
        assert (0 < 2 ^ k) by (apply Z.pow_pos_nonneg; lia).
        nia. }
      replace k with ((k - e) + e) by lia. rewrite Z.pow_add_r by lia.
      assert (rne n (d * 2 ^ e) <= 2 ^ (k - e)); [|nia].
      apply rne_le; [lia|].
      replace (2 ^ (k - e) * (d * 2 ^ e)) with (2 ^ k * d); [lia|].
      replace k with ((k - e) + e) at 1 by lia. rewrite Z.pow_add_r by lia. ring.
  - assert (0 < 2 ^ (- e)) as HpE by (apply Z.pow_pos_nonneg; lia).
    set (E := 2 ^ (- e)) in *. clearbody E.
    split; [lia|]. split; [lia|]. split.
    + intros z Hz Hzn.
      assert (z * E <= n * E / d); [|lia].
      apply Z.div_le_lower_bound; [lia|]. nia.
    + intros k Hk Hnk. apply rne_le; [lia|].
      assert (0 < 2 ^ k) by (apply Z.pow_pos_nonneg; lia). nia.
Qed.

Lemma of_unsigned_bounds (x : Z) :
  0 < x < 2 ^ 32 ->
  0 < (of_unsigned x).2 /\ 0 < (of_unsigned x).1 /\
  (of_unsigned x).1 <= 2 ^ 32 * (of_unsigned x).2 /\
  (2 ^ 23 <= x -> 2 ^ 23 * (of_unsigned x).2 <= (of_unsigned x).1).
Proof.
  intros Hx. unfold of_unsigned.
  destruct (round_bounds x 1 ltac:(lia) ltac:(lia)) as (Hd & Hn & Hge & Hle).
  split; [exact Hd|]. split; [exact Hn|]. split.
  - apply Hle; lia.
  - intros Hbig. apply Hge; lia.
Qed.

(** The quotient of a positive [unsigned] by one below [2 ^ 24], rounded
    up: at least 1, and at most [2 ^ 32 / b] rounded up to a power of two. *)
Lemma ceil_div_bounds (a b k : Z) :
  0 < a < 2 ^ 32 -> 0 < b < 2 ^ 24 -> 0 <= k -> 2 ^ 32 <= 2 ^ k * b ->
  1 <= ceil (div (of_unsigned a) (of_unsigned b)) <= 2 ^ k.
Proof.
  intros Ha Hb Hk Hkb.
  destruct (of_unsigned_bounds a Ha) as (Had & Han & Hale & _).
  destruct (of_unsigned_exact b Hb) as [Hbd Hbn].
  set (xa := of_unsigned a) in *. set (xb := of_unsigned b) in *.
  clearbody xa xb. destruct xa as [an ad], xb as [bn bd]. cbn [fst snd] in *.
  unfold div. cbn [fst snd].
  assert (0 < an * bd) as Hn by (apply Z.mul_pos_pos; lia).
  assert (0 < ad * bn) as Hd by (subst bn; apply Z.mul_pos_pos; [|apply Z.mul_pos_pos]; lia).
  destruct (round_bounds (an * bd) (ad * bn) Hn Hd) as (Hrd & Hrn & _ & Hle).
  specialize (Hle k Hk).
  set (r := round (an * bd) (ad * bn)) in *. clearbody r.
  destruct r as [rn rd]. cbn [fst snd] in *.
  assert (0 < 2 ^ k) as Hpk by (apply Z.pow_pos_nonneg; lia).
  assert (rn <= 2 ^ k * rd) as Hup.
  { apply Hle. subst bn.
    assert (an * bd <= 2 ^ 32 * ad * bd) by (apply Z.mul_le_mono_nonneg_r; lia).
    assert (2 ^ 32 * (ad * bd) <= 2 ^ k * b * (ad * bd))
      by (apply Z.mul_le_mono_nonneg_r; [apply Z.mul_nonneg_nonneg|]; lia).
    lia. }
  unfold ceil. cbn [fst snd].
  set (K := 2 ^ k) in *. clearbody K.
  pose proof (ceil_quotient_spec rn rd Hrd) as Hc. unfold ceil_quotient in Hc.
  set (c := - (- rn / rd)) in *. clearbody c. nia.
Qed.

End F32Bounds.

(** ** The final-reduction test *)

Lemma final_rounds_zero (r2d n : Z) :
  to_unsigned (r2d * n) = 0 -> final_rounds r2d n = 0.
Proof. intros H. unfold final_rounds. rewrite H. reflexivity. Qed.

Lemma final_rounds_range (r2d n : Z) :
  0 < to_unsigned (r2d * n) ->
  1 <= final_rounds r2d n <= 2 ^ 15.
Proof.
  intros Hx. pose proof (to_unsigned_range (r2d * n)) as Hr.
  unfold final_rounds.
  pose proof (ceil_div_bounds (to_unsigned (r2d * n)) SPAD_SIZE 15 ltac:(lia)
                ltac:(unfold SPAD_SIZE; lia) ltac:(lia)
                ltac:(unfold SPAD_SIZE; lia)) as Hb.
  rewrite to_int_small; lia.
Qed.

Lemma final_rounds_large (r2d n : Z) :
  2 ^ 24 <= to_unsigned (r2d * n) -> 2 <= final_rounds r2d n.
Proof.
  intros Hx. pose proof (to_unsigned_range (r2d * n)) as Hr.
  pose proof (final_rounds_range r2d n ltac:(lia)) as Hrange.
  unfold final_rounds in *.
  set (x := to_unsigned (r2d * n)) in *. clearbody x.
  rewrite to_int_small in Hrange by
    (pose proof (ceil_div_bounds x SPAD_SIZE 15 ltac:(lia)
                   ltac:(unfold SPAD_SIZE; lia) ltac:(lia)
                   ltac:(unfold SPAD_SIZE; lia)); lia).
  rewrite to_int_small by lia.
  destruct (of_unsigned_bounds x ltac:(lia)) as (Hxd & Hxn & _ & Hbig).
  specialize (Hbig ltac:(lia)).
  destruct (of_unsigned_exact SPAD_SIZE ltac:(unfold SPAD_SIZE; lia)) as [Hsd Hsn].
  set (fx := F32.of_unsigned x) in *. set (fs := F32.of_unsigned SPAD_SIZE) in *.
  clearbody fx fs. destruct fx as [xn xd], fs as [sn sd]. cbn [fst snd] in *.
  unfold F32.div in *. cbn [fst snd] in *.
  assert (0 < xn * sd) as Hn by (apply Z.mul_pos_pos; lia).
  assert (0 < xd * sn) as Hd
    by (subst sn; unfold SPAD_SIZE; apply Z.mul_pos_pos; lia).
  destruct (round_bounds (xn * sd) (xd * sn) Hn Hd) as (Hrd & Hrn & Hge & _).
  specialize (Hge 2 ltac:(lia)).
  set (r := F32.round (xn * sd) (xd * sn)) in *. clearbody r.
  destruct r as [rn rd]. cbn [fst snd] in *.
  assert (2 * rd <= rn) as Hlow.
  { apply Hge. subst sn. unfold SPAD_SIZE.
    change (2 ^ 23) with 8388608 in Hbig.
    assert (8388608 * xd * sd <= xn * sd) by (apply Z.mul_le_mono_nonneg_r; lia).
    lia. }
  unfold F32.ceil in *. cbn [fst snd] in *.
  pose proof (ceil_quotient_spec rn rd Hrd) as Hc. unfold ceil_quotient in Hc.
  set (c := - (- rn / rd)) in *. clearbody c. nia.
Qed.

Lemma final_rounds_one_spec (r2d n : Z) :
  final_rounds r2d n = 1 <-> 0 < to_unsigned (r2d * n) <= SPAD_SIZE.
Proof.
  pose proof (to_unsigned_range (r2d * n)) as Hr.
  destruct (Z.eq_dec (to_unsigned (r2d * n)) 0) as [H0 | Hne].
  { rewrite (final_rounds_zero _ _ H0). lia. }
  destruct (Z_lt_le_dec (to_unsigned (r2d * n)) (2 ^ 24)) as [Hsmall | Hbig].
  - rewrite final_rounds_small by lia.
    pose proof (ceil_quotient_spec (to_unsigned (r2d * n)) SPAD_SIZE
                  ltac:(unfold SPAD_SIZE; lia)) as Hk.
    unfold SPAD_SIZE in *. split; [lia|].
    intros Hx. apply ceil_quotient_unique; lia.
  - pose proof (final_rounds_large r2d n Hbig). unfold SPAD_SIZE. lia.
Qed.

(** X1. The count of final-reduction rounds, computed in binary32, is 0
    for no element, 1 for 1 to [SPAD_SIZE] elements, and between 2 and
    32768 above (where it may differ from the exact quotient).  The
    assertion on the final reduction therefore passes exactly when the
    partial results hold between 1 and [SPAD_SIZE] elements: the element
    count, an [unsigned], is compared with the byte size of a
    scratchpad. *)
Theorem final_rounds_characterised (r2d n : Z) :
  (final_rounds r2d n = 0 <-> to_unsigned (r2d * n) = 0) /\
  (final_rounds r2d n = 1 <-> 0 < to_unsigned (r2d * n) <= SPAD_SIZE) /\
  (SPAD_SIZE < to_unsigned (r2d * n) -> 2 <= final_rounds r2d n <= 2 ^ 15).
Proof.
  pose proof (to_unsigned_range (r2d * n)) as Hr.
  pose proof (final_rounds_one_spec r2d n) as H1.
  split; [|split].
  - split.
    + intros H0. destruct (Z.eq_dec (to_unsigned (r2d * n)) 0) as [|Hne]; [assumption|].
      pose proof (final_rounds_range r2d n ltac:(lia)). lia.
    + apply final_rounds_zero.
  - exact H1.
  - intros Hbig. pose proof (final_rounds_range r2d n ltac:(unfold SPAD_SIZE in *; lia)).
    split; [|lia].
    destruct (Z.eq_dec (final_rounds r2d n) 1) as [He|Hne]; [|lia].
    apply H1 in He. lia.
Qed.

(** Above [2 ^ 24] elements the count is not always the exact quotient:
    673 * 24929 = [2 ^ 24 + 1] elements are 128 scratchpads and one
    element, 129 rounds, and the conversion to [float] gives 128. *)
Example final_rounds_inexact :
  final_rounds 673 24929 = 128 /\
  ceil_quotient (to_unsigned (673 * 24929)) SPAD_SIZE = 129.
Proof. split; by_computation. Qed.

(** ** More on loops *)

Lemma bind_assoc {A B C} (m : M A) (f : A -> M B) (h : B -> M C) :
  bind (bind m f) h = bind m (fun a => bind (f a) h).
Proof.
  destruct m as [t [e|a]]; cbn; [reflexivity|].
  destruct (f a) as [t1 [e1|b]]; cbn; [reflexivity|].
  destruct (h b) as [t2 r2]. rewrite app_assoc. reflexivity.
Qed.

Lemma bind_ret_r {A} (m : M A) : bind m ret = m.
Proof. destruct m as [t [e|a]]; cbn; [|rewrite app_nil_r]; reflexivity. Qed.

Lemma bind_ext {A B} (m : M A) (f h : A -> M B) :
  (forall a, f a = h a) -> bind m f = bind m h.
Proof. intros H. destruct m as [t [e|a]]; cbn; [|rewrite H]; reflexivity. Qed.

(** The last turn of a loop. *)
Lemma for_loop_snoc {S : Type} (body : Z -> S -> M S) (n : nat) (i : Z) (s : S) :
  for_loop (Datatypes.S n) i s body =
  bind (for_loop n i s body) (body (i + Z.of_nat n)).
Proof.
  revert i s. induction n as [|n IH]; intros i s.
  - cbn [for_loop]. rewrite bind_ret, Z.add_0_r.
    rewrite (bind_ext _ _ ret) by reflexivity. apply bind_ret_r.
  - change (for_loop (Datatypes.S (Datatypes.S n)) i s body)
      with (bind (body i s) (fun s' => for_loop (Datatypes.S n) (i + 1) s' body)).
    rewrite (bind_ext _ _ (fun s' => bind (for_loop n (i + 1) s' body)
                                      (body (i + 1 + Z.of_nat n))))
      by (intros a; apply IH).
    rewrite <- bind_assoc.
    replace (i + 1 + Z.of_nat n) with (i + Z.of_nat (Datatypes.S n)) by lia.
    reflexivity.
Qed.

(** A loop that ends well has run every turn, turn [j] from the state the
    first [j] turns left. *)
Lemma for_loop_prefix {S : Type} (body : Z -> S -> M S)
    (fuel : nat) (i : Z) (s s' : S) (j : nat) :
  outcome (for_loop fuel i s body) = inr s' ->
  (j < fuel)%nat ->
  exists sj sj',
    outcome (for_loop j i s body) = inr sj /\
    outcome (body (i + Z.of_nat j) sj) = inr sj' /\
    forall ev, ev ∈ trace (body (i + Z.of_nat j) sj) ->
               ev ∈ trace (for_loop fuel i s body).
Proof.
  revert i s j. induction fuel as [|fuel IH]; intros i s j Hout Hj; [lia|].
  cbn [for_loop] in Hout. rewrite outcome_bind in Hout.
  destruct (outcome (body i s)) as [e|s1] eqn:Hbody; [discriminate Hout|].
  destruct j as [|j].
  - exists s, s1. rewrite Z.add_0_r. split; [reflexivity|]. split; [exact Hbody|].
    intros ev Hev. cbn [for_loop]. rewrite trace_bind.
    apply elem_of_app. left. exact Hev.
  - destruct (IH (i + 1) s1 j Hout ltac:(lia)) as (sj & sj' & Hpre & Hok & Hsub).
    exists sj, sj'.
    replace (i + Z.of_nat (Datatypes.S j)) with (i + 1 + Z.of_nat j) by lia.
    split; [|split; [exact Hok|]].
    + cbn [for_loop]. rewrite outcome_bind, Hbody. exact Hpre.
    + intros ev Hev. cbn [for_loop]. rewrite trace_bind, Hbody.
      apply elem_of_app. right. auto.
Qed.

(** A loop without state whose turns all end well. *)
Lemma for_loop_unit (body : Z -> unit -> M unit) (fuel : nat) (i : Z) :
  (forall j, i <= j < i + Z.of_nat fuel -> outcome (body j tt) = inr tt) ->
  for_loop fuel i tt body =
  (flat_map (fun j => trace (body j tt)) (seqZ i (Z.of_nat fuel)), inr tt).
Proof.
  revert i. induction fuel as [|fuel IH]; intros i Hok; [reflexivity|].
  cbn [for_loop]. rewrite seqZ_cons by lia. cbn [flat_map].
  specialize (Hok i ltac:(lia)) as Hi.
  destruct (body i tt) as [t r] eqn:Hb. cbn [outcome snd] in Hi. subst r.
  cbn [bind trace fst].
  rewrite IH by (intros j Hj; apply Hok; lia).
  replace (Z.succ i) with (i + 1) by lia.
  replace (Z.pred (Z.of_nat (Datatypes.S fuel))) with (Z.of_nat fuel) by lia.
  reflexivity.
Qed.

(** A loop whose first turn fails. *)
Lemma for_loop_first_failure {S : Type} (body : Z -> S -> M S)
    (fuel : nat) (i : Z) (s : S) (e : failure) :
  outcome (body i s) = inl e ->
  for_loop (Datatypes.S fuel) i s body = (trace (body i s), inl e).
Proof.
  intros H. cbn [for_loop]. destruct (body i s) as [t r].
  cbn [outcome snd] in H. subst r. reflexivity.
Qed.

Lemma count_events_app (p : event -> bool) (t1 t2 : list event) :
  count_events p (t1 ++ t2) = (count_events p t1 + count_events p t2)%nat.
Proof. induction t1 as [|ev t1 IH]; cbn; [|rewrite IH]; lia. Qed.

Lemma count_events_flat_map {A} (p : event -> bool) (f : A -> list event)
    (xs : list A) (c : nat) :
  (forall x, x ∈ xs -> count_events p (f x) = c) ->
  count_events p (flat_map f xs) = (length xs * c)%nat.
Proof.
  induction xs as [|x xs IH]; intros H; [reflexivity|].
  cbn [flat_map length]. rewrite count_events_app, H by apply list_elem_of_here.
  rewrite IH by (intros y Hy; apply H, list_elem_of_further, Hy). lia.
Qed.

Lemma count_events_zero (p : event -> bool) (t : list event) :
  count_events p t = 0%nat <-> forall ev, ev ∈ t -> p ev = false.
Proof.
  induction t as [|ev t IH]; cbn.
  - split; [intros _ ev H; inversion H | reflexivity].
  - split.
    + intros H ev' Hin. apply elem_of_cons in Hin as [-> | Hin].
      * destruct (p ev); [lia | reflexivity].
      * apply IH; [destruct (p ev); lia | exact Hin].
    + intros H. rewrite (H ev) by apply list_elem_of_here.
      apply IH. intros ev' Hin. apply H, list_elem_of_further, Hin.
Qed.

(** ** Plans, whatever the layer *)

Section PlanFacts.

Variable NUM_TEST_CASES : Z.
Variable INPUT_BYTES : list layer_t -> Z -> Z.
Variable DATA_ALIGNMENT : Z.
Variable calc_padding : Z -> Z -> Z.

Local Abbreviation divide_work :=
  (convolution_divide_work NUM_TEST_CASES INPUT_BYTES DATA_ALIGNMENT calc_padding).
Local Abbreviation loop := (divide_loop DATA_ALIGNMENT calc_padding).

(** The two ways to a plan. *)
Lemma divide_work_plan_inv (ls : list layer_t) (lnum : Z) (cfg : conv_cfg_t) :
  outcome (divide_work ls lnum) = inr cfg ->
  exists l,
    layer_at ls lnum = Some l /\
    ((total_output_bytes l <= SPAD_SIZE /\
      cfg = {| iteration :=
                 [ {| rows := rows (inputs l); cols := cols (inputs l);
                      height := height (inputs l);
                      align_pad := calc_padding (cols (inputs l)) DATA_ALIGNMENT |} ];
               num_iterations := 1 |}) \/
     (SPAD_SIZE < total_output_bytes l /\ 2 <= max_channels_per_iter l /\
      cfg = {| iteration :=
                 loop l (Z.to_nat (tiled_num_iterations l)) (input_channels l);
               num_iterations := tiled_num_iterations l |})).
Proof.
  intros Hout.
  destruct (layer_at ls lnum) as [l|] eqn:Hl;
    [|unfold convolution_divide_work in Hout; rewrite Hl in Hout; discriminate Hout].
  destruct (total_input_bytes NUM_TEST_CASES INPUT_BYTES ls lnum) as [tib|] eqn:Hin;
    [|unfold convolution_divide_work in Hout; rewrite Hl, Hin in Hout;
      discriminate Hout].
  rewrite (divide_work_unfold _ _ _ _ ls lnum l tib Hl Hin) in Hout.
  exists l. split; [reflexivity|].
  destruct (UMEM_SIZE <? tib); [discriminate Hout|].
  destruct (total_output_bytes l <=? SPAD_SIZE) eqn:Ho;
    [apply Z.leb_le in Ho | apply Z.leb_gt in Ho].
  { left. split; [exact Ho|]. injection Hout as <-. reflexivity. }
  destruct (output_channel_size l =? 0); [discriminate Hout|].
  destruct (2 <=? max_channels_per_iter l) eqn:Hm; [|discriminate Hout].
  apply Z.leb_le in Hm. right. split; [exact Ho|]. split; [exact Hm|].
  injection Hout as <-. reflexivity.
Qed.

Lemma tiled_num_iterations_range (l : layer_t) :
  SPAD_SIZE < total_output_bytes l ->
  2 <= max_channels_per_iter l ->
  1 <= tiled_num_iterations l <= 2 ^ 31.
Proof.
  intros Ho Hm.
  destruct (tiling_operands l Ho) as [Hocs Hic].
  pose proof (max_channels_bound l Hocs) as Hmb. unfold SPAD_SIZE in Hmb.
  pose proof (to_unsigned_range (height (inputs l))) as Hc.
  fold (input_channels l) in Hc.
  pose proof (ceil_div_bounds (input_channels l) (max_channels_per_iter l) 31
                ltac:(lia) ltac:(lia) ltac:(lia) ltac:(lia)) as Hb.
  unfold tiled_num_iterations. rewrite to_unsigned_small; lia.
Qed.

(** X2. Every plan the work divider returns has at least one iteration,
    and [num_iterations] is the number of entries of [iteration]: the
    loops of the runner index the array within its bounds. *)
Theorem plan_iteration_count (ls : list layer_t) (lnum : Z) (cfg : conv_cfg_t) :
  outcome (divide_work ls lnum) = inr cfg ->
  1 <= num_iterations cfg /\
  Z.of_nat (length (iteration cfg)) = num_iterations cfg /\
  forall iter, 0 <= iter < num_iterations cfg ->
               exists iter_cfg, iteration_at cfg iter = Some iter_cfg.
Proof.
  intros Hout.
  assert (1 <= num_iterations cfg /\
          Z.of_nat (length (iteration cfg)) = num_iterations cfg) as [H1 H2].
  { destruct (divide_work_plan_inv ls lnum cfg Hout)
      as (l & Hl & [[Ho ->] | (Ho & Hm & ->)]); cbn [iteration num_iterations].
    - split; [lia | reflexivity].
    - pose proof (tiled_num_iterations_range l Ho Hm) as Hr.
      rewrite divide_loop_length. split; lia. }
  split; [exact H1|]. split; [exact H2|].
  intros iter Hi. unfold iteration_at.
  replace (iter <? 0) with false by (symmetry; apply Z.ltb_ge; lia).
  destruct (iteration cfg !! Z.to_nat iter) as [d|] eqn:Hd; [eauto|].
  apply lookup_ge_None in Hd. lia.
Qed.

Lemma divide_loop_height_bounds (l : layer_t) (n : nat) (t : Z) (d : dims_t) :
  0 <= max_channels_per_iter l < 2 ^ 31 ->
  0 <= t < 2 ^ 32 ->
  d ∈ loop l n t ->
  0 <= height d <= max_channels_per_iter l.
Proof.
  intros Hm. revert t. induction n as [|n IH]; intros t Ht Hd; [inversion Hd|].
  cbn [divide_loop] in Hd. apply elem_of_cons in Hd as [-> | Hd].
  - cbn [height]. unfold min.
    destruct (t <? max_channels_per_iter l) eqn:E;
      [apply Z.ltb_lt in E | apply Z.ltb_ge in E];
      rewrite to_int_small; lia.
  - apply (IH (to_unsigned (t - max_channels_per_iter l)));
      [apply to_unsigned_range | exact Hd].
Qed.

Lemma iteration_layer_output_bytes (l : layer_t) (cfg : conv_cfg_t) (d : dims_t) :
  total_output_bytes (iteration_layer l cfg d) =
  to_unsigned (output_channel_size l * to_unsigned (height d)).
Proof. rewrite total_output_bytes_channels. reflexivity. Qed.

(** X3. In every plan, the unreduced output of each iteration's partial
    layer fits one scratchpad; in a plan of several iterations no
    iteration has more than [max_channels_per_iter] channels. *)
Theorem plan_iterations_fit
    (ls : list layer_t) (lnum : Z) (l : layer_t) (cfg : conv_cfg_t)
    (i : nat) (d : dims_t) :
  layer_at ls lnum = Some l ->
  outcome (divide_work ls lnum) = inr cfg ->
  iteration cfg !! i = Some d ->
  total_output_bytes (iteration_layer l cfg d) <= SPAD_SIZE /\
  (1 < num_iterations cfg ->
   0 <= height d <= max_channels_per_iter l /\
   output_channel_size l * height d <= SPAD_SIZE).
Proof.
  intros Hl Hout Hd.
  destruct (divide_work_plan_inv ls lnum cfg Hout)
    as (l' & Hl' & [[Ho ->] | (Ho & Hm & ->)]);
    rewrite Hl in Hl'; injection Hl' as <-; cbn [iteration num_iterations] in *.
  - split; [|lia].
    apply list_lookup_singleton_Some in Hd as [_ <-].
    rewrite iteration_layer_output_bytes. cbn [height].
    fold (input_channels l). rewrite <- total_output_bytes_channels. exact Ho.
  - destruct (tiling_operands l Ho) as [Hocs _].
    pose proof (max_channels_bound l Hocs) as Hmb. unfold SPAD_SIZE in Hmb.
    assert (0 <= height d <= max_channels_per_iter l) as Hh.
    { apply (divide_loop_height_bounds l (Z.to_nat (tiled_num_iterations l))
               (input_channels l));
        [lia | apply to_unsigned_range | eapply list_elem_of_lookup_2; exact Hd]. }
    assert (output_channel_size l * height d <= SPAD_SIZE) as Hfit.
    { pose proof (Z.mul_div_le SPAD_SIZE (output_channel_size l) Hocs) as Hq.
      fold (max_channels_per_iter l) in Hq.
      assert (output_channel_size l * height d
              <= output_channel_size l * max_channels_per_iter l)
        by (apply Z.mul_le_mono_nonneg_l; lia).
      lia. }
    split; [|intros _; split; assumption].
    rewrite iteration_layer_output_bytes.
    rewrite (to_unsigned_small (height d)) by lia.
    rewrite to_unsigned_small; [exact Hfit|].
    unfold SPAD_SIZE in Hfit. split; [apply Z.mul_nonneg_nonneg; lia | lia].
Qed.

End PlanFacts.

(** ** Runs of the convolution driver *)

Lemma ptr_add_add (p : ptr) (a b : Z) : ptr_add (ptr_add p a) b = ptr_add p (a + b).
Proof. unfold ptr_add. cbn. f_equal. lia. Qed.

Lemma ptr_add_0 (p : ptr) : ptr_add p 0 = p.
Proof. destruct p as [b o]. unfold ptr_add. cbn. f_equal. lia. Qed.

Lemma start_chan_at_S (cfg : conv_cfg_t) (j : nat) (d : dims_t) :
  iteration cfg !! j = Some d ->
  start_chan_at cfg (S j) = to_unsigned (start_chan_at cfg j + height d).
Proof.
  intros Hd. unfold start_chan_at.
  rewrite (take_S_r _ _ _ Hd), foldl_app. reflexivity.
Qed.

Lemma iteration_at_of_nat (cfg : conv_cfg_t) (j : nat) :
  iteration_at cfg (Z.of_nat j) = iteration cfg !! j.
Proof.
  unfold iteration_at.
  replace (Z.of_nat j <? 0) with false by (symmetry; apply Z.ltb_ge; lia).
  rewrite Nat2Z.id. reflexivity.
Qed.

Lemma final_reduction_outcome (g : globals)
    (curr : layer_t) (cfg : conv_cfg_t) (r2d : Z) (temp : ptr) :
  outcome (final_reduction g curr cfg r2d temp) =
  if (1 <? num_iterations cfg) && negb (final_rounds r2d (num_iterations cfg) =? 1)
  then inl MultiRoundReduction else inr tt.
Proof.
  destruct (1 <? num_iterations cfg) eqn:Hn;
    [apply Z.ltb_lt in Hn | apply Z.ltb_ge in Hn]; cbn [andb].
  - destruct (final_rounds r2d (num_iterations cfg) =? 1) eqn:Hr;
      [apply Z.eqb_eq in Hr | apply Z.eqb_neq in Hr]; cbn [negb].
    + assert (r2d <> 0) as Hz.
      { intros ->. apply final_rounds_one_spec in Hr.
        rewrite Z.mul_0_l in Hr. change (to_unsigned 0) with 0 in Hr. lia. }
      rewrite (proj2 (proj2 (final_reduction_cases g curr cfg r2d temp)) Hn Hr Hz).
      reflexivity.
    + rewrite (proj1 (proj2 (final_reduction_cases g curr cfg r2d temp)) Hn Hr).
      reflexivity.
  - rewrite (proj1 (final_reduction_cases g curr cfg r2d temp) Hn). reflexivity.
Qed.

Section RunnerFacts.

Variable NUM_TEST_CASES : Z.
Variable INPUT_BYTES : list layer_t -> Z -> Z.
Variable DATA_ALIGNMENT : Z.
Variable calc_padding : Z -> Z -> Z.
Variable g : globals.

Local Abbreviation divide_work :=
  (convolution_divide_work NUM_TEST_CASES INPUT_BYTES DATA_ALIGNMENT calc_padding).
Local Abbreviation runner :=
  (convolution_runner NUM_TEST_CASES INPUT_BYTES DATA_ALIGNMENT calc_padding g).

(** The state of the loop over the plan after [j] of its turns. *)
Lemma iteration_loop_state
    (temp ha hw : ptr) (ls : list layer_t) (lnum : Z) (curr : layer_t)
    (cfg : conv_cfg_t) (r2d img kern : Z) (j : nat) :
  layer_at ls lnum = Some curr ->
  (j <= length (iteration cfg))%nat ->
  outcome (for_loop j 0 (0, temp)
             (iteration_body g ha hw ls lnum curr cfg r2d img kern)) =
  inr (start_chan_at cfg j, ptr_add temp (Z.of_nat j * r2d)).
Proof.
  intros Hl. induction j as [|j IH]; intros Hj.
  - cbn. rewrite ptr_add_0. reflexivity.
  - rewrite for_loop_snoc, outcome_bind, IH by lia. rewrite Z.add_0_l.
    destruct (iteration cfg !! j) as [d|] eqn:Hd;
      [|apply lookup_ge_None in Hd; lia].
    destruct (iteration_body_events g ha hw ls lnum curr cfg r2d img kern
                (Z.of_nat j) (start_chan_at cfg j, ptr_add temp (Z.of_nat j * r2d))
                d Hl ltac:(rewrite iteration_at_of_nat; exact Hd))
      as (loads & Heq & _).
    rewrite Heq. cbn [outcome snd fst].
    rewrite (start_chan_at_S cfg j d Hd), ptr_add_add.
    do 3 f_equal. lia.
Qed.

(** A kernel's turn ends as its final reduction does. *)
Lemma kernel_body_outcome
    (temp ha hw hr : ptr) (ls : list layer_t) (lnum : Z) (curr : layer_t)
    (cfg : conv_cfg_t) (img kern : Z) :
  layer_at ls lnum = Some curr ->
  Z.of_nat (length (iteration cfg)) = num_iterations cfg ->
  outcome (kernel_body g ha hw ls lnum curr cfg temp hr img kern) =
  if (1 <? num_iterations cfg)
     && negb (final_rounds (output_2d_size curr) (num_iterations cfg) =? 1)
  then inl MultiRoundReduction else inr tt.
Proof.
  intros Hl Hlen. unfold kernel_body.
  rewrite outcome_bind, iteration_loop_state by (auto; lia).
  rewrite outcome_bind, final_reduction_outcome.
  destruct ((1 <? num_iterations cfg)
            && negb (final_rounds (output_2d_size curr) (num_iterations cfg) =? 1));
    reflexivity.
Qed.

Lemma runner_loops_outcome
    (temp ha hw hr : ptr) (ls : list layer_t) (lnum : Z) (curr : layer_t)
    (cfg : conv_cfg_t) :
  layer_at ls lnum = Some curr ->
  Z.of_nat (length (iteration cfg)) = num_iterations cfg ->
  outcome
    (for_loop (Z.to_nat NUM_TEST_CASES) 0 tt
       (fun img _ =>
          for_loop (Z.to_nat (height (outputs curr))) 0 tt
            (fun kern _ => kernel_body g ha hw ls lnum curr cfg temp hr img kern)))
  = if (0 <? NUM_TEST_CASES) && (0 <? height (outputs curr))
       && (1 <? num_iterations cfg)
       && negb (final_rounds (output_2d_size curr) (num_iterations cfg) =? 1)
    then inl MultiRoundReduction else inr tt.
Proof.
  intros Hl Hlen.
  pose proof (fun img kern =>
                kernel_body_outcome temp ha hw hr ls lnum curr cfg img kern Hl Hlen)
    as Hk.
  rewrite <- !andb_assoc.
  remember ((1 <? num_iterations cfg)
            && negb (final_rounds (output_2d_size curr) (num_iterations cfg) =? 1))
    as bad eqn:Ebad in *.
  clear Ebad.
  destruct (0 <? NUM_TEST_CASES) eqn:Ht;
    [apply Z.ltb_lt in Ht | apply Z.ltb_ge in Ht]; cbn [andb].
  2:{ replace (Z.to_nat NUM_TEST_CASES) with 0%nat by lia. reflexivity. }
  destruct (0 <? height (outputs curr)) eqn:Hkern;
    [apply Z.ltb_lt in Hkern; rewrite andb_true_l
    | apply Z.ltb_ge in Hkern; rewrite andb_false_l].
  2:{ replace (Z.to_nat (height (outputs curr))) with 0%nat by lia.
      rewrite for_loop_unit by (intros; reflexivity). reflexivity. }
  destruct bad.
  - destruct (Z.to_nat NUM_TEST_CASES) as [|t] eqn:Et; [lia|].
    destruct (Z.to_nat (height (outputs curr))) as [|k] eqn:Ek; [lia|].
    rewrite (for_loop_first_failure _ _ _ _ MultiRoundReduction); [reflexivity|].
    rewrite (for_loop_first_failure _ _ _ _ MultiRoundReduction); [reflexivity|].
    apply Hk.
  - rewrite for_loop_unit; [reflexivity|].
    intros img _. rewrite for_loop_unit; [reflexivity|].
    intros kern _. apply Hk.
Qed.

(** X4. A run of [convolution_runner] on a layer of the array ends in one
    of three ways only: with the failure of the work divider; with
    [MultiRoundReduction], when there is an image and a kernel to compute,
    the plan has several iterations and the final-round count is not 1; or
    normally.  The runner's own loops never index the plan outside its
    bounds and its own division is never by zero: a run fails only with a
    configuration error, with the failed assertion or, when
    [NUM_TEST_CASES] is 0, with the division by zero of the work
    divider. *)
Theorem runner_outcome
    (temp ha hw hr : ptr) (ls : list layer_t) (lnum : Z) (curr : layer_t) :
  layer_at ls lnum = Some curr ->
  outcome (runner temp ha hw ls lnum hr) =
  match outcome (divide_work ls lnum) with
  | inl e => inl e
  | inr cfg =>
      if (0 <? NUM_TEST_CASES) && (0 <? height (outputs curr))
         && (1 <? num_iterations cfg)
         && negb (final_rounds (output_2d_size curr) (num_iterations cfg) =? 1)
      then inl MultiRoundReduction else inr tt
  end /\
  (forall e, outcome (runner temp ha hw ls lnum hr) = inl e ->
     e = MultiRoundReduction \/ config_error e \/
     (e = DivisionByZero /\ to_size_t NUM_TEST_CASES = 0)).
Proof.
  intros Hl.
  assert (Hout : outcome (runner temp ha hw ls lnum hr) =
    match outcome (divide_work ls lnum) with
    | inl e => inl e
    | inr cfg =>
        if (0 <? NUM_TEST_CASES) && (0 <? height (outputs curr))
           && (1 <? num_iterations cfg)
           && negb (final_rounds (output_2d_size curr) (num_iterations cfg) =? 1)
        then inl MultiRoundReduction else inr tt
    end);
    [|split; [exact Hout|];
      intros e He; rewrite Hout in He;
      destruct (outcome (divide_work ls lnum)) as [e'|cfg] eqn:Hcfg;
      [ injection He as <-; right;
        destruct (divide_work_failure_kinds _ _ _ _ ls lnum curr e' Hl Hcfg);
        [left | right]; assumption
      | left;
        destruct ((0 <? NUM_TEST_CASES) && (0 <? height (outputs curr))
                  && (1 <? num_iterations cfg)
                  && negb (final_rounds (output_2d_size curr)
                             (num_iterations cfg) =? 1));
        [injection He as <-; reflexivity | discriminate He] ]].
  destruct (outcome (divide_work ls lnum)) as [e|cfg] eqn:Hcfg.
  - unfold convolution_runner. rewrite Hl. cbn [of_option].
    rewrite bind_ret, outcome_bind, Hcfg. reflexivity.
  - destruct (runner_unfold _ _ _ _ g temp ha hw hr ls lnum curr cfg Hl Hcfg)
      as [_ Ho].
    rewrite Ho. apply runner_loops_outcome; [exact Hl|].
    destruct (divide_work_plan_inv _ _ _ _ ls lnum cfg Hcfg)
      as (l & _ & [[_ ->] | (Hob & Hm & ->)]); cbn [iteration num_iterations].
    + reflexivity.
    + pose proof (tiled_num_iterations_range l Hob Hm).
      rewrite divide_loop_length. lia.
Qed.

End RunnerFacts.

Section RunnerTraces.

Variable NUM_TEST_CASES : Z.
Variable INPUT_BYTES : list layer_t -> Z -> Z.
Variable DATA_ALIGNMENT : Z.
Variable calc_padding : Z -> Z -> Z.
Variable g : globals.

Local Abbreviation divide_work :=
  (convolution_divide_work NUM_TEST_CASES INPUT_BYTES DATA_ALIGNMENT calc_padding).
Local Abbreviation runner :=
  (convolution_runner NUM_TEST_CASES INPUT_BYTES DATA_ALIGNMENT calc_padding g).

(** One turn over the plan, event by event. *)
Lemma iteration_body_unfold
    (ha hw : ptr) (ls : list layer_t) (lnum : Z) (curr : layer_t)
    (cfg : conv_cfg_t) (r2d img kern iter start_chan : Z) (result_loc : ptr)
    (d : dims_t) :
  layer_at ls lnum = Some curr ->
  iteration_at cfg iter = Some d ->
  iteration_body g ha hw ls lnum curr cfg r2d img kern iter (start_chan, result_loc) =
  (weight_load g hw curr kern (to_int start_chan) (height d)
   :: (if needs_input_dma_load curr
       then [activation_load g ha curr img (to_int start_chan) (height d)]
       else [])
   ++ [EvConv3d (umem g) (spad0 g) (iteration_descriptor curr cfg (height d)) (spad1 g);
       EvReduction (spad1 g) (iteration_descriptor curr cfg (height d)) (umem g);
       EvDmaStore result_loc (umem g) (to_size_t (to_size_t r2d * sizeof_float))],
   inr (to_unsigned (start_chan + height d), ptr_add result_loc r2d)).
Proof.
  intros Hl Hd. unfold iteration_body. rewrite Hd. cbn [of_option].
  rewrite bind_ret. unfold convolution_layer_hw. rewrite Hl. cbn [of_option].
  rewrite bind_ret. unfold reduction_hw.
  rewrite iteration_layer_fields.
  change (needs_input_dma_load (iteration_descriptor curr cfg (height d)))
    with (needs_input_dma_load curr).
  destruct (needs_input_dma_load curr); reflexivity.
Qed.

(** The events of turn [j] of the plan are events of the kernel's turn. *)
Lemma kernel_body_iteration
    (temp ha hw hr : ptr) (ls : list layer_t) (lnum : Z) (curr : layer_t)
    (cfg : conv_cfg_t) (img kern : Z) (j : nat) (d : dims_t) (ev : event) :
  layer_at ls lnum = Some curr ->
  Z.of_nat (length (iteration cfg)) = num_iterations cfg ->
  iteration cfg !! j = Some d ->
  ev ∈ trace (iteration_body g ha hw ls lnum curr cfg (output_2d_size curr) img kern
                (Z.of_nat j)
                (start_chan_at cfg j,
                 ptr_add temp (Z.of_nat j * output_2d_size curr))) ->
  ev ∈ trace (kernel_body g ha hw ls lnum curr cfg temp hr img kern).
Proof.
  intros Hl Hlen Hd Hev. unfold kernel_body. rewrite trace_bind.
  apply elem_of_app. left.
  pose proof (iteration_loop_state g temp ha hw ls lnum curr cfg
                (output_2d_size curr) img kern (length (iteration cfg)) Hl
                ltac:(lia)) as Hall.
  replace (Z.to_nat (num_iterations cfg)) with (length (iteration cfg)) by lia.
  destruct (for_loop_prefix _ _ _ _ _ j Hall
              ltac:(eapply lookup_lt_Some; exact Hd))
    as (sj & sj' & Hpre & _ & Hsub).
  rewrite iteration_loop_state in Hpre
    by (auto; apply Nat.lt_le_incl; eapply lookup_lt_Some; exact Hd).
  injection Hpre as <-. rewrite Z.add_0_l in Hsub. apply Hsub, Hev.
Qed.

(** The events of a kernel's turn are events of a run that ends well. *)
Lemma runner_contains_kernel
    (temp ha hw hr : ptr) (ls : list layer_t) (lnum : Z) (curr : layer_t)
    (cfg : conv_cfg_t) (img kern : Z) (ev : event) :
  layer_at ls lnum = Some curr ->
  outcome (divide_work ls lnum) = inr cfg ->
  outcome (runner temp ha hw ls lnum hr) = inr tt ->
  0 <= img < NUM_TEST_CASES ->
  0 <= kern < height (outputs curr) ->
  ev ∈ trace (kernel_body g ha hw ls lnum curr cfg temp hr img kern) ->
  ev ∈ trace (runner temp ha hw ls lnum hr) /\
  outcome (kernel_body g ha hw ls lnum curr cfg temp hr img kern) = inr tt.
Proof.
  intros Hl Hcfg Hok Himg Hkern Hev.
  destruct (runner_unfold _ _ _ _ g temp ha hw hr ls lnum curr cfg Hl Hcfg)
    as [Ht Ho].
  rewrite Ht. rewrite Ho in Hok.
  destruct (for_loop_complete _ _ _ _ _ img Hok ltac:(lia))
    as ([] & [] & Hok1 & Hsub1).
  destruct (for_loop_complete _ _ _ _ _ kern Hok1 ltac:(lia))
    as ([] & [] & Hok2 & Hsub2).
  split; [apply Hsub1, Hsub2, Hev | exact Hok2].
Qed.

End RunnerTraces.

(** An event of a loop comes from a turn, run from the state the turns
    before it left. *)
Lemma for_loop_trace_origin_state {S : Type} (body : Z -> S -> M S)
    (fuel : nat) (i : Z) (s : S) (ev : event) :
  ev ∈ trace (for_loop fuel i s body) ->
  exists (j : nat) sj,
    (j < fuel)%nat /\
    outcome (for_loop j i s body) = inr sj /\
    ev ∈ trace (body (i + Z.of_nat j) sj).
Proof.
  revert i s. induction fuel as [|fuel IH]; intros i s Hev; [inversion Hev|].
  cbn [for_loop] in Hev. rewrite trace_bind in Hev.
  apply elem_of_app in Hev as [Hev | Hev].
  - exists 0%nat, s. rewrite Z.add_0_r. split; [lia|]. split; [reflexivity | exact Hev].
  - destruct (outcome (body i s)) as [e|s1] eqn:Hbody; [inversion Hev|].
    apply IH in Hev as (j & sj & Hj & Hpre & Hev).
    exists (Datatypes.S j), sj. split; [lia|]. split.
    + cbn [for_loop]. rewrite outcome_bind, Hbody. exact Hpre.
    + replace (i + Z.of_nat (Datatypes.S j)) with (i + 1 + Z.of_nat j) by lia.
      exact Hev.
Qed.

Lemma total_channels_snoc (p : list dims_t) (d : dims_t) :
  total_channels (p ++ [d]) = total_channels p + height d.
Proof. rewrite total_channels_app. cbn. lia. Qed.

Section RunnerProperties.

Variable NUM_TEST_CASES : Z.
Variable INPUT_BYTES : list layer_t -> Z -> Z.
Variable DATA_ALIGNMENT : Z.
Variable calc_padding : Z -> Z -> Z.
Variable g : globals.

Local Abbreviation divide_work :=
  (convolution_divide_work NUM_TEST_CASES INPUT_BYTES DATA_ALIGNMENT calc_padding).
Local Abbreviation runner :=
  (convolution_runner NUM_TEST_CASES INPUT_BYTES DATA_ALIGNMENT calc_padding g).

Lemma plan_length (ls : list layer_t) (lnum : Z) (cfg : conv_cfg_t) :
  outcome (divide_work ls lnum) = inr cfg ->
  Z.of_nat (length (iteration cfg)) = num_iterations cfg.
Proof.
  intros Hcfg.
  destruct (divide_work_plan_inv _ _ _ _ ls lnum cfg Hcfg)
    as (l & _ & [[_ ->] | (Hob & Hm & ->)]); cbn [iteration num_iterations].
  - reflexivity.
  - pose proof (tiled_num_iterations_range l Hob Hm).
    rewrite divide_loop_length. lia.
Qed.

(** In a plan of the work divider the channel counts before the last
    iteration are not negative. *)
Lemma plan_prefix_nonneg (ls : list layer_t) (lnum : Z) (cfg : conv_cfg_t)
    (i j : nat) (d d' : dims_t) :
  outcome (divide_work ls lnum) = inr cfg ->
  iteration cfg !! j = Some d -> (i < j)%nat -> iteration cfg !! i = Some d' ->
  0 <= height d'.
Proof.
  intros Hcfg Hd Hij Hd'.
  destruct (divide_work_plan_inv _ _ _ _ ls lnum cfg Hcfg)
    as (l & _ & [[_ ->] | (Hob & Hm & ->)]); cbn [iteration] in *.
  - apply lookup_lt_Some in Hd. cbn in Hd. lia.
  - destruct (tiling_operands l Hob) as [Hocs _].
    pose proof (max_channels_bound l Hocs) as Hmb. unfold SPAD_SIZE in Hmb.
    apply (divide_loop_height_bounds DATA_ALIGNMENT calc_padding l
             (Z.to_nat (tiled_num_iterations l)) (input_channels l) d');
      [lia | apply to_unsigned_range | eapply list_elem_of_lookup_2; exact Hd'].
Qed.

Lemma start_chan_at_exact (ls : list layer_t) (lnum : Z) (cfg : conv_cfg_t)
    (j : nat) (d : dims_t) :
  outcome (divide_work ls lnum) = inr cfg ->
  iteration cfg !! j = Some d ->
  total_channels (take j (iteration cfg)) < 2 ^ 32 ->
  start_chan_at cfg j = total_channels (take j (iteration cfg)) /\
  0 <= total_channels (take j (iteration cfg)).
Proof.
  intros Hcfg. revert d. induction j as [|j IH]; intros d Hd Hsum.
  - unfold start_chan_at. rewrite take_0. unfold total_channels. cbn [foldl foldr].
    split; [reflexivity | lia].
  - destruct (iteration cfg !! j) as [dj|] eqn:Hdj;
      [|apply lookup_ge_None in Hdj; apply lookup_lt_Some in Hd; lia].
    pose proof (plan_prefix_nonneg ls lnum cfg j (S j) d dj Hcfg Hd ltac:(lia) Hdj)
      as Hnn.
    rewrite (take_S_r _ _ _ Hdj), total_channels_snoc in *.
    destruct (IH dj eq_refl ltac:(lia)) as [IH1 IH2].
    rewrite (start_chan_at_S cfg j dj Hdj), IH1.
    split; [apply to_unsigned_small; lia | lia].
Qed.

(** X5. In a run that ends well, iteration [j] of every kernel's turn
    loads the weights (and, when the layer loads its input, the
    activations) of the channels that begin where the iterations before it
    ended, and stores its reduced result in slot [j] of [temp_result]. *)
Theorem runner_channel_slices
    (temp ha hw hr : ptr) (ls : list layer_t) (lnum : Z) (curr : layer_t)
    (cfg : conv_cfg_t) (img kern : Z) (j : nat) (d : dims_t) :
  layer_at ls lnum = Some curr ->
  outcome (divide_work ls lnum) = inr cfg ->
  outcome (runner temp ha hw ls lnum hr) = inr tt ->
  0 <= img < NUM_TEST_CASES ->
  0 <= kern < height (outputs curr) ->
  iteration cfg !! j = Some d ->
  total_channels (take j (iteration cfg)) < 2 ^ 31 ->
  let start := total_channels (take j (iteration cfg)) in
  weight_load g hw curr kern start (height d)
    ∈ trace (runner temp ha hw ls lnum hr) /\
  (needs_input_dma_load curr = true ->
   activation_load g ha curr img start (height d)
     ∈ trace (runner temp ha hw ls lnum hr)) /\
  EvDmaStore (ptr_add temp (Z.of_nat j * output_2d_size curr)) (umem g)
    (to_size_t (to_size_t (output_2d_size curr) * sizeof_float))
    ∈ trace (runner temp ha hw ls lnum hr).
Proof.
  intros Hl Hcfg Hok Himg Hkern Hd Hsum start.
  pose proof (plan_length ls lnum cfg Hcfg) as Hlen.
  destruct (start_chan_at_exact ls lnum cfg j d Hcfg Hd ltac:(lia)) as [Hst Hnn].
  fold start in Hst, Hnn, Hsum.
  assert (forall ev,
            ev ∈ trace (iteration_body g ha hw ls lnum curr cfg (output_2d_size curr)
                          img kern (Z.of_nat j)
                          (start_chan_at cfg j,
                           ptr_add temp (Z.of_nat j * output_2d_size curr))) ->
            ev ∈ trace (runner temp ha hw ls lnum hr)) as Hin.
  { intros ev Hev.
    eapply runner_contains_kernel; try eassumption.
    eapply kernel_body_iteration; eassumption. }
  rewrite (iteration_body_unfold g ha hw ls lnum curr cfg _ img kern _ _ _ d Hl
             ltac:(rewrite iteration_at_of_nat; exact Hd)) in Hin.
  cbn [trace fst] in Hin. rewrite Hst, (to_int_small start) in Hin by lia.
  split; [apply Hin, list_elem_of_here|]. split.
  - intros Hflag. apply Hin. rewrite Hflag. in_list.
  - apply Hin. destruct (needs_input_dma_load curr); in_list.
Qed.

End RunnerProperties.

Section RunnerCounts.

Variable NUM_TEST_CASES : Z.
Variable INPUT_BYTES : list layer_t -> Z -> Z.
Variable DATA_ALIGNMENT : Z.
Variable calc_padding : Z -> Z -> Z.
Variable g : globals.

Local Abbreviation divide_work :=
  (convolution_divide_work NUM_TEST_CASES INPUT_BYTES DATA_ALIGNMENT calc_padding).
Local Abbreviation runner :=
  (convolution_runner NUM_TEST_CASES INPUT_BYTES DATA_ALIGNMENT calc_padding g).

Lemma iteration_loop_count
    (p : event -> bool) (c : nat)
    (temp ha hw : ptr) (ls : list layer_t) (lnum : Z) (curr : layer_t)
    (cfg : conv_cfg_t) (r2d img kern : Z) (j : nat) :
  layer_at ls lnum = Some curr ->
  (forall i d st, iteration cfg !! i = Some d ->
     count_events p
       (trace (iteration_body g ha hw ls lnum curr cfg r2d img kern (Z.of_nat i) st))
     = c) ->
  (j <= length (iteration cfg))%nat ->
  count_events p
    (trace (for_loop j 0 (0, temp)
              (iteration_body g ha hw ls lnum curr cfg r2d img kern)))
  = (j * c)%nat.
Proof.
  intros Hl Hc. induction j as [|j IH]; intros Hj; [reflexivity|].
  rewrite for_loop_snoc, trace_bind, count_events_app, IH by lia.
  rewrite iteration_loop_state by (auto; lia). rewrite Z.add_0_l.
  destruct (iteration cfg !! j) as [d|] eqn:Hd;
    [|apply lookup_ge_None in Hd; lia].
  rewrite (Hc j d _ Hd). lia.
Qed.

(** The events of one kernel's turn that ends well, by kind. *)
Lemma kernel_body_counts
    (temp ha hw hr : ptr) (ls : list layer_t) (lnum : Z) (curr : layer_t)
    (cfg : conv_cfg_t) (img kern : Z) :
  layer_at ls lnum = Some curr ->
  Z.of_nat (length (iteration cfg)) = num_iterations cfg ->
  outcome (kernel_body g ha hw ls lnum curr cfg temp hr img kern) = inr tt ->
  umem g <> spad0 g ->
  let t := trace (kernel_body g ha hw ls lnum curr cfg temp hr img kern) in
  let n := Z.to_nat (num_iterations cfg) in
  count_events is_conv3d t = n /\
  count_events is_memcpy t = 1%nat /\
  count_events is_reduction t =
    (n + (if (1 <? num_iterations cfg)%Z then 1 else 0))%nat /\
  count_events (is_activation_load g) t =
    (if needs_input_dma_load curr then n else 0%nat).
Proof.
  intros Hl Hlen Hok Hne t n.
  assert (Hbody : forall p c,
    (forall i d st, iteration cfg !! i = Some d ->
       count_events p
         (trace (iteration_body g ha hw ls lnum curr cfg (output_2d_size curr)
                   img kern (Z.of_nat i) st)) = c) ->
    count_events p t =
    (n * c + count_events p (trace (final_reduction g curr cfg
                                      (output_2d_size curr) temp))
     + if p (output_copy temp hr curr img kern) then 1 else 0)%nat).
  { intros p c Hc. subst t. unfold kernel_body.
    rewrite trace_bind, count_events_app.
    rewrite (iteration_loop_count p c) by (auto; lia).
    rewrite iteration_loop_state by (auto; lia).
    rewrite trace_bind, count_events_app.
    rewrite kernel_body_outcome in Hok by assumption.
    rewrite final_reduction_outcome.
    destruct ((1 <? num_iterations cfg)
              && negb (final_rounds (output_2d_size curr) (num_iterations cfg) =? 1));
      [discriminate Hok|].
    subst n. cbn [trace emit fst count_events]. unfold output_copy. lia. }
  assert (Hfinal : forall p,
    count_events p (trace (final_reduction g curr cfg (output_2d_size curr) temp)) =
    if 1 <? num_iterations cfg
    then ((if p (EvReduction (spad1 g)
                   (final_layer curr
                      (to_int (min (num_iterations cfg)
                                 (to_unsigned (Z.quot SPAD_SIZE (output_2d_size curr))))))
                   (umem g)) then 1 else 0)
          + (if p (EvDmaStore temp (umem g)
                     (to_size_t (to_size_t (output_2d_size curr) * sizeof_float)))
             then 1 else 0))%nat
    else 0%nat).
  { intros p.
    rewrite kernel_body_outcome in Hok by assumption.
    destruct (1 <? num_iterations cfg) eqn:Hn;
      [apply Z.ltb_lt in Hn; rewrite andb_true_l in Hok
      | apply Z.ltb_ge in Hn; rewrite andb_false_l in Hok].
    - destruct (final_rounds (output_2d_size curr) (num_iterations cfg) =? 1) eqn:Hr;
        [apply Z.eqb_eq in Hr | discriminate Hok].
      assert (output_2d_size curr <> 0) as Hz.
      { intros Hz. apply final_rounds_one_spec in Hr.
        rewrite Hz, Z.mul_0_l in Hr. change (to_unsigned 0) with 0 in Hr. lia. }
      rewrite (proj2 (proj2 (final_reduction_cases g curr cfg _ temp)) Hn Hr Hz).
      cbn [trace fst count_events]. lia.
    - rewrite (proj1 (final_reduction_cases g curr cfg _ temp) Hn). reflexivity. }
  assert (Hunf := fun i d sc loc (Hd : iteration cfg !! i = Some d) =>
    iteration_body_unfold g ha hw ls lnum curr cfg (output_2d_size curr) img kern
      (Z.of_nat i) sc loc d Hl
      ltac:(rewrite iteration_at_of_nat; exact Hd)).
  split; [|split; [|split]].
  - rewrite (Hbody is_conv3d 1%nat), Hfinal.
    + destruct (1 <? num_iterations cfg); cbn; lia.
    + intros i d [sc loc] Hd. rewrite (Hunf i d sc loc Hd). cbn [trace fst].
      destruct (needs_input_dma_load curr); reflexivity.
  - rewrite (Hbody is_memcpy 0%nat), Hfinal.
    + destruct (1 <? num_iterations cfg); cbn; lia.
    + intros i d [sc loc] Hd. rewrite (Hunf i d sc loc Hd). cbn [trace fst].
      destruct (needs_input_dma_load curr); reflexivity.
  - rewrite (Hbody is_reduction 1%nat), Hfinal.
    + destruct (1 <? num_iterations cfg); cbn; lia.
    + intros i d [sc loc] Hd. rewrite (Hunf i d sc loc Hd). cbn [trace fst].
      destruct (needs_input_dma_load curr); reflexivity.
  - assert (bool_decide (spad0 g = umem g) = false) as Hb
      by (apply bool_decide_eq_false; congruence).
    rewrite (Hbody (is_activation_load g)
               (if needs_input_dma_load curr then 1 else 0)%nat), Hfinal.
    + destruct (1 <? num_iterations cfg), (needs_input_dma_load curr); cbn; lia.
    + intros i d [sc loc] Hd. rewrite (Hunf i d sc loc Hd). cbn [trace fst].
      unfold weight_load, activation_load.
      destruct (needs_input_dma_load curr); cbn; rewrite Hb;
        rewrite ?bool_decide_eq_true_2 by reflexivity; reflexivity.
Qed.

(** The trace of a run that ends well: the turns of all kernels of all
    images, in order. *)
Lemma runner_trace_success
    (temp ha hw hr : ptr) (ls : list layer_t) (lnum : Z) (curr : layer_t)
    (cfg : conv_cfg_t) :
  layer_at ls lnum = Some curr ->
  outcome (divide_work ls lnum) = inr cfg ->
  outcome (runner temp ha hw ls lnum hr) = inr tt ->
  trace (runner temp ha hw ls lnum hr) =
  flat_map (fun img =>
              flat_map (fun kern =>
                          trace (kernel_body g ha hw ls lnum curr cfg temp hr img kern))
                (seqZ 0 (Z.of_nat (Z.to_nat (height (outputs curr))))))
    (seqZ 0 (Z.of_nat (Z.to_nat NUM_TEST_CASES))) /\
  (0 < NUM_TEST_CASES -> 0 < height (outputs curr) ->
   forall img kern,
     outcome (kernel_body g ha hw ls lnum curr cfg temp hr img kern) = inr tt).
Proof.
  intros Hl Hcfg Hok.
  pose proof (plan_length _ _ _ _ ls lnum cfg Hcfg) as Hlen.
  destruct (runner_unfold _ _ _ _ g temp ha hw hr ls lnum curr cfg Hl Hcfg)
    as [Ht Ho].
  rewrite Ht. rewrite Ho in Hok.
  rewrite (runner_loops_outcome NUM_TEST_CASES g temp ha hw hr ls lnum curr cfg Hl Hlen)
    in Hok.
  pose proof (fun img kern =>
                kernel_body_outcome g temp ha hw hr ls lnum curr cfg img kern Hl Hlen)
    as Hk.
  rewrite <- !andb_assoc in Hok.
  destruct (0 <? NUM_TEST_CASES) eqn:Hpos;
    [apply Z.ltb_lt in Hpos | apply Z.ltb_ge in Hpos].
  2:{ replace (Z.to_nat NUM_TEST_CASES) with 0%nat by lia. split; [reflexivity | lia]. }
  destruct (0 <? height (outputs curr)) eqn:Hkpos;
    [apply Z.ltb_lt in Hkpos | apply Z.ltb_ge in Hkpos].
  2:{ replace (Z.to_nat (height (outputs curr))) with 0%nat by lia.
      split; [|lia].
      rewrite for_loop_unit by (intros; reflexivity). reflexivity. }
  rewrite !andb_true_l in Hok.
  assert (forall img kern,
            outcome (kernel_body g ha hw ls lnum curr cfg temp hr img kern) = inr tt)
    as Hall.
  { intros img kern. rewrite Hk.
    destruct ((1 <? num_iterations cfg)
              && negb (final_rounds (output_2d_size curr) (num_iterations cfg) =? 1));
      [discriminate Hok | reflexivity]. }
  split; [|intros _ _; exact Hall].
  rewrite for_loop_unit.
  - cbn [trace fst]. apply flat_map_ext. intros img.
    rewrite for_loop_unit by (intros; apply Hall). reflexivity.
  - intros img _. rewrite for_loop_unit; [reflexivity | intros; apply Hall].
Qed.

(** X6. A run that ends well calls the convolution kernel once per image,
    kernel and iteration and copies one finished slice per image and
    kernel; it calls the reduction once per iteration and once more per
    kernel when the plan has several iterations; it loads activations from
    the host once per iteration when the layer's input flag is set and
    never otherwise. *)
Theorem runner_event_counts
    (temp ha hw hr : ptr) (ls : list layer_t) (lnum : Z) (curr : layer_t)
    (cfg : conv_cfg_t) :
  layer_at ls lnum = Some curr ->
  outcome (divide_work ls lnum) = inr cfg ->
  outcome (runner temp ha hw ls lnum hr) = inr tt ->
  umem g <> spad0 g ->
  let t := trace (runner temp ha hw ls lnum hr) in
  let pairs := (Z.to_nat NUM_TEST_CASES * Z.to_nat (height (outputs curr)))%nat in
  let n := Z.to_nat (num_iterations cfg) in
  count_events is_conv3d t = (pairs * n)%nat /\
  count_events is_memcpy t = pairs /\
  count_events is_reduction t =
    (pairs * (n + (if (1 <? num_iterations cfg)%Z then 1 else 0)))%nat /\
  count_events (is_activation_load g) t =
    (if needs_input_dma_load curr then pairs * n else 0)%nat.
Proof.
  intros Hl Hcfg Hok Hne t pairs n.
  pose proof (plan_length _ _ _ _ ls lnum cfg Hcfg) as Hlen.
  destruct (runner_trace_success temp ha hw hr ls lnum curr cfg Hl Hcfg Hok)
    as [Ht Hall].
  assert (Hcount : forall p c,
    (forall img kern,
       outcome (kernel_body g ha hw ls lnum curr cfg temp hr img kern) = inr tt ->
       count_events p
         (trace (kernel_body g ha hw ls lnum curr cfg temp hr img kern)) = c) ->
    count_events p t = (pairs * c)%nat).
  { intros p c Hc. subst t pairs. rewrite Ht.
    destruct (Z.to_nat NUM_TEST_CASES) as [|tn] eqn:Et; [reflexivity|].
    destruct (Z.to_nat (height (outputs curr))) as [|kn] eqn:Ek.
    { rewrite (count_events_flat_map _ _ _ 0%nat) by (intros; reflexivity). lia. }
    specialize (Hall ltac:(lia) ltac:(lia)).
    rewrite (count_events_flat_map _ _ _ (S kn * c)%nat).
    - rewrite length_seqZ. lia.
    - intros img _. rewrite (count_events_flat_map _ _ _ c).
      + rewrite length_seqZ. lia.
      + intros kern _. apply Hc, Hall. }
  pose proof (fun img kern Hk =>
    kernel_body_counts temp ha hw hr ls lnum curr cfg img kern Hl Hlen Hk Hne) as Hk.
  cbv zeta in Hk.
  split; [|split; [|split]].
  - apply Hcount. intros img kern Hkok. apply (Hk img kern Hkok).
  - rewrite (Hcount is_memcpy 1%nat); [lia|].
    intros img kern Hkok. apply (Hk img kern Hkok).
  - apply Hcount. intros img kern Hkok. apply (Hk img kern Hkok).
  - rewrite (Hcount (is_activation_load g)
               (if needs_input_dma_load curr then n else 0)%nat).
    + destruct (needs_input_dma_load curr); lia.
    + intros img kern Hkok. apply (Hk img kern Hkok).
Qed.

End RunnerCounts.

Section RunnerFrame.

Variable NUM_TEST_CASES : Z.
Variable INPUT_BYTES : list layer_t -> Z -> Z.
Variable DATA_ALIGNMENT : Z.
Variable calc_padding : Z -> Z -> Z.
Variable g : globals.

Local Abbreviation divide_work :=
  (convolution_divide_work NUM_TEST_CASES INPUT_BYTES DATA_ALIGNMENT calc_padding).
Local Abbreviation runner :=
  (convolution_runner NUM_TEST_CASES INPUT_BYTES DATA_ALIGNMENT calc_padding g).

(** What the loop over the plan writes: the three accelerator buffers and
    slots of [temp_result]. *)
Lemma iteration_loop_writes
    (temp ha hw : ptr) (ls : list layer_t) (lnum : Z) (curr : layer_t)
    (cfg : conv_cfg_t) (img kern : Z) (n : nat) (ev : event) (p : ptr) :
  layer_at ls lnum = Some curr ->
  (n <= length (iteration cfg))%nat ->
  ev ∈ trace (for_loop n 0 (0, temp)
                (iteration_body g ha hw ls lnum curr cfg (output_2d_size curr)
                   img kern)) ->
  written ev = Some p ->
  is_memcpy ev = false /\
  (p = umem g \/ p = spad0 g \/ p = spad1 g \/ blk p = blk temp).
Proof.
  intros Hl Hn Hev Hw.
  apply for_loop_trace_origin_state in Hev as (j & sj & Hj & Hpre & Hev).
  rewrite iteration_loop_state in Hpre by (auto; lia). injection Hpre as <-.
  rewrite Z.add_0_l in Hev.
  destruct (iteration cfg !! j) as [d|] eqn:Hd; [|apply lookup_ge_None in Hd; lia].
  rewrite (iteration_body_unfold g ha hw ls lnum curr cfg _ img kern _ _ _ d Hl
             ltac:(rewrite iteration_at_of_nat; exact Hd)) in Hev.
  cbn [trace fst] in Hev. unfold weight_load, activation_load in Hev.
  destruct (needs_input_dma_load curr); cbn [app] in Hev;
    repeat (apply elem_of_cons in Hev as [-> | Hev];
            [cbn in Hw; injection Hw as <-; split; [reflexivity|]; auto|]);
    inversion Hev.
Qed.

(** X7. A run that aborts has copied no finished slice and has written
    nothing but the accelerator buffers and [temp_result]: the caller's
    result buffer is as it was. *)
Theorem runner_abort_leaves_result
    (temp ha hw hr : ptr) (ls : list layer_t) (lnum : Z) (curr : layer_t)
    (e : failure) (ev : event) :
  layer_at ls lnum = Some curr ->
  outcome (runner temp ha hw ls lnum hr) = inl e ->
  ev ∈ trace (runner temp ha hw ls lnum hr) ->
  is_memcpy ev = false /\
  forall p, written ev = Some p ->
            p = umem g \/ p = spad0 g \/ p = spad1 g \/ blk p = blk temp.
Proof.
  intros Hl Hfail Hev.
  destruct (outcome (divide_work ls lnum)) as [e'|cfg] eqn:Hcfg.
  { unfold convolution_runner in Hev. rewrite Hl in Hev. cbn [of_option] in Hev.
    rewrite bind_ret, trace_bind, Hcfg, app_nil_r in Hev.
    apply divide_work_trace in Hev as (f & args & ->).
    split; [reflexivity | intros p Hp; discriminate Hp]. }
  pose proof (plan_length _ _ _ _ ls lnum cfg Hcfg) as Hlen.
  destruct (runner_unfold _ _ _ _ g temp ha hw hr ls lnum curr cfg Hl Hcfg)
    as [Ht Ho].
  rewrite Ht in Hev. rewrite Ho in Hfail.
  rewrite (runner_loops_outcome NUM_TEST_CASES g temp ha hw hr ls lnum curr cfg Hl Hlen)
    in Hfail.
  rewrite <- !andb_assoc in Hfail.
  destruct (0 <? NUM_TEST_CASES) eqn:Hpos; [apply Z.ltb_lt in Hpos | discriminate Hfail].
  destruct (0 <? height (outputs curr)) eqn:Hkpos;
    [apply Z.ltb_lt in Hkpos | discriminate Hfail].
  rewrite !andb_true_l in Hfail.
  destruct ((1 <? num_iterations cfg)
            && negb (final_rounds (output_2d_size curr) (num_iterations cfg) =? 1))
    eqn:Hbad; [|discriminate Hfail].
  pose proof (kernel_body_outcome g temp ha hw hr ls lnum curr cfg 0 0 Hl Hlen) as Hk.
  rewrite Hbad in Hk.
  destruct (Z.to_nat NUM_TEST_CASES) as [|tn] eqn:Et; [lia|].
  destruct (Z.to_nat (height (outputs curr))) as [|kn] eqn:Ek; [lia|].
  rewrite (for_loop_first_failure _ _ _ _ MultiRoundReduction) in Hev.
  2:{ rewrite (for_loop_first_failure _ _ _ _ MultiRoundReduction); [reflexivity|].
      exact Hk. }
  cbn [trace fst] in Hev.
  rewrite (for_loop_first_failure _ _ _ _ MultiRoundReduction) in Hev by exact Hk.
  cbn [trace fst] in Hev.
  unfold kernel_body in Hev. rewrite trace_bind in Hev.
  rewrite iteration_loop_state in Hev by (auto; lia).
  apply elem_of_app in Hev as [Hev | Hev].
  - split.
    + destruct (written ev) as [p|] eqn:Hw.
      * eapply iteration_loop_writes; try eassumption. lia.
      * destruct ev; try reflexivity; discriminate Hw.
    + intros p Hw. eapply iteration_loop_writes; try eassumption. lia.
  - rewrite trace_bind in Hev.
    pose proof (final_reduction_outcome g curr cfg (output_2d_size curr) temp) as Hf.
    rewrite Hbad in Hf. rewrite Hf, app_nil_r in Hev.
    apply andb_true_iff in Hbad as [Hn Hr].
    apply Z.ltb_lt in Hn. apply negb_true_iff, Z.eqb_neq in Hr.
    rewrite (proj1 (proj2 (final_reduction_cases g curr cfg _ temp)) Hn Hr) in Hev.
    inversion Hev.
Qed.

Lemma runner_success_plan
    (temp ha hw hr : ptr) (ls : list layer_t) (lnum : Z) (curr : layer_t) :
  layer_at ls lnum = Some curr ->
  outcome (runner temp ha hw ls lnum hr) = inr tt ->
  exists cfg, outcome (divide_work ls lnum) = inr cfg.
Proof.
  intros Hl Hok.
  destruct (outcome (divide_work ls lnum)) as [e|cfg] eqn:Hcfg; [|eauto].
  unfold convolution_runner in Hok. rewrite Hl in Hok. cbn [of_option] in Hok.
  rewrite bind_ret, outcome_bind, Hcfg in Hok. discriminate Hok.
Qed.

Lemma kernel_body_copy
    (temp ha hw hr : ptr) (ls : list layer_t) (lnum : Z) (curr : layer_t)
    (cfg : conv_cfg_t) (img kern : Z) :
  outcome (kernel_body g ha hw ls lnum curr cfg temp hr img kern) = inr tt ->
  output_copy temp hr curr img kern
    ∈ trace (kernel_body g ha hw ls lnum curr cfg temp hr img kern).
Proof.
  unfold kernel_body. rewrite outcome_bind, trace_bind.
  destruct (outcome (for_loop _ _ _ _)) as [e|st]; [discriminate|].
  rewrite outcome_bind, trace_bind.
  destruct (outcome (final_reduction _ _ _ _ _)) as [e|[]]; [discriminate|].
  intros _. apply elem_of_app. right. apply elem_of_app. right.
  apply list_elem_of_here.
Qed.

(** X8. A run that ends well copies the finished slice of every kernel of
    every image from [temp_result] into the result array, at the offset of
    [_result[img][kern]]; the slices of two different kernels or images do
    not overlap. *)
Theorem runner_output_slices
    (temp ha hw hr : ptr) (ls : list layer_t) (lnum : Z) (curr : layer_t)
    (img kern img' kern' : Z) :
  layer_at ls lnum = Some curr ->
  outcome (runner temp ha hw ls lnum hr) = inr tt ->
  0 <= img < NUM_TEST_CASES -> 0 <= kern < height (outputs curr) ->
  0 <= img' < NUM_TEST_CASES -> 0 <= kern' < height (outputs curr) ->
  0 <= rows (outputs curr) ->
  0 <= cols (outputs curr) + align_pad (outputs curr) < 2 ^ 31 ->
  rows (outputs curr) * (cols (outputs curr) + align_pad (outputs curr)) < 2 ^ 31 ->
  let slice := rows (outputs curr) * (cols (outputs curr) + align_pad (outputs curr)) in
  let dst := ptr_add hr ((img * height (outputs curr) + kern) * slice) in
  let dst' := ptr_add hr ((img' * height (outputs curr) + kern') * slice) in
  EvMemcpy dst temp (slice * sizeof_float) ∈ trace (runner temp ha hw ls lnum hr) /\
  ((img, kern) <> (img', kern') ->
   ofs dst + slice <= ofs dst' \/ ofs dst' + slice <= ofs dst).
Proof.
  intros Hl Hok Himg Hkern Himg' Hkern' Hrows Hcols Hsize slice dst dst'.
  assert (0 <= slice) as Hslice by (apply Z.mul_nonneg_nonneg; lia).
  split.
  - destruct (runner_success_plan temp ha hw hr ls lnum curr Hl Hok) as [cfg Hcfg].
    destruct (runner_trace_success NUM_TEST_CASES INPUT_BYTES DATA_ALIGNMENT
                calc_padding g temp ha hw hr ls lnum curr cfg Hl Hcfg Hok)
      as [_ Hall].
    specialize (Hall ltac:(lia) ltac:(lia) img kern).
    pose proof (kernel_body_copy temp ha hw hr ls lnum curr cfg img kern Hall) as Hin.
    apply (runner_contains_kernel NUM_TEST_CASES INPUT_BYTES DATA_ALIGNMENT
             calc_padding g temp ha hw hr ls lnum curr cfg img kern _ Hl Hcfg Hok
             Himg Hkern) in Hin as [Hin _].
    unfold output_copy, array_4d, output_2d_size in Hin.
    rewrite (to_int_small (cols (outputs curr) + align_pad (outputs curr))) in Hin
      by lia.
    fold slice in Hin. rewrite (to_int_small slice) in Hin by lia.
    unfold to_size_t, sizeof_float in Hin.
    rewrite (Z.mod_small slice) in Hin by lia.
    rewrite (Z.mod_small (slice * 4)) in Hin by lia.
    subst dst. unfold sizeof_float.
    replace ((img * height (outputs curr) + kern) * slice)
      with ((img * height (outputs curr) + kern) * rows (outputs curr)
            * (cols (outputs curr) + align_pad (outputs curr)))
      by (subst slice; ring).
    exact Hin.
  - intros Hne. subst dst dst'. cbn [ofs ptr_add].
    set (K := height (outputs curr)) in *. clearbody K. clearbody slice.
    assert (img * K + kern <> img' * K + kern') as Hidx.
    { intros Heq. apply Hne.
      assert (img = img') by nia. subst img'. f_equal. lia. }
    destruct (Z_lt_le_dec (img * K + kern) (img' * K + kern')) as [Hlt | Hge].
    + left. nia.
    + right. nia.
Qed.

End RunnerFrame.

(** ** More on the DMA pass *)

Lemma with_flags_flags (l : layer_t) (a b : bool) :
  needs_input_dma_load (with_flags l a b) = a /\
  needs_output_dma_store (with_flags l a b) = b.
Proof. split; reflexivity. Qed.

Lemma with_flags_shape (l l' : layer_t) (a b : bool) :
  with_flags l false false = with_flags l' false false ->
  with_flags l a b = with_flags l' a b.
Proof.
  unfold with_flags, set_needs_input_dma_load, set_needs_output_dma_store.
  cbn. intros H. injection H as -> -> -> -> -> -> -> -> ->. reflexivity.
Qed.

Lemma with_flags_idem (l : layer_t) (a b a' b' : bool) :
  with_flags (with_flags l a b) a' b' = with_flags l a' b'.
Proof. reflexivity. Qed.

Lemma store_flag_shape (depth : Z) (ls ls' : list layer_t) (i : nat) :
  (fun l => with_flags l false false) <$> ls
  = (fun l => with_flags l false false) <$> ls' ->
  store_flag depth ls i = store_flag depth ls' i.
Proof.
  intros H.
  assert (forall k, (fun l => with_flags l false false) <$> ls !! k
                    = (fun l => with_flags l false false) <$> ls' !! k) as Hk
    by (intros k; rewrite <- !list_lookup_fmap, H; reflexivity).
  assert (forall k, match ls !! k, ls' !! k with
                    | Some l, Some l' =>
                        type l = type l' /\ activation l = activation l' /\
                        input_preprocessing l = input_preprocessing l'
                    | None, None => True
                    | _, _ => False
                    end) as Hf.
  { intros k. specialize (Hk k).
    destruct (ls !! k) as [l|], (ls' !! k) as [l'|]; cbn in Hk;
      try discriminate Hk; [|exact I].
    injection Hk as Ht Ha _ _ _ _ _ Hp _. auto. }
  destruct i as [|i]; [reflexivity|]. unfold store_flag.
  pose proof (Hf (S i)) as H1. pose proof (Hf (S (S i))) as H2.
  destruct (ls !! S i) as [l|], (ls' !! S i) as [l'|]; try contradiction;
    [|reflexivity].
  destruct H1 as (-> & -> & ->).
  destruct (ls !! S (S i)) as [n|], (ls' !! S (S i)) as [n'|]; try contradiction;
    [|reflexivity].
  destruct H2 as (-> & _). reflexivity.
Qed.

Lemma flagged_shape (depth : Z) (ls ls' : list layer_t) :
  (fun l => with_flags l false false) <$> ls
  = (fun l => with_flags l false false) <$> ls' ->
  flagged_upto depth ls (length ls) = flagged_upto depth ls' (length ls').
Proof.
  intros H.
  assert (length ls = length ls') as Hlen
    by (rewrite <- (length_fmap (fun l => with_flags l false false) ls), H;
        apply length_fmap).
  apply list_eq. intros i. rewrite !flagged_upto_lookup, <- Hlen.
  assert ((fun l => with_flags l false false) <$> ls !! i
          = (fun l => with_flags l false false) <$> ls' !! i) as Hi
    by (rewrite <- !list_lookup_fmap, H; reflexivity).
  destruct (ls !! i) as [l|] eqn:Hl, (ls' !! i) as [l'|] eqn:Hl'; cbn in Hi;
    try discriminate Hi; [|reflexivity].
  assert (with_flags l false false = with_flags l' false false) as Hi'
    by (unfold with_flags, set_needs_input_dma_load, set_needs_output_dma_store
          in *; cbn in *; congruence).
  clear Hi. cbn [fmap option_fmap option_map].
  replace (i <? length ls)%nat with true
    by (symmetry; apply Nat.ltb_lt; eapply lookup_lt_Some; exact Hl).
  f_equal.
  assert (load_flag depth ls i = load_flag depth ls' i) as ->
    by (destruct i; [reflexivity | apply store_flag_shape, H]).
  rewrite (store_flag_shape depth ls ls' i H).
  apply with_flags_shape, Hi'.
Qed.

Lemma flagged_keeps_shape (depth : Z) (ls : list layer_t) :
  (fun l => with_flags l false false) <$> flagged_upto depth ls (length ls)
  = (fun l => with_flags l false false) <$> ls.
Proof.
  apply list_eq. intros i. rewrite !list_lookup_fmap, flagged_upto_lookup.
  destruct (ls !! i) as [l|] eqn:Hl; [|reflexivity].
  cbn [fmap option_fmap option_map].
  replace (i <? length ls)%nat with true
    by (symmetry; apply Nat.ltb_lt; eapply lookup_lt_Some; exact Hl).
  reflexivity.
Qed.

(** X9. The pass changes the two DMA flags and nothing else: the depth,
    the number of layers and every other field of every layer are as
    before. *)
Theorem dma_pass_frame (network : network_t) (i : nat) (l : layer_t) :
  depth network = Z.of_nat (length (layers network)) ->
  layers network !! i = Some l ->
  exists net' l',
    outcome (set_dma_requirements network) = inr net' /\
    depth net' = depth network /\
    length (layers net') = length (layers network) /\
    layers net' !! i = Some l' /\
    type l' = type l /\ activation l' = activation l /\
    inputs l' = inputs l /\ weights l' = weights l /\ outputs l' = outputs l /\
    c_padding l' = c_padding l /\ pool l' = pool l /\
    input_preprocessing l' = input_preprocessing l /\
    result_in_temp l' = result_in_temp l.
Proof.
  intros Hd Hl. eexists _, _.
  split; [apply set_dma_requirements_spec, Hd|]. cbn [layers depth].
  split; [reflexivity|]. split; [apply flagged_upto_length|].
  split; [apply flagged_final_lookup, Hl|].
  repeat split.
Qed.

(** X10. The flags the pass computes do not depend on the flags the layers
    held before: two networks that differ in those flags only end equal,
    and a second pass changes nothing. *)
Theorem dma_pass_ignores_old_flags (network other : network_t) :
  depth network = Z.of_nat (length (layers network)) ->
  depth other = depth network ->
  (fun l => with_flags l false false) <$> layers other
  = (fun l => with_flags l false false) <$> layers network ->
  exists net',
    outcome (set_dma_requirements network) = inr net' /\
    outcome (set_dma_requirements other) = inr net' /\
    outcome (set_dma_requirements net') = inr net'.
Proof.
  intros Hd Hdepth Hshape.
  assert (length (layers other) = length (layers network)) as Hlen
    by (rewrite <- (length_fmap (fun l => with_flags l false false) (layers other)),
          Hshape; apply length_fmap).
  eexists. split; [apply set_dma_requirements_spec, Hd|]. split.
  - rewrite set_dma_requirements_spec by lia.
    rewrite Hdepth, (flagged_shape _ _ _ Hshape). reflexivity.
  - rewrite set_dma_requirements_spec
      by (cbn [layers depth]; rewrite flagged_upto_length; exact Hd).
    cbn [layers depth].
    rewrite (flagged_shape _ _ _ (flagged_keeps_shape (depth network) (layers network))).
    reflexivity.
Qed.

Lemma dma_print_loop_trace (depth : Z) (ls : list layer_t) (fuel k : nat) :
  depth = Z.of_nat (length ls) ->
  (k + fuel = length ls)%nat ->
  trace (dma_print_loop fuel depth (Z.of_nat k) ls) =
  imap (fun i l =>
          EvPrintf dma_format
            [Z.of_nat (k + i); Z.b2z (needs_input_dma_load l);
             Z.b2z (needs_output_dma_store l)])
    (drop k ls).
Proof.
  intros Hd. revert k. induction fuel as [|fuel IH]; intros k Hk.
  - rewrite drop_ge by lia. reflexivity.
  - cbn [dma_print_loop].
    replace (Z.of_nat k <? depth) with true by (symmetry; apply Z.ltb_lt; lia).
    rewrite layer_at_of_nat.
    destruct (ls !! k) as [l|] eqn:Hl; [|apply lookup_ge_None in Hl; lia].
    cbn [of_option]. rewrite bind_ret, trace_bind. cbn [emit trace outcome fst snd].
    replace (Z.of_nat k + 1) with (Z.of_nat (S k)) by lia.
    rewrite IH by lia.
    rewrite (drop_S _ _ _ Hl). cbn [imap app].
    rewrite Nat.add_0_r. f_equal.
    apply imap_ext. intros i x _. cbn. do 3 f_equal. lia.
Qed.

(** X11. The pass prints one line per layer, in order: the layer's number
    and the two flags it ends with. *)
Theorem dma_pass_report (network : network_t) :
  depth network = Z.of_nat (length (layers network)) ->
  exists net',
    outcome (set_dma_requirements network) = inr net' /\
    trace (set_dma_requirements network) =
    imap (fun i l =>
            EvPrintf dma_format
              [Z.of_nat i; Z.b2z (needs_input_dma_load l);
               Z.b2z (needs_output_dma_store l)])
      (layers net').
Proof.
  intros Hd. eexists. split; [apply set_dma_requirements_spec, Hd|].
  cbn [layers]. unfold set_dma_requirements.
  replace (Z.to_nat (depth network)) with (length (layers network)) by lia.
  pose proof (dma_loop_spec (depth network) (layers network)
                (length (layers network)) 0 Hd ltac:(lia)) as Hloop.
  rewrite flagged_upto_0 in Hloop. change (Z.of_nat 0) with 0 in Hloop.
  rewrite Hloop, bind_ret, trace_then_ret.
  change 0 with (Z.of_nat 0).
  rewrite dma_print_loop_trace;
    [ rewrite drop_0; reflexivity
    | rewrite flagged_upto_length; exact Hd
    | rewrite flagged_upto_length; lia ].
Qed.

(** ** Pooling *)

(** X12. [pooling_layer] completes exactly on a layer of the array whose
    pooling kind is [MAX]; it then returns [result] after one max-pooling
    call from [activations] into [result].  Any other call stops before
    anything is computed. *)
Theorem pooling_layer_max_only (activations : ptr) (ls : list layer_t)
    (lnum : Z) (result : ptr) :
  let call := pooling_layer activations ls lnum result in
  (forall p, outcome call = inr p <->
             p = result /\ exists l, layer_at ls lnum = Some l /\ pool l = MAX) /\
  (forall p l, outcome call = inr p -> layer_at ls lnum = Some l ->
               trace call = [EvMaxPooling activations result l]) /\
  (forall e, outcome call = inl e ->
             trace call = [] /\
             (e = OutOfBounds <-> layer_at ls lnum = None) /\
             (e = UnsupportedPooling <->
              exists l, layer_at ls lnum = Some l /\ pool l <> MAX)).
Proof.
  intros call. subst call. unfold pooling_layer.
  destruct (layer_at ls lnum) as [l|] eqn:Hl; cbn [of_option].
  - rewrite bind_ret. destruct (bool_decide (pool l = MAX)) eqn:Hp.
    + apply bool_decide_eq_true in Hp. cbn. split; [|split].
      * intros p. split.
        -- intros [= <-]. split; [reflexivity|]. exists l. auto.
        -- intros [-> _]. reflexivity.
      * intros p l' _ [= <-]. reflexivity.
      * intros e He. discriminate He.
    + apply bool_decide_eq_false in Hp. cbn. split; [|split].
      * intros p. split; [discriminate|].
        intros [_ (l' & [= <-] & Hmax)]. contradiction.
      * intros p l' He. discriminate He.
      * intros e [= <-]. split; [reflexivity|]. split.
        -- split; discriminate.
        -- split; [|reflexivity]. intros _. exists l. auto.
  - cbn. split; [|split].
    + intros p. split; [discriminate|]. intros [_ (l' & Hl' & _)]. discriminate Hl'.
    + intros p l' He. discriminate He.
    + intros e [= <-]. split; [reflexivity|]. split.
      * split; reflexivity.
      * split; [discriminate|]. intros (l' & Hl' & _). discriminate Hl'.
Qed.

(** ** The inner-product path, continued *)

Section InnerProductMore.

Variable NUM_TEST_CASES : Z.
Variable get_num_weights_layer : list layer_t -> Z -> Z.
Variable get_weights_loc_for_layer : list layer_t -> Z -> Z.
Variable g : globals.

Local Abbreviation kernel :=
  (inner_product_layer_hw NUM_TEST_CASES get_num_weights_layer).
Local Abbreviation layer_call :=
  (inner_product_layer NUM_TEST_CASES get_num_weights_layer
     get_weights_loc_for_layer g).

Lemma next_result_loc_foreign (cur : ptr) :
  cur <> NULL -> cur <> spad0 g -> cur <> spad1 g ->
  next_result_loc g cur = cur.
Proof.
  intros Hn H0 H1. unfold next_result_loc.
  rewrite !decide_False by assumption. reflexivity.
Qed.

Lemma next_result_loc_foreign_iter (cur : ptr) (n : nat) :
  cur <> NULL -> cur <> spad0 g -> cur <> spad1 g ->
  Nat.iter n (next_result_loc g) cur = cur.
Proof.
  intros Hn H0 H1. induction n as [|n IH]; [reflexivity|].
  rewrite Nat.iter_succ, IH. apply next_result_loc_foreign; assumption.
Qed.

(** X13. The static survives the reallocation of the scratchpads that
    opens every forward pass.  Once it holds an address that is neither
    [NULL] nor one of the current scratchpads, no call changes it any
    more, and every call takes the [else] branch: the activations are read
    from [spad0] and the result goes to [spad1], call after call. *)
Theorem inner_product_stale_static
    (cur : ptr) (n : nat) (ha hw : ptr) (ls : list layer_t) (lnum : Z) (hr : ptr)
    (l : layer_t) :
  cur <> NULL -> cur <> spad0 g -> cur <> spad1 g ->
  layer_at ls lnum = Some l ->
  let before := Nat.iter n (next_result_loc g) cur in
  let call := layer_call before ha hw ls lnum hr in
  before = cur /\
  call.1 = cur /\
  outcome call.2 = inr hr /\
  (forall a b h1 h2 w p act r,
     EvMatMul a b h1 h2 w p act r ∈ trace call.2 ->
     a = spad0 g /\ b = umem g /\ r = spad1 g) /\
  (exists h1 h2 w p act,
     EvMatMul (spad0 g) (umem g) h1 h2 w p act (spad1 g) ∈ trace call.2).
Proof.
  intros Hn H0 H1 Hl before call.
  assert (before = cur) as Hb
    by (apply next_result_loc_foreign_iter; assumption).
  subst call. rewrite Hb. clear before Hb.
  unfold inner_product_layer. cbn [fst snd].
  rewrite next_result_loc_foreign by assumption.
  rewrite decide_False by assumption.
  rewrite (inner_product_layer_hw_trace _ _ _ _ _ _ _ _ _ _ l Hl).
  rewrite outcome_bind, trace_bind. cbn [outcome trace fst snd ret].
  rewrite app_nil_r.
  split; [reflexivity|]. split; [reflexivity|]. split; [reflexivity|]. split.
  - intros a b h1 h2 w p act r Hin.
    destruct (needs_input_dma_load l), (needs_output_dma_store l); cbn [app] in Hin;
      repeat (apply elem_of_cons in Hin as [Heq | Hin]; try discriminate Heq);
      try (inversion Hin; fail);
      injection Heq as -> -> _ _ _ _ _ ->; auto.
  - do 5 eexists.
    destruct (needs_input_dma_load l), (needs_output_dma_store l); cbn [app];
      in_list.
Qed.

(** X14. After the DMA pass two adjacent layers agree: the inner-product
    kernel run on a layer stores its output to the host exactly when the
    kernel run on the next layer loads its input from the host. *)
Theorem dma_pass_fc_handoff (network net' : network_t) (i : nat)
    (prev cur : layer_t)
    (ha hw la lw hr lr ha' hw' la' lw' hr' lr' : ptr) :
  depth network = Z.of_nat (length (layers network)) ->
  outcome (set_dma_requirements network) = inr net' ->
  layers net' !! i = Some prev ->
  layers net' !! S i = Some cur ->
  EvStoreOutput hr lr prev
    ∈ trace (kernel ha hw la lw (layers net') (Z.of_nat i) hr lr) <->
  EvGrabInput ha' la' cur
    ∈ trace (kernel ha' hw' la' lw' (layers net') (Z.of_nat (S i)) hr' lr').
Proof.
  intros Hd Hout Hprev Hcur.
  rewrite (set_dma_requirements_spec network Hd) in Hout.
  injection Hout as <-. cbn [layers] in *.
  pose proof Hprev as Hp. pose proof Hcur as Hc.
  rewrite flagged_upto_lookup in Hp, Hc.
  destruct (layers network !! i) as [p0|] eqn:Hp0; [|discriminate Hp].
  destruct (layers network !! S i) as [c0|] eqn:Hc0; [|discriminate Hc].
  clear Hp Hc.
  rewrite (flagged_final_lookup _ _ _ _ Hp0) in Hprev.
  rewrite (flagged_final_lookup _ _ _ _ Hc0) in Hcur.
  apply (inj Some) in Hprev. apply (inj Some) in Hcur. subst prev cur.
  pose proof (flagged_final_lookup (depth network) _ _ _ Hp0) as Hi.
  pose proof (flagged_final_lookup (depth network) _ _ _ Hc0) as HSi.
  revert Hi HSi.
  change (load_flag (depth network) (layers network) (S i))
    with (store_flag (depth network) (layers network) i).
  generalize (store_flag (depth network) (layers network) (S i)) as store_next.
  generalize (load_flag (depth network) (layers network) i) as load_prev.
  generalize (store_flag (depth network) (layers network) i) as store_prev.
  intros store_prev load_prev store_next.
  set (fl := flagged_upto (depth network) (layers network)
               (length (layers network))).
  clearbody fl. clear Hp0 Hc0 Hd.
  intros Hi HSi. rewrite <- layer_at_of_nat in Hi, HSi.
  rewrite (inner_product_layer_hw_trace _ _ _ _ _ _ _ _ _ _ _ Hi).
  rewrite (inner_product_layer_hw_trace _ _ _ _ _ _ _ _ _ _ _ HSi).
  cbn [trace fst].
  rewrite !(proj1 (with_flags_flags _ _ _)), !(proj2 (with_flags_flags _ _ _)).
  destruct store_prev, load_prev, store_next;
    cbn [app]; split; intros H; first [in_list | not_in_list H].
Qed.

End InnerProductMore.

(** ** The forward pass *)

Section ForwardPassFacts.

Variable NUM_TEST_CASES : Z.
Variable NUM_CLASSES : Z.
Variable sizeof_layer_t : Z.
Variable PRINT_DATA_AND_WEIGHTS : bool.
Variable print_data_and_weights : ptr -> ptr -> layer_t -> M unit.
Variable run_layer_skip_activation_func :
  ptr -> ptr -> list layer_t -> Z -> ptr -> ptr -> M ptr.

Local Abbreviation layer_step := (run_layer run_layer_skip_activation_func).
Local Abbreviation outer := (nnet_fwd_outer run_layer_skip_activation_func).
Local Abbreviation forward :=
  (nnet_fwd NUM_TEST_CASES NUM_CLASSES sizeof_layer_t PRINT_DATA_AND_WEIGHTS
     print_data_and_weights run_layer_skip_activation_func).

Lemma run_layer_eq (a w : ptr) (ls : list layer_t) (l : Z) (r s : ptr) :
  layer_step a w ls l r s = run_layer_skip_activation_func a w ls l r s.
Proof. unfold run_layer. apply bind_ret_r. Qed.

Lemma nnet_fwd_outer_returns
    (activations weights result : Farray.farray_t) (ls : list layer_t)
    (sigmoid_table : ptr) (l : Z) (loc loc' : ptr) :
  (forall a w ls l r s p,
     outcome (run_layer_skip_activation_func a w ls l r s) = inr p ->
     p = a \/ p = r) ->
  outcome (outer activations weights result ls sigmoid_table l loc) = inr loc' ->
  loc' = Farray.d activations \/ loc' = Farray.d result.
Proof.
  intros Hret. unfold nnet_fwd_outer.
  destruct (layer_at ls l) as [cur|]; cbn [of_option];
    [rewrite bind_ret | intros H; discriminate H].
  destruct (decide (loc = Farray.d result)); rewrite run_layer_eq; intros H;
    apply Hret in H; [destruct H; [right | left]; assumption | exact H].
Qed.

Lemma nnet_fwd_loop_buffers
    (activations weights result : Farray.farray_t) (ls : list layer_t)
    (sigmoid_table : ptr) (k : nat) (loc : ptr) :
  (forall a w ls l r s p,
     outcome (run_layer_skip_activation_func a w ls l r s) = inr p ->
     p = a \/ p = r) ->
  outcome (for_loop k 0 (Farray.d activations)
             (outer activations weights result ls sigmoid_table)) = inr loc ->
  loc = Farray.d activations \/ loc = Farray.d result.
Proof.
  intros Hret. destruct k as [|k].
  - cbn. intros [= <-]. left. reflexivity.
  - rewrite for_loop_snoc, outcome_bind.
    destruct (outcome (for_loop k 0 _ _)) as [e|loc0]; [discriminate|].
    apply nnet_fwd_outer_returns, Hret.
Qed.

(** X15. The two host buffers are used in turn: as long as each layer
    returns one of the two buffers it was given, the layers run so far
    have left the result in [activations] or in [result], and the next
    layer reads that buffer and is given the other one to write. *)
Theorem nnet_fwd_ping_pong
    (activations weights result : Farray.farray_t) (ls : list layer_t)
    (sigmoid_table : ptr) (k : nat) (loc : ptr) (cur : layer_t) :
  (forall a w ls l r s p,
     outcome (run_layer_skip_activation_func a w ls l r s) = inr p ->
     p = a \/ p = r) ->
  outcome (for_loop k 0 (Farray.d activations)
             (outer activations weights result ls sigmoid_table)) = inr loc ->
  layer_at ls (Z.of_nat k) = Some cur ->
  (loc = Farray.d activations \/ loc = Farray.d result) /\
  outer activations weights result ls sigmoid_table (Z.of_nat k) loc =
  run_layer_skip_activation_func loc (Farray.d weights) ls (Z.of_nat k)
    (if decide (loc = Farray.d result)
     then Farray.d activations else Farray.d result)
    sigmoid_table.
Proof.
  intros Hret Hloop Hcur.
  pose proof (nnet_fwd_loop_buffers _ _ _ _ _ _ _ Hret Hloop) as Hloc.
  split; [exact Hloc|].
  unfold nnet_fwd_outer. rewrite Hcur. cbn [of_option]. rewrite bind_ret.
  destruct (decide (loc = Farray.d result)) as [-> | Hne]; rewrite run_layer_eq.
  - reflexivity.
  - destruct Hloc as [-> | ->]; [reflexivity | contradiction].
Qed.

(** X16. A network without layers is not run: the pass stops at the store
    into [layers[depth - 1]], which lies before the layer array, and
    nothing has been sent to the host. *)
Theorem nnet_fwd_empty_network (layers_loc : ptr)
    (activations weights result : Farray.farray_t) (network : network_t)
    (sigmoid_table : ptr) :
  depth network <= 0 ->
  (exists e, outcome (forward layers_loc activations weights result network
                        sigmoid_table) = inl e) /\
  (PRINT_DATA_AND_WEIGHTS = false ->
   forward layers_loc activations weights result network sigmoid_table
   = ([], inl OutOfBounds)).
Proof.
  intros Hd.
  assert (Hrest : forall net,
            net = network ->
            (do network <- set_dma_requirements net;
             do result_loc <- for_loop (Z.to_nat (depth network)) 0
                                (Farray.d activations)
                                (outer activations weights result (layers network)
                                   sigmoid_table);
             do ls <- assign_layer (layers network) (depth network - 1)
                        (fun l => set_result_in_temp l
                                    (bool_decide (result_loc = Farray.d result)));
             run (if decide (result_loc = Farray.d result)
                  then emit (EvDmaStore (Farray.d result) (Farray.d result)
                               (to_size_t (to_size_t (to_int (NUM_TEST_CASES * NUM_CLASSES))
                                           * sizeof_float)))
                  else emit (EvDmaStore (Farray.d activations) (Farray.d activations)
                               (to_size_t (to_size_t (to_int (NUM_TEST_CASES * NUM_CLASSES))
                                           * sizeof_float))));
             run emit (EvDmaStore layers_loc layers_loc
                         (to_size_t (to_size_t (depth network) * sizeof_layer_t)));
             ret {| layers := ls; depth := depth network |})
            = ([], inl OutOfBounds)).
  { intros net ->. unfold set_dma_requirements.
    replace (Z.to_nat (depth network)) with 0%nat by lia.
    cbn [dma_loop dma_print_loop for_loop]. rewrite !bind_ret. cbn [layers depth].
    replace (Z.to_nat (depth network)) with 0%nat by lia.
    cbn [for_loop]. rewrite bind_ret.
    unfold assign_layer, layer_at.
    replace (depth network - 1 <? 0) with true by (symmetry; apply Z.ltb_lt; lia).
    reflexivity. }
  unfold nnet_fwd. split.
  - destruct PRINT_DATA_AND_WEIGHTS.
    + rewrite outcome_bind.
      destruct (outcome (bind _ _)) as [e|[]]; [eauto|].
      rewrite Hrest by reflexivity. eauto.
    + rewrite bind_ret, Hrest by reflexivity. eauto.
  - intros ->. rewrite bind_ret. apply Hrest. reflexivity.
Qed.

Lemma with_flags_result_in_temp (l : layer_t) (b : bool) :
  needs_input_dma_load (set_result_in_temp l b) = needs_input_dma_load l /\
  needs_output_dma_store (set_result_in_temp l b) = needs_output_dma_store l /\
  result_in_temp (set_result_in_temp l b) = b.
Proof. repeat split. Qed.

(** X17. A pass that ends well ends with two stores to the host: the
    buffer that holds the output of the last layer, then the layer array.
    The last layer's [result_in_temp] says which buffer it is, and the
    layer keeps the output-store flag the DMA pass gave it. *)
Theorem nnet_fwd_final_stores (layers_loc : ptr)
    (activations weights result : Farray.farray_t) (network net' : network_t)
    (sigmoid_table : ptr) :
  depth network = Z.of_nat (length (layers network)) ->
  outcome (forward layers_loc activations weights result network sigmoid_table)
  = inr net' ->
  exists (t : list event) (last : layer_t),
    let buffer := if result_in_temp last
                  then Farray.d result else Farray.d activations in
    trace (forward layers_loc activations weights result network sigmoid_table)
    = t ++ [EvDmaStore buffer buffer
              (to_size_t (to_size_t (to_int (NUM_TEST_CASES * NUM_CLASSES))
                          * sizeof_float));
            EvDmaStore layers_loc layers_loc
              (to_size_t (to_size_t (depth network) * sizeof_layer_t))] /\
    depth net' = depth network /\
    layer_at (layers net') (depth network - 1) = Some last /\
    needs_output_dma_store last = true.
Proof.
  intros Hd Hout. unfold nnet_fwd in *.
  rewrite outcome_bind in Hout. rewrite trace_bind.
  destruct (outcome (if PRINT_DATA_AND_WEIGHTS then _ else _)) as [e|[]];
    [discriminate Hout|].
  set (tp := trace (if PRINT_DATA_AND_WEIGHTS then _ else _)). clearbody tp.
  pose proof (set_dma_requirements_spec network Hd) as Hdma.
  rewrite outcome_bind, Hdma in Hout. rewrite trace_bind, Hdma.
  set (td := trace (set_dma_requirements network)). clearbody td.
  cbn [layers depth] in *.
  set (fl := flagged_upto (depth network) (layers network)
               (length (layers network))) in *.
  rewrite outcome_bind in Hout. rewrite trace_bind.
  destruct (outcome (for_loop _ _ _ _)) as [e|loc]; [discriminate Hout|].
  set (tl := trace (for_loop _ _ _ _)). clearbody tl.
  rewrite outcome_bind in Hout. rewrite trace_bind.
  unfold assign_layer in *.
  destruct (layer_at fl (depth network - 1)) as [l0|] eqn:Hl0;
    [|discriminate Hout].
  cbn [of_option] in *. rewrite bind_ret in *.
  cbn [ret trace outcome fst snd] in *.
  assert (0 <= depth network - 1) as Hpos.
  { unfold layer_at in Hl0.
    destruct (depth network - 1 <? 0) eqn:Hneg; [discriminate Hl0|].
    apply Z.ltb_ge in Hneg. exact Hneg. }
  assert (Hstore : needs_output_dma_store l0 = true).
  { unfold layer_at in Hl0.
    replace (depth network - 1 <? 0) with false in Hl0
      by (symmetry; apply Z.ltb_ge; lia).
    subst fl. rewrite flagged_upto_lookup in Hl0.
    destruct (layers network !! Z.to_nat (depth network - 1)) as [l1|] eqn:Hl1;
      [|discriminate Hl0].
    cbn [fmap option_fmap option_map] in Hl0. apply (inj Some) in Hl0.
    replace (Z.to_nat (depth network - 1) <? length (layers network))%nat
      with true in Hl0 by (symmetry; apply Nat.ltb_lt; lia).
    subst l0. rewrite (proj2 (with_flags_flags _ _ _)).
    apply store_flag_last; lia. }
  exists (tp ++ td ++ tl),
    (set_result_in_temp l0 (bool_decide (loc = Farray.d result))).
  cbn zeta.
  rewrite (proj2 (proj2 (with_flags_result_in_temp _ _))).
  rewrite (proj1 (proj2 (with_flags_result_in_temp _ _))).
  assert (Hnet : net' = {| layers := <[Z.to_nat (depth network - 1) :=
                                         set_result_in_temp l0
                                           (bool_decide (loc = Farray.d result))]> fl;
                           depth := depth network |}).
  { destruct (decide (loc = Farray.d result)); cbn in Hout; congruence. }
  split; [|split; [|split]].
  - destruct (decide (loc = Farray.d result)) as [He|Hne].
    + rewrite bool_decide_eq_true_2 by exact He. cbn. rewrite <- !app_assoc.
      reflexivity.
    + rewrite bool_decide_eq_false_2 by exact Hne. cbn. rewrite <- !app_assoc.
      reflexivity.
  - subst net'. reflexivity.
  - subst net'. cbn [layers]. unfold layer_at in *.
    replace (depth network - 1 <? 0) with false in *
      by (symmetry; apply Z.ltb_ge; lia).
    apply list_lookup_insert_eq. eapply lookup_lt_Some. exact Hl0.
  - exact Hstore.
Qed.

End ForwardPassFacts.

(** ** The tile loop of the SMV pooling operator *)

Section RunNHCFacts.
Import SmvPoolingOp.

Lemma tile_loop_completed (body : Z -> list invocation * ending)
    (fuel : nat) (i : Z) (calls : Z -> list invocation) :
  (forall j, i <= j < i + Z.of_nat fuel -> body j = (calls j, Completed)) ->
  tile_loop body fuel i = (flat_map calls (seqZ i (Z.of_nat fuel)), Completed).
Proof.
  revert i. induction fuel as [|fuel IH]; intros i Hb; [reflexivity|].
  cbn [tile_loop]. pose proof (Hb i ltac:(lia)) as Hi. rewrite Hi.
  rewrite IH by (intros j Hj; apply Hb; lia).
  rewrite (seqZ_cons i) by lia. cbn [flat_map].
  replace (Z.succ i) with (i + 1) by lia.
  replace (Z.pred (Z.of_nat (S fuel))) with (Z.of_nat fuel) by lia.
  reflexivity.
Qed.

Lemma tile_loop_stops (body : Z -> list invocation * ending)
    (fuel : nat) (i : Z) (t : list invocation) (e : ending) :
  body i = (t, e) -> e <> Completed ->
  tile_loop body (S fuel) i = (t, e).
Proof.
  intros Hb He. cbn [tile_loop]. rewrite Hb.
  destruct e; [contradiction | reflexivity | reflexivity].
Qed.

Variable inputIfmapTiles inputRowTiles inputChanTiles outputChanTiles : Z.
Variable inputIdx outputIdx : Z -> Z -> Z -> Z -> Z.
Variable inputTileChannels : Z -> Z.
Variable maxPooling : bool.

Local Abbreviation chan_loop :=
  (channel_loop inputChanTiles outputChanTiles inputIdx outputIdx
     inputTileChannels maxPooling).
Local Abbreviation calls :=
  (channel_calls inputChanTiles outputChanTiles inputIdx outputIdx
     inputTileChannels maxPooling).
Local Abbreviation offset := (ofmap_offset inputIdx inputTileChannels).

Lemma ofmap_offset_S (N H : Z) (c : nat) :
  offset N H (S c) =
  to_int (offset N H c + inputTileChannels (inputIdx N H 0 (Z.of_nat c))).
Proof.
  unfold ofmap_offset.
  replace (Z.of_nat (S c)) with (Z.of_nat c + 1) by lia.
  rewrite seqZ_app by lia. rewrite foldl_app. cbn. rewrite Z.add_0_l.
  reflexivity.
Qed.

(** Equal tile counts: both indices advance together. *)
Lemma channel_loop_same (N H : Z) (fuel k : nat) (off : Z) :
  inputChanTiles = outputChanTiles ->
  Z.of_nat k <= Z.max 0 inputChanTiles ->
  Z.of_nat k + Z.of_nat fuel = Z.max 0 inputChanTiles + 1 ->
  chan_loop fuel N H (Z.of_nat k) (Z.of_nat k) off =
  ((fun c => InvokeKernel maxPooling (inputIdx N H 0 c) (outputIdx N H 0 c) 0)
     <$> seqZ (Z.of_nat k) (inputChanTiles - Z.of_nat k),
   Completed).
Proof.
  intros Heq. revert k off. induction fuel as [|fuel IH]; intros k off Hle Hk; [lia|].
  cbn [channel_loop].
  replace (Z.of_nat k <? outputChanTiles) with (Z.of_nat k <? inputChanTiles)
    by (rewrite Heq; reflexivity).
  replace (inputChanTiles =? outputChanTiles) with true
    by (symmetry; apply Z.eqb_eq; exact Heq).
  destruct (Z.of_nat k <? inputChanTiles) eqn:Hlt; cbn [andb].
  - apply Z.ltb_lt in Hlt. rewrite Z.eqb_refl.
    replace (Z.of_nat k + 1) with (Z.of_nat (S k)) by lia.
    rewrite IH by lia.
    rewrite (seqZ_cons (Z.of_nat k)) by lia. cbn [fmap list_fmap].
    replace (Z.succ (Z.of_nat k)) with (Z.of_nat (S k)) by lia.
    replace (Z.pred (inputChanTiles - Z.of_nat k))
      with (inputChanTiles - Z.of_nat (S k)) by lia.
    reflexivity.
  - apply Z.ltb_ge in Hlt. rewrite seqZ_nil by lia. reflexivity.
Qed.

(** One output tile for several input tiles: only [iC] advances, and the
    offset is the sum of the channels seen. *)
Lemma channel_loop_single (N H : Z) (fuel k : nat) :
  inputChanTiles <> outputChanTiles -> outputChanTiles = 1 ->
  Z.of_nat k <= Z.max 0 inputChanTiles ->
  Z.of_nat k + Z.of_nat fuel = Z.max 0 inputChanTiles + 1 ->
  chan_loop fuel N H (Z.of_nat k) 0 (offset N H k) =
  ((fun c => InvokeKernel maxPooling (inputIdx N H 0 c) (outputIdx N H 0 0)
               (offset N H (Z.to_nat c)))
     <$> seqZ (Z.of_nat k) (inputChanTiles - Z.of_nat k),
   Completed).
Proof.
  intros Hne Hone. revert k. induction fuel as [|fuel IH]; intros k Hle Hk; [lia|].
  cbn [channel_loop]. rewrite Hone in *.
  replace (0 <? 1) with true by reflexivity. rewrite andb_true_r.
  destruct (Z.of_nat k <? inputChanTiles) eqn:Hlt.
  - apply Z.ltb_lt in Hlt.
    replace (inputChanTiles =? 1) with false by (symmetry; apply Z.eqb_neq; lia).
    rewrite Z.eqb_refl.
    rewrite <- ofmap_offset_S.
    replace (Z.of_nat k + 1) with (Z.of_nat (S k)) by lia.
    rewrite IH by lia.
    rewrite (seqZ_cons (Z.of_nat k)) by lia. cbn [fmap list_fmap].
    replace (Z.succ (Z.of_nat k)) with (Z.of_nat (S k)) by lia.
    replace (Z.pred (inputChanTiles - Z.of_nat k))
      with (inputChanTiles - Z.of_nat (S k)) by lia.
    rewrite Nat2Z.id. f_equal. f_equal.
    destruct k as [|k]; [reflexivity|].
    replace (Z.of_nat (S k) =? 0) with false by (symmetry; apply Z.eqb_neq; lia).
    reflexivity.
  - apply Z.ltb_ge in Hlt. rewrite seqZ_nil by lia. reflexivity.
Qed.

Lemma channel_loop_compatible (N H : Z) :
  inputChanTiles = outputChanTiles \/ outputChanTiles = 1 ->
  chan_loop (S (Z.to_nat inputChanTiles)) N H 0 0 0 = (calls N H, Completed).
Proof.
  intros Hc. unfold channel_calls.
  destruct (Z.eq_dec inputChanTiles outputChanTiles) as [Heq | Hne].
  - pose proof (channel_loop_same N H (S (Z.to_nat inputChanTiles)) 0 0 Heq
                  ltac:(lia) ltac:(lia)) as Hs.
    change (Z.of_nat 0) with 0 in Hs. rewrite Z.sub_0_r in Hs. rewrite Hs.
    replace (inputChanTiles =? outputChanTiles) with true
      by (symmetry; apply Z.eqb_eq; exact Heq).
    reflexivity.
  - destruct Hc as [Heq | Hone]; [contradiction|].
    pose proof (channel_loop_single N H (S (Z.to_nat inputChanTiles)) 0 Hne Hone
                  ltac:(lia) ltac:(lia)) as Hs.
    change (Z.of_nat 0) with 0 in Hs. rewrite Z.sub_0_r in Hs.
    change (offset N H 0) with 0 in Hs. rewrite Hs.
    replace (inputChanTiles =? outputChanTiles) with false
      by (symmetry; apply Z.eqb_neq; exact Hne).
    reflexivity.
Qed.

(** X18. When the inputs and the outputs have the same number of channel
    tiles, or the outputs have one, [runNHC] runs through: for every
    batch tile and row tile, in this order, it invokes the kernel once per
    input channel tile.  With equal counts tile [c] is paired with output
    tile [c] and starts at channel 0; with one output tile every input
    tile is paired with it and starts where the tiles before it ended.
    The channel loop ends by its own test. *)
Theorem runNHC_completes :
  inputChanTiles = outputChanTiles \/ outputChanTiles = 1 ->
  runNHC inputIfmapTiles inputRowTiles inputChanTiles outputChanTiles
    inputIdx outputIdx inputTileChannels maxPooling =
  (flat_map (fun N =>
               flat_map (fun H =>
                           channel_calls inputChanTiles outputChanTiles
                             inputIdx outputIdx inputTileChannels maxPooling N H)
                 (seqZ 0 inputRowTiles))
     (seqZ 0 inputIfmapTiles),
   Completed).
Proof.
  intros Hc. unfold runNHC.
  replace (seqZ 0 inputRowTiles)
    with (seqZ 0 (Z.of_nat (Z.to_nat inputRowTiles)))
    by (unfold seqZ; rewrite Nat2Z.id; reflexivity).
  replace (seqZ 0 inputIfmapTiles)
    with (seqZ 0 (Z.of_nat (Z.to_nat inputIfmapTiles)))
    by (unfold seqZ; rewrite Nat2Z.id; reflexivity).
  apply tile_loop_completed. intros N _.
  apply tile_loop_completed. intros H _.
  apply channel_loop_compatible, Hc.
Qed.

(** X19. With any other pair of tile counts the assertion of the channel
    loop fires in the first turn, after the kernel has been invoked on the
    first pair of tiles; when there is no tile at all nothing happens. *)
Theorem runNHC_tiling_assertion :
  inputChanTiles <> outputChanTiles -> outputChanTiles <> 1 ->
  runNHC inputIfmapTiles inputRowTiles inputChanTiles outputChanTiles
    inputIdx outputIdx inputTileChannels maxPooling =
  if (0 <? inputIfmapTiles) && (0 <? inputRowTiles)
     && (0 <? inputChanTiles) && (0 <? outputChanTiles)
  then ([InvokeKernel maxPooling (inputIdx 0 0 0 0) (outputIdx 0 0 0 0) 0],
        TilingAssertion)
  else ([], Completed).
Proof.
  intros Hne Hone. unfold runNHC.
  assert (Hchan : forall N H,
            chan_loop (S (Z.to_nat inputChanTiles)) N H 0 0 0 =
            if (0 <? inputChanTiles) && (0 <? outputChanTiles)
            then ([InvokeKernel maxPooling (inputIdx N H 0 0) (outputIdx N H 0 0) 0],
                  TilingAssertion)
            else ([], Completed)).
  { intros N H. cbn [channel_loop].
    destruct ((0 <? inputChanTiles) && (0 <? outputChanTiles)); [|reflexivity].
    replace (inputChanTiles =? outputChanTiles) with false
      by (symmetry; apply Z.eqb_neq; exact Hne).
    replace (outputChanTiles =? 1) with false
      by (symmetry; apply Z.eqb_neq; exact Hone).
    reflexivity. }
  destruct (0 <? inputIfmapTiles) eqn:HN; cbn [andb].
  2:{ apply Z.ltb_ge in HN. replace (Z.to_nat inputIfmapTiles) with 0%nat by lia.
      reflexivity. }
  apply Z.ltb_lt in HN.
  destruct (Z.to_nat inputIfmapTiles) as [|nN] eqn:HnN; [lia|].
  destruct (0 <? inputRowTiles) eqn:HH; cbn [andb].
  2:{ apply Z.ltb_ge in HH. replace (Z.to_nat inputRowTiles) with 0%nat by lia.
      rewrite (tile_loop_completed _ _ _ (fun _ => [])) by reflexivity.
      f_equal. induction (seqZ 0 (Z.of_nat (S nN))); [reflexivity | assumption]. }
  apply Z.ltb_lt in HH.
  destruct (Z.to_nat inputRowTiles) as [|nH] eqn:HnH; [lia|].
  destruct ((0 <? inputChanTiles) && (0 <? outputChanTiles)) eqn:HC.
  - apply tile_loop_stops; [|discriminate].
    apply tile_loop_stops; [|discriminate].
    rewrite Hchan. reflexivity.
  - rewrite (tile_loop_completed _ _ _ (fun _ => [])).
    + f_equal. induction (seqZ 0 (Z.of_nat (S nN))); [reflexivity | assumption].
    + intros N _.
      rewrite (tile_loop_completed _ _ _ (fun _ => [])).
      * f_equal. induction (seqZ 0 (Z.of_nat (S nH))); [reflexivity | assumption].
      * intros H _. rewrite Hchan. reflexivity.
Qed.

End RunNHCFacts.

(** ** The final reduction of a run that ends well *)

Section FinalReductionFacts.

Variable NUM_TEST_CASES : Z.
Variable INPUT_BYTES : list layer_t -> Z -> Z.
Variable DATA_ALIGNMENT : Z.
Variable calc_padding : Z -> Z -> Z.
Variable g : globals.

Local Abbreviation divide_work :=
  (convolution_divide_work NUM_TEST_CASES INPUT_BYTES DATA_ALIGNMENT calc_padding).
Local Abbreviation runner :=
  (convolution_runner NUM_TEST_CASES INPUT_BYTES DATA_ALIGNMENT calc_padding g).

Lemma final_channels_all (r2d n : Z) :
  0 < r2d -> 1 < n -> r2d * n <= SPAD_SIZE ->
  to_int (min n (to_unsigned (Z.quot SPAD_SIZE r2d))) = n.
Proof.
  intros Hr Hn Hfit.
  assert (n <= SPAD_SIZE / r2d) as Hq
    by (apply Z.div_le_lower_bound; lia).
  assert (SPAD_SIZE / r2d <= SPAD_SIZE) as Hq'
    by (apply Z.div_le_upper_bound; unfold SPAD_SIZE; nia).
  rewrite Z.quot_div_nonneg by (unfold SPAD_SIZE; lia).
  unfold SPAD_SIZE in *.
  rewrite to_unsigned_small by lia.
  unfold min. destruct (n <? 131072 / r2d) eqn:E;
    [apply Z.ltb_lt in E
    | apply Z.ltb_ge in E; replace (131072 / r2d) with n by lia];
    apply to_int_small; lia.
Qed.

Lemma kernel_body_final
    (temp ha hw hr : ptr) (ls : list layer_t) (lnum : Z) (curr : layer_t)
    (cfg : conv_cfg_t) (img kern : Z) (ev : event) :
  outcome (kernel_body g ha hw ls lnum curr cfg temp hr img kern) = inr tt ->
  ev ∈ trace (final_reduction g curr cfg (output_2d_size curr) temp) ->
  ev ∈ trace (kernel_body g ha hw ls lnum curr cfg temp hr img kern).
Proof.
  unfold kernel_body. rewrite outcome_bind, trace_bind.
  destruct (outcome (for_loop _ _ _ _)) as [e|st]; [discriminate|].
  rewrite trace_bind.
  intros _ Hev. apply elem_of_app. right. apply elem_of_app. left. exact Hev.
Qed.

(** X20. In a run of several iterations that ends well, with the element
    count of the partial results within 32 bits, the partial results of a
    kernel hold at most [SPAD_SIZE] elements and the one final reduction
    covers all of them: it reduces [num_iterations] channels from [spad1]
    into [umem] and stores the slice at the start of [temp_result]. *)
Theorem runner_final_reduction_covers
    (temp ha hw hr : ptr) (ls : list layer_t) (lnum : Z) (curr : layer_t)
    (cfg : conv_cfg_t) :
  layer_at ls lnum = Some curr ->
  outcome (divide_work ls lnum) = inr cfg ->
  outcome (runner temp ha hw ls lnum hr) = inr tt ->
  0 < NUM_TEST_CASES -> 0 < height (outputs curr) ->
  1 < num_iterations cfg ->
  0 < output_2d_size curr ->
  output_2d_size curr * num_iterations cfg < 2 ^ 32 ->
  output_2d_size curr * num_iterations cfg <= SPAD_SIZE /\
  EvReduction (spad1 g) (final_layer curr (num_iterations cfg)) (umem g)
    ∈ trace (runner temp ha hw ls lnum hr) /\
  EvDmaStore temp (umem g)
    (to_size_t (to_size_t (output_2d_size curr) * sizeof_float))
    ∈ trace (runner temp ha hw ls lnum hr).
Proof.
  intros Hl Hcfg Hok Himg Hkern Hn Hr Hwrap.
  pose proof (plan_length _ _ _ _ ls lnum cfg Hcfg) as Hlen.
  destruct (runner_trace_success NUM_TEST_CASES INPUT_BYTES DATA_ALIGNMENT
              calc_padding g temp ha hw hr ls lnum curr cfg Hl Hcfg Hok)
    as [_ Hall].
  specialize (Hall Himg Hkern 0 0).
  pose proof Hall as Hone.
  rewrite (kernel_body_outcome g temp ha hw hr ls lnum curr cfg 0 0 Hl Hlen)
    in Hone.
  replace (1 <? num_iterations cfg) with true in Hone
    by (symmetry; apply Z.ltb_lt; exact Hn).
  rewrite andb_true_l in Hone.
  destruct (final_rounds (output_2d_size curr) (num_iterations cfg) =? 1) eqn:Hf;
    [apply Z.eqb_eq in Hf | discriminate Hone].
  pose proof (proj1 (final_rounds_one_spec _ _) Hf) as Hcount.
  rewrite to_unsigned_small in Hcount by lia.
  split; [lia|].
  pose proof (proj2 (proj2 (final_reduction_cases g curr cfg
                              (output_2d_size curr) temp)) Hn Hf ltac:(lia))
    as Hfinal.
  rewrite final_channels_all in Hfinal by lia.
  split.
  - apply (runner_contains_kernel NUM_TEST_CASES INPUT_BYTES DATA_ALIGNMENT
             calc_padding g temp ha hw hr ls lnum curr cfg 0 0 _ Hl Hcfg Hok
             ltac:(lia) ltac:(lia)).
    apply kernel_body_final; [exact Hall|]. rewrite Hfinal. in_list.
  - apply (runner_contains_kernel NUM_TEST_CASES INPUT_BYTES DATA_ALIGNMENT
             calc_padding g temp ha hw hr ls lnum curr cfg 0 0 _ Hl Hcfg Hok
             ltac:(lia) ltac:(lia)).
    apply kernel_body_final; [exact Hall|]. rewrite Hfinal. in_list.
Qed.

End FinalReductionFacts.

(** ** The DMA pass on a depth beyond the array *)

Lemma assign_layer_cases (ls : list layer_t) (i : Z) (f : layer_t -> layer_t) :
  assign_layer ls i f = fail OutOfBounds \/
  exists ls', assign_layer ls i f = ret ls' /\ length ls' = length ls.
Proof.
  unfold assign_layer. destruct (layer_at ls i) as [l|]; cbn [of_option].
  - right. rewrite bind_ret. eexists. split; [reflexivity|].
    apply length_insert.
  - left. reflexivity.
Qed.

Lemma needs_store_cases (depth : Z) (ls : list layer_t) (layer_num : Z) :
  needs_store depth ls layer_num = fail OutOfBounds \/
  exists b, needs_store depth ls layer_num = ret b.
Proof.
  unfold needs_store. destruct (layer_at ls layer_num) as [cur|]; cbn [of_option];
    [rewrite bind_ret | left; reflexivity].
  destruct (layer_num =? depth - 1); [right; eauto|].
  destruct (bool_decide (activation cur = SIGMOID)); [right; eauto|].
  destruct (bool_decide (type cur = POOLING)); [right; eauto|].
  destruct (bool_decide (type cur = CONV)); [right; eauto|].
  destruct (bool_decide (input_preprocessing cur = FLATTEN)); [right; eauto|].
  destruct (layer_at ls (layer_num + 1)) as [next|]; cbn [of_option];
    [rewrite bind_ret; right; eauto | left; reflexivity].
Qed.

Lemma dma_body_cases (depth : Z) (ls : list layer_t) (layer_num : Z) :
  dma_body depth ls layer_num = fail OutOfBounds \/
  exists ls', dma_body depth ls layer_num = ret ls' /\ length ls' = length ls.
Proof.
  unfold dma_body. destruct (layer_num =? 0).
  - destruct (assign_layer_cases ls layer_num
                (fun l => set_needs_input_dma_load l false))
      as [-> | (ls1 & -> & Hlen1)]; [left; reflexivity|].
    rewrite bind_ret.
    destruct (assign_layer_cases ls1 layer_num
                (fun l => set_needs_output_dma_store l true))
      as [-> | (ls2 & -> & Hlen2)]; [left; reflexivity|].
    right. exists ls2. split; [reflexivity | congruence].
  - destruct (needs_store_cases depth ls layer_num) as [-> | (b & ->)];
      [left; reflexivity|].
    rewrite bind_ret.
    destruct (assign_layer_cases ls layer_num
                (fun l => set_needs_output_dma_store l b))
      as [-> | (ls1 & -> & Hlen1)]; [left; reflexivity|].
    rewrite bind_ret.
    destruct (layer_at ls1 (layer_num - 1)) as [prev|]; cbn [of_option];
      [rewrite bind_ret | left; reflexivity].
    destruct (assign_layer_cases ls1 layer_num
                (fun l => set_needs_input_dma_load l (needs_output_dma_store prev)))
      as [-> | (ls2 & -> & Hlen2)]; [left; reflexivity|].
    right. exists ls2. split; [reflexivity | congruence].
Qed.

Lemma dma_body_outside (depth : Z) (ls : list layer_t) (k : nat) :
  (length ls <= k)%nat ->
  dma_body depth ls (Z.of_nat k) = fail OutOfBounds.
Proof.
  intros Hk.
  assert (layer_at ls (Z.of_nat k) = None) as Hnone
    by (rewrite layer_at_of_nat; apply lookup_ge_None; exact Hk).
  unfold dma_body, needs_store, assign_layer. rewrite Hnone.
  destruct (Z.of_nat k =? 0); reflexivity.
Qed.

Lemma dma_loop_beyond (depth : Z) (fuel k : nat) (ls : list layer_t) :
  Z.of_nat (length ls) < depth ->
  (k <= length ls < k + fuel)%nat ->
  dma_loop fuel depth (Z.of_nat k) ls = fail OutOfBounds.
Proof.
  intros Hd. revert k ls Hd. induction fuel as [|fuel IH]; intros k ls Hd Hk; [lia|].
  cbn [dma_loop].
  replace (Z.of_nat k <? depth) with true by (symmetry; apply Z.ltb_lt; lia).
  destruct (Nat.eq_dec k (length ls)) as [-> | Hne].
  - rewrite dma_body_outside by lia. reflexivity.
  - destruct (dma_body_cases depth ls (Z.of_nat k)) as [-> | (ls' & -> & Hlen)];
      [reflexivity|].
    rewrite bind_ret. replace (Z.of_nat k + 1) with (Z.of_nat (S k)) by lia.
    apply IH; rewrite Hlen; [exact Hd | lia].
Qed.

(** X21. A depth beyond the layer array stops the pass: the first loop
    leaves the array, at the latest when it reaches the first layer that
    is not there, and no line is printed. *)
Theorem dma_pass_depth_beyond_array (network : network_t) :
  Z.of_nat (length (layers network)) < depth network ->
  set_dma_requirements network = ([], inl OutOfBounds).
Proof.
  intros Hd. unfold set_dma_requirements.
  change 0 with (Z.of_nat 0).
  rewrite dma_loop_beyond by lia. reflexivity.
Qed.

(** ** The convolution layer *)

Section ConvolutionLayerFacts.

Variable NUM_TEST_CASES : Z.
Variable INPUT_BYTES : list layer_t -> Z -> Z.
Variable DATA_ALIGNMENT : Z.
Variable calc_padding : Z -> Z -> Z.
Variable get_weights_loc_for_layer : list layer_t -> Z -> Z.
Variable g : globals.

Local Abbreviation divide_work :=
  (convolution_divide_work NUM_TEST_CASES INPUT_BYTES DATA_ALIGNMENT calc_padding).
Local Abbreviation runner :=
  (convolution_runner NUM_TEST_CASES INPUT_BYTES DATA_ALIGNMENT calc_padding g).
Local Abbreviation conv_layer :=
  (convolution_layer NUM_TEST_CASES INPUT_BYTES DATA_ALIGNMENT calc_padding
     get_weights_loc_for_layer g).



End ConvolutionLayerFacts.

(** ** Instances of the further properties *)

Example long_layer_run_aborts :
  outcome (example_runner example_activations example_weights [long_layer] 0
             example_result) = inl MultiRoundReduction.
Proof. by_computation. Qed.

Lemma plan_iteration_count_witness :
  exists cfg,
    outcome (example_divide_work [tiled_layer] 0) = inr cfg /\
    1 <= num_iterations cfg /\
    Z.of_nat (length (iteration cfg)) = num_iterations cfg.
Proof.
  destruct (outcome (example_divide_work [tiled_layer] 0)) as [e|cfg] eqn:H1;
    [vm_compute in H1; discriminate H1|].
  exists cfg. split; [reflexivity|].
  destruct (plan_iteration_count 1 (spec_INPUT_BYTES 1) 8 spec_calc_padding
              [tiled_layer] 0 cfg H1) as (Hn & Hlen & _).
  split; assumption.
Defined.

Lemma plan_iterations_fit_witness :
  layer_at [tiled_layer] 0 = Some tiled_layer /\
  exists cfg d,
    outcome (example_divide_work [tiled_layer] 0) = inr cfg /\
    iteration cfg !! 3%nat = Some d /\
    total_output_bytes (iteration_layer tiled_layer cfg d) <= SPAD_SIZE.
Proof.
  assert (H1 : layer_at [tiled_layer] 0 = Some tiled_layer) by reflexivity.
  split; [assumption|].
  destruct (outcome (example_divide_work [tiled_layer] 0)) as [e|cfg] eqn:H2;
    [vm_compute in H2; discriminate H2|].
  destruct (iteration cfg !! 3%nat) as [d|] eqn:H3;
    [|vm_compute in H2; injection H2 as <-; discriminate H3].
  exists cfg, d. split; [reflexivity|]. split; [exact H3|].
  exact (proj1 (plan_iterations_fit 1 (spec_INPUT_BYTES 1) 8 spec_calc_padding
                  [tiled_layer] 0 tiled_layer cfg 3 d H1 H2 H3)).
Defined.

Lemma runner_outcome_witness :
  layer_at [long_layer] 0 = Some long_layer /\
  outcome (example_runner example_activations example_weights [long_layer] 0
             example_result) =
  match outcome (example_divide_work [long_layer] 0) with
  | inl e => inl e
  | inr cfg =>
      if (0 <? 1) && (0 <? height (outputs long_layer))
         && (1 <? num_iterations cfg)
         && negb (final_rounds (output_2d_size long_layer) (num_iterations cfg) =? 1)
      then inl MultiRoundReduction else inr tt
  end.
Proof.
  assert (H1 : layer_at [long_layer] 0 = Some long_layer) by reflexivity.
  split; [assumption|].
  exact (proj1 (runner_outcome 1 (spec_INPUT_BYTES 1) 8 spec_calc_padding
                  example_globals example_temp_result example_activations
                  example_weights example_result [long_layer] 0 long_layer H1)).
Defined.

Lemma runner_channel_slices_witness :
  layer_at [tiled_layer] 0 = Some tiled_layer /\
  outcome (example_runner example_activations example_weights [tiled_layer] 0
             example_result) = inr tt /\
  weight_load example_globals example_weights tiled_layer 1 4 2
  ∈ trace (example_runner example_activations example_weights [tiled_layer] 0
             example_result).
Proof.
  assert (H1 : layer_at [tiled_layer] 0 = Some tiled_layer) by reflexivity.
  assert (H2 : outcome (example_divide_work [tiled_layer] 0)
               = inr {| iteration := [mk_dims 130 130 2 6; mk_dims 130 130 2 6;
                                      mk_dims 130 130 2 6; mk_dims 130 130 2 6];
                        num_iterations := 4 |}) by by_computation.
  assert (H3 : outcome (example_runner example_activations example_weights
                          [tiled_layer] 0 example_result) = inr tt)
    by by_computation.
  do 2 (split; [assumption|]).
  exact (proj1 (runner_channel_slices 1 (spec_INPUT_BYTES 1) 8 spec_calc_padding
                  example_globals example_temp_result example_activations
                  example_weights example_result [tiled_layer] 0 tiled_layer _
                  0 1 2 (mk_dims 130 130 2 6) H1 H2 H3
                  ltac:(lia) ltac:(cbn; lia) eq_refl ltac:(cbn; lia))).
Defined.

Lemma runner_event_counts_witness :
  layer_at [tiled_layer] 0 = Some tiled_layer /\
  umem example_globals <> spad0 example_globals /\
  count_events is_conv3d
    (trace (example_runner example_activations example_weights [tiled_layer] 0
              example_result)) = 8%nat /\
  count_events is_reduction
    (trace (example_runner example_activations example_weights [tiled_layer] 0
              example_result)) = 10%nat.
Proof.
  assert (H1 : layer_at [tiled_layer] 0 = Some tiled_layer) by reflexivity.
  assert (H2 : outcome (example_divide_work [tiled_layer] 0)
               = inr {| iteration := [mk_dims 130 130 2 6; mk_dims 130 130 2 6;
                                      mk_dims 130 130 2 6; mk_dims 130 130 2 6];
                        num_iterations := 4 |}) by by_computation.
  assert (H3 : outcome (example_runner example_activations example_weights
                          [tiled_layer] 0 example_result) = inr tt)
    by by_computation.
  assert (H4 : umem example_globals <> spad0 example_globals) by discriminate.
  do 2 (split; [assumption|]).
  destruct (runner_event_counts 1 (spec_INPUT_BYTES 1) 8 spec_calc_padding
              example_globals example_temp_result example_activations
              example_weights example_result [tiled_layer] 0 tiled_layer _
              H1 H2 H3 H4) as (Hconv & _ & Hred & _).
  split; [exact Hconv | exact Hred].
Defined.

Lemma runner_abort_leaves_result_witness :
  layer_at [long_layer] 0 = Some long_layer /\
  outcome (example_runner example_activations example_weights [long_layer] 0
             example_result) = inl MultiRoundReduction /\
  EvReduction (spad1 example_globals)
    (iteration_descriptor long_layer
       {| iteration := []; num_iterations := 9 |} 2)
    (umem example_globals)
  ∈ trace (example_runner example_activations example_weights [long_layer] 0
             example_result) /\
  is_memcpy
    (EvReduction (spad1 example_globals)
       (iteration_descriptor long_layer
          {| iteration := []; num_iterations := 9 |} 2)
       (umem example_globals)) = false.
Proof.
  assert (H1 : layer_at [long_layer] 0 = Some long_layer) by reflexivity.
  assert (H2 : outcome (example_runner example_activations example_weights
                          [long_layer] 0 example_result)
               = inl MultiRoundReduction) by by_computation.
  assert (H3 : EvReduction (spad1 example_globals)
                 (iteration_descriptor long_layer
                    {| iteration := []; num_iterations := 9 |} 2)
                 (umem example_globals)
               ∈ trace (example_runner example_activations example_weights
                          [long_layer] 0 example_result))
    by (vm_compute; in_list).
  do 3 (split; [assumption|]).
  exact (proj1 (runner_abort_leaves_result 1 (spec_INPUT_BYTES 1) 8
                  spec_calc_padding example_globals example_temp_result
                  example_activations example_weights example_result
                  [long_layer] 0 long_layer MultiRoundReduction _ H1 H2 H3)).
Defined.

Lemma runner_output_slices_witness :
  layer_at [tiled_layer] 0 = Some tiled_layer /\
  outcome (example_runner example_activations example_weights [tiled_layer] 0
             example_result) = inr tt /\
  EvMemcpy (ptr_add example_result 16384) example_temp_result 65536
  ∈ trace (example_runner example_activations example_weights [tiled_layer] 0
             example_result).
Proof.
  assert (H1 : layer_at [tiled_layer] 0 = Some tiled_layer) by reflexivity.
  assert (H2 : outcome (example_runner example_activations example_weights
                          [tiled_layer] 0 example_result) = inr tt)
    by by_computation.
  do 2 (split; [assumption|]).
  exact (proj1 (runner_output_slices 1 (spec_INPUT_BYTES 1) 8 spec_calc_padding
                  example_globals example_temp_result example_activations
                  example_weights example_result [tiled_layer] 0 tiled_layer
                  0 1 0 0 H1 H2 ltac:(lia) ltac:(cbn; lia) ltac:(lia)
                  ltac:(cbn; lia) ltac:(cbn; lia) ltac:(cbn; lia)
                  ltac:(cbn; lia))).
Defined.

Lemma dma_pass_frame_witness :
  depth example_network = Z.of_nat (length (layers example_network)) /\
  layers example_network !! 1%nat = Some example_pooling /\
  exists net' l',
    outcome (set_dma_requirements example_network) = inr net' /\
    layers net' !! 1%nat = Some l' /\
    pool l' = pool example_pooling.
Proof.
  assert (H1 : depth example_network = Z.of_nat (length (layers example_network)))
    by reflexivity.
  assert (H2 : layers example_network !! 1%nat = Some example_pooling)
    by reflexivity.
  do 2 (split; [assumption|]).
  destruct (dma_pass_frame example_network 1 example_pooling H1 H2)
    as (net' & l' & Hrun & _ & _ & Hl' & _ & _ & _ & _ & _ & _ & Hpool & _).
  exists net', l'. auto.
Defined.

Lemma dma_pass_ignores_old_flags_witness :
  depth example_network = Z.of_nat (length (layers example_network)) /\
  exists net',
    outcome (set_dma_requirements example_network) = inr net' /\
    outcome (set_dma_requirements
               {| layers := (fun l => with_flags l true false)
                            <$> layers example_network;
                  depth := 3 |}) = inr net' /\
    outcome (set_dma_requirements net') = inr net'.
Proof.
  assert (H1 : depth example_network = Z.of_nat (length (layers example_network)))
    by reflexivity.
  split; [assumption|].
  exact (dma_pass_ignores_old_flags example_network _ H1 eq_refl eq_refl).
Defined.

Lemma dma_pass_report_witness :
  depth example_network = Z.of_nat (length (layers example_network)) /\
  exists net',
    outcome (set_dma_requirements example_network) = inr net' /\
    trace (set_dma_requirements example_network) =
    imap (fun i l =>
            EvPrintf dma_format
              [Z.of_nat i; Z.b2z (needs_input_dma_load l);
               Z.b2z (needs_output_dma_store l)])
      (layers net').
Proof.
  assert (H1 : depth example_network = Z.of_nat (length (layers example_network)))
    by reflexivity.
  split; [assumption|].
  exact (dma_pass_report example_network H1).
Defined.

Lemma inner_product_stale_static_witness :
  mk_ptr 9 0 <> NULL /\
  mk_ptr 9 0 <> spad0 example_globals /\
  mk_ptr 9 0 <> spad1 example_globals /\
  layer_at (layers example_network) 2 = Some example_fc /\
  Nat.iter 5 (next_result_loc example_globals) (mk_ptr 9 0) = mk_ptr 9 0.
Proof.
  assert (H1 : mk_ptr 9 0 <> NULL) by discriminate.
  assert (H2 : mk_ptr 9 0 <> spad0 example_globals) by discriminate.
  assert (H3 : mk_ptr 9 0 <> spad1 example_globals) by discriminate.
  assert (H4 : layer_at (layers example_network) 2 = Some example_fc)
    by reflexivity.
  do 4 (split; [assumption|]).
  exact (proj1 (inner_product_stale_static 1 (fun _ _ => 180) (fun _ _ => 0)
                  example_globals (mk_ptr 9 0) 5 example_activations
                  example_weights (layers example_network) 2 example_result
                  example_fc H1 H2 H3 H4)).
Defined.

Lemma dma_pass_fc_handoff_witness :
  depth example_network = Z.of_nat (length (layers example_network)) /\
  outcome (set_dma_requirements example_network)
  = inr {| layers := [with_flags small_layer false true;
                      with_flags example_pooling true true;
                      with_flags example_fc true true];
           depth := 3 |} /\
  (EvStoreOutput example_result (spad1 example_globals)
     (with_flags example_pooling true true)
   ∈ trace (inner_product_layer_hw 1 (fun _ _ => 180) example_activations
              example_weights (spad0 example_globals) (umem example_globals)
              [with_flags small_layer false true;
               with_flags example_pooling true true;
               with_flags example_fc true true] 1
              example_result (spad1 example_globals)) <->
   EvGrabInput example_result (spad1 example_globals)
     (with_flags example_fc true true)
   ∈ trace (inner_product_layer_hw 1 (fun _ _ => 180) example_result
              example_weights (spad1 example_globals) (umem example_globals)
              [with_flags small_layer false true;
               with_flags example_pooling true true;
               with_flags example_fc true true] 2
              example_activations (spad0 example_globals))).
Proof.
  assert (H1 : depth example_network = Z.of_nat (length (layers example_network)))
    by reflexivity.
  assert (H2 : outcome (set_dma_requirements example_network)
               = inr {| layers := [with_flags small_layer false true;
                                   with_flags example_pooling true true;
                                   with_flags example_fc true true];
                        depth := 3 |}) by by_computation.
  do 2 (split; [assumption|]).
  exact (dma_pass_fc_handoff 1 (fun _ _ => 180) example_network _ 1
           (with_flags example_pooling true true) (with_flags example_fc true true)
           example_activations example_weights (spad0 example_globals)
           (umem example_globals) example_result (spad1 example_globals)
           example_result example_weights (spad1 example_globals)
           (umem example_globals) example_activations (spad0 example_globals)
           H1 H2 eq_refl eq_refl).
Defined.

Lemma example_dispatch_returns (a w : ptr) (ls : list layer_t) (l : Z)
    (r s p : ptr) :
  outcome (example_dispatch a w ls l r s) = inr p -> p = a \/ p = r.
Proof. intros [= <-]. right. reflexivity. Qed.

Lemma nnet_fwd_ping_pong_witness :
  outcome (for_loop 1 0 example_activations
             (nnet_fwd_outer example_dispatch
                (Farray.mk_farray example_activations 4096)
                (Farray.mk_farray example_weights 4096)
                (Farray.mk_farray example_result 4096)
                (layers example_network) (mk_ptr 9 0)))
  = inr example_result /\
  layer_at (layers example_network) 1 = Some example_pooling /\
  nnet_fwd_outer example_dispatch
    (Farray.mk_farray example_activations 4096)
    (Farray.mk_farray example_weights 4096)
    (Farray.mk_farray example_result 4096)
    (layers example_network) (mk_ptr 9 0) 1 example_result
  = example_dispatch example_result example_weights (layers example_network) 1
      example_activations (mk_ptr 9 0).
Proof.
  assert (H1 : outcome (for_loop 1 0 example_activations
                          (nnet_fwd_outer example_dispatch
                             (Farray.mk_farray example_activations 4096)
                             (Farray.mk_farray example_weights 4096)
                             (Farray.mk_farray example_result 4096)
                             (layers example_network) (mk_ptr 9 0)))
               = inr example_result) by reflexivity.
  assert (H2 : layer_at (layers example_network) 1 = Some example_pooling)
    by reflexivity.
  do 2 (split; [assumption|]).
  exact (proj2 (nnet_fwd_ping_pong example_dispatch
                  (Farray.mk_farray example_activations 4096)
                  (Farray.mk_farray example_weights 4096)
                  (Farray.mk_farray example_result 4096)
                  (layers example_network) (mk_ptr 9 0) 1 example_result
                  example_pooling example_dispatch_returns H1 H2)).
Defined.

Lemma nnet_fwd_empty_network_witness :
  depth {| layers := []; depth := 0 |} <= 0 /\
  example_nnet_fwd {| layers := []; depth := 0 |} = ([], inl OutOfBounds).
Proof.
  assert (H1 : depth {| layers := []; depth := 0 |} <= 0) by (cbn; lia).
  split; [assumption|].
  exact (proj2 (nnet_fwd_empty_network 1 10 64 false (fun _ _ _ => ret tt)
                  example_dispatch (mk_ptr 8 0)
                  (Farray.mk_farray example_activations 4096)
                  (Farray.mk_farray example_weights 4096)
                  (Farray.mk_farray example_result 4096)
                  {| layers := []; depth := 0 |} (mk_ptr 9 0) H1) eq_refl).
Defined.

Lemma nnet_fwd_final_stores_witness :
  depth example_network = Z.of_nat (length (layers example_network)) /\
  exists net' last,
    outcome (example_nnet_fwd example_network) = inr net' /\
    layer_at (layers net') (depth example_network - 1) = Some last /\
    needs_output_dma_store last = true.
Proof.
  assert (H1 : depth example_network = Z.of_nat (length (layers example_network)))
    by reflexivity.
  split; [assumption|].
  destruct (outcome (example_nnet_fwd example_network)) as [e|net'] eqn:H2;
    [vm_compute in H2; discriminate H2|].
  destruct (nnet_fwd_final_stores 1 10 64 false (fun _ _ _ => ret tt)
              example_dispatch (mk_ptr 8 0)
              (Farray.mk_farray example_activations 4096)
              (Farray.mk_farray example_weights 4096)
              (Farray.mk_farray example_result 4096)
              example_network net' (mk_ptr 9 0) H1 H2)
    as (t & last & _ & _ & Hlast & Hstore).
  exists net', last. auto.
Defined.

Lemma runNHC_completes_witness :
  (3 = 1 \/ 1 = 1) /\
  SmvPoolingOp.runNHC 1 2 3 1 (fun N H _ C => (N * 2 + H) * 3 + C)
    (fun N H _ C => N * 2 + H + C) (fun _ => 8) true
  = ([SmvPoolingOp.InvokeKernel true 0 0 0; SmvPoolingOp.InvokeKernel true 1 0 8;
      SmvPoolingOp.InvokeKernel true 2 0 16; SmvPoolingOp.InvokeKernel true 3 1 0;
      SmvPoolingOp.InvokeKernel true 4 1 8; SmvPoolingOp.InvokeKernel true 5 1 16],
     SmvPoolingOp.Completed).
Proof.
  assert (H1 : 3 = 1 \/ 1 = 1) by (right; reflexivity).
  split; [assumption|].
  exact (runNHC_completes 1 2 3 1 (fun N H _ C => (N * 2 + H) * 3 + C)
           (fun N H _ C => N * 2 + H + C) (fun _ => 8) true H1).
Defined.

Lemma runNHC_tiling_assertion_witness :
  3 <> 2 /\ 2 <> 1 /\
  SmvPoolingOp.runNHC 1 2 3 2 (fun N H _ C => (N * 2 + H) * 3 + C)
    (fun N H _ C => (N * 2 + H) * 2 + C) (fun _ => 8) false
  = ([SmvPoolingOp.InvokeKernel false 0 0 0], SmvPoolingOp.TilingAssertion).
Proof.
  assert (H1 : 3 <> 2) by discriminate.
  assert (H2 : 2 <> 1) by discriminate.
  do 2 (split; [assumption|]).
  exact (runNHC_tiling_assertion 1 2 3 2 (fun N H _ C => (N * 2 + H) * 3 + C)
           (fun N H _ C => (N * 2 + H) * 2 + C) (fun _ => 8) false H1 H2).
Defined.

Lemma runner_final_reduction_covers_witness :
  layer_at [tiled_layer] 0 = Some tiled_layer /\
  outcome (example_runner example_activations example_weights [tiled_layer] 0
             example_result) = inr tt /\
  output_2d_size tiled_layer * 4 <= SPAD_SIZE /\
  EvReduction (spad1 example_globals) (final_layer tiled_layer 4)
    (umem example_globals)
  ∈ trace (example_runner example_activations example_weights [tiled_layer] 0
             example_result).
Proof.
  assert (H1 : layer_at [tiled_layer] 0 = Some tiled_layer) by reflexivity.
  assert (H2 : outcome (example_divide_work [tiled_layer] 0)
               = inr {| iteration := [mk_dims 130 130 2 6; mk_dims 130 130 2 6;
                                      mk_dims 130 130 2 6; mk_dims 130 130 2 6];
                        num_iterations := 4 |}) by by_computation.
  assert (H3 : outcome (example_runner example_activations example_weights
                          [tiled_layer] 0 example_result) = inr tt)
    by by_computation.
  do 2 (split; [assumption|]).
  destruct (runner_final_reduction_covers 1 (spec_INPUT_BYTES 1) 8
              spec_calc_padding example_globals example_temp_result
              example_activations example_weights example_result
              [tiled_layer] 0 tiled_layer _ H1 H2 H3
              ltac:(lia) ltac:(cbn; lia) ltac:(cbn; lia)
              ltac:(vm_compute; reflexivity) ltac:(vm_compute; reflexivity))
    as (Hfit & Hred & _).
  split; [exact Hfit | exact Hred].
Defined.

Lemma dma_pass_depth_beyond_array_witness :
  Z.of_nat (length (layers {| layers := [small_layer]; depth := 2 |}))
  < depth {| layers := [small_layer]; depth := 2 |} /\
  set_dma_requirements {| layers := [small_layer]; depth := 2 |}
  = ([], inl OutOfBounds).
Proof.
  assert (H1 : Z.of_nat (length (layers {| layers := [small_layer]; depth := 2 |}))
               < depth {| layers := [small_layer]; depth := 2 |})
    by (cbn; lia).
  split; [assumption|].
  exact (dma_pass_depth_beyond_array {| layers := [small_layer]; depth := 2 |} H1).
Defined.

